(** * lemocracker: the spiral-scan crawler of [main.go]

    A shallow embedding of [fetchAreas], [spiralScan] and
    [startDataCollection], together with the SQLite table they write to and
    the part of [encoding/json] that the struct tags of [Area] call for;
    then of the configuration and its file ([loadConfig], [saveConfig]), of
    the menus ([readInput], [showCurrentConfig], [modifyConfig], [main]) and
    of [exportToExcel].

    - Go's [int] is a 64-bit two's-complement integer: it is a [Z], and
      every addition of the source goes through [wrap].  That no addition
      ever wraps is proved, not assumed ([spiralScan_follows]).
    - [float64] is Rocq's primitive binary64 float; a product is rounded
      before it is added (no fused multiply-add).
    - Everything outside the process is an [Env], a record of oracles
      indexed by the number of calls made so far: the value of each reading
      of the monotonic clock, the outcome of each HTTP round trip, whether
      each SQL statement succeeds.  Nothing is assumed of them.
    - The worker threads a [World]: the call counters, the table, and a
      trace of every effect in the order it happens.  One worker is
      modelled; the goroutines of [startDataCollection] share nothing but
      the table.
    - [strconv.ParseFloat], [time.ParseDuration] and the verb [%f] of [fmt]
      are parameters.
    - The loops of the menus have no end of their own: their models take
      the number of passes allowed and tell whether the loop was left. *)

From Stdlib Require Import Floats.PrimFloat.
From Stdlib Require Numbers.Cyclic.Int63.Uint63.
From Stdlib Require Import ZArith List String Ascii Bool Lia Permutation.
Import ListNotations.
Local Open Scope string_scope.
Local Open Scope list_scope.
Local Open Scope Z_scope.

(* ================================================================= *)
(** ** Go integers and floats *)

Definition minInt : Z := - 2 ^ 63.
Definition maxInt : Z := 2 ^ 63 - 1.

(** Two's-complement wrap-around of [int] arithmetic. *)
Definition wrap (z : Z) : Z := (z + 2 ^ 63) mod 2 ^ 64 - 2 ^ 63.

Definition isInt (z : Z) : Prop := minInt <= z <= maxInt.

(** [float64(x)] for an [int] x: round to nearest. *)
Definition float64 (z : Z) : float :=
  match z with
  | Z0 => 0%float
  | Zpos p =>
      if z <=? maxInt then PrimFloat.of_uint63 (Uint63.of_Z z)
      else 0x1p63%float
  | Zneg p =>
      if minInt <? z then PrimFloat.opp (PrimFloat.of_uint63 (Uint63.of_Z (- z)))
      else PrimFloat.opp 0x1p63%float
  end.

(* ================================================================= *)
(** ** Strings *)

Definition isUpper (c : ascii) : bool :=
  let n := nat_of_ascii c in ((65 <=? n) && (n <=? 90))%nat.

Definition lowerAscii (c : ascii) : ascii :=
  if isUpper c then ascii_of_nat (nat_of_ascii c + 32) else c.

(** [strings.ToLower] on the ASCII letters (the only ones the comparisons of
    the source can tell apart: they compare against ASCII literals). *)
Fixpoint ToLower (s : string) : string :=
  match s with
  | EmptyString => EmptyString
  | String c s' => String (lowerAscii c) (ToLower s')
  end.

Definition isDigit (c : ascii) : bool :=
  let n := nat_of_ascii c in ((48 <=? n) && (n <=? 57))%nat.

Definition digitVal (c : ascii) : Z := Z.of_nat (nat_of_ascii c) - 48.

Fixpoint parseDigits (s : string) (acc : Z) : option Z :=
  match s with
  | EmptyString => Some acc
  | String c s' =>
      if isDigit c then parseDigits s' (10 * acc + digitVal c) else None
  end.

(** [strconv.ParseInt(s, 10, 64)]: an optional sign, then decimal digits
    only; [None] on a syntax or range error. *)
Definition ParseInt (s : string) : option Z :=
  match s with
  | EmptyString => None
  | String c s' =>
      let neg := Ascii.eqb c "-" in
      let body := if neg || Ascii.eqb c "+" then s' else s in
      match body with
      | EmptyString => None
      | _ =>
          match parseDigits body 0 with
          | Some n =>
              let v := if neg then - n else n in
              if (minInt <=? v) && (v <=? maxInt) then Some v else None
          | None => None
          end
      end
  end.

(* ================================================================= *)
(** ** The data of [main.go] *)

Record Area := mkArea {
  ID : Z;
  AreaName : string;
  Longitude : float;
  Latitude : float;
  DetailAddress : string;
  TotalDevice : Z;
  FreeDevice : Z;
  WaitDuration : Z
}.

Record ApiData := mkApiData { Records : list Area }.

Record ApiResponse := mkApiResponse {
  Code : Z;
  Data : ApiData
}.

Record Center := mkCenter {
  Name : string;
  Lat : float;
  Lng : float
}.

(** [time.Duration] is an int64 count of nanoseconds. *)
Record Config := mkConfig {
  Authorization : string;
  Interval : Z;
  Duration : Z;
  Export : bool;
  MaxBlocks : Z;
  OutputDB : string;
  OutputExcel : string
}.

Definition zeroArea : Area :=
  mkArea 0 "" 0%float 0%float "" 0 0 0.

Definition zeroResponse : ApiResponse := mkApiResponse 0 (mkApiData []).

Definition apiUrl : string :=
  "https://toc.lemobar.com/api-toc/api/area/near?current=1&size=20&longitude=%f&latitude=%f&type=0".

Definition defaultHeaders : list (string * string) :=
  [ ("content-type", "application/x-www-form-urlencoded");
    ("Cache-Control", "no-cache");
    ("p", "202507");
    ("lan", "zh-Hans");
    ("x-session-id", "31751347839278791807");
    ("charset", "utf-8");
    ("Referer", "https://servicewechat.com/wxadc480e27684767a/446/page-frame.html");
    ("User-Agent", "Mozilla/5.0 (Linux; Android 11; Pixel 3a...) Weixin NetType/WIFI Language/zh_CN ABI/arm64 MiniProgramEnv/android");
    ("Accept-Encoding", "gzip, deflate, br") ].

(* ================================================================= *)
(** ** JSON values and [encoding/json] decoding into the structs

    The decoder's scanner is not modelled: a response body is the JSON value
    the scanner reads from it, [None] when it reads no complete value (a
    syntax error, a truncated body, a read error or timeout while reading).
    A number keeps its literal, a string is already unescaped. *)

#[local] Unset Elimination Schemes.
Inductive json : Type :=
| JNull
| JBool (b : bool)
| JNumber (lit : string)
| JString (s : string)
| JArray (elems : list json)
| JObject (members : list (string * json)).
#[local] Set Elimination Schemes.

(** A key selects the field whose [json] name equals it, case-insensitively. *)
Definition fieldIs (name key : string) : bool :=
  String.eqb (ToLower name) (ToLower key).

(** An [int] field: a number literal that [ParseInt] accepts; [null] leaves
    the field as it is; anything else is an UnmarshalTypeError. *)
Definition decodeInt (v : json) (old : Z) : option Z :=
  match v with
  | JNull => Some old
  | JNumber lit => ParseInt lit
  | _ => None
  end.

Definition decodeString (v : json) (old : string) : option string :=
  match v with
  | JNull => Some old
  | JString s => Some s
  | _ => None
  end.

Definition startsNumber (s : string) : bool :=
  match s with
  | String c _ => Ascii.eqb c "-" || isDigit c
  | EmptyString => false
  end.

Section Decode.

(** [strconv.ParseFloat(s, 64)], [None] on error. *)
Variable ParseFloat : string -> option float.

(** A [float64] field tagged [`json:",string"`]: the value must be a JSON
    string (or [null]), and the string's content is then read as a literal:
    ["null"] leaves the field as it is, a number is parsed, anything else is
    an error.  An unquoted value (a bare number included) is the error
    "invalid use of ,string struct tag". *)
Definition decodeQuotedFloat (v : json) (old : float) : option float :=
  match v with
  | JNull => Some old
  | JString s =>
      if String.eqb s "null" then Some old
      else if startsNumber s then ParseFloat s
      else None
  | _ => None
  end.

(** Decoding an object into a struct: the members are taken in order, each
    stored into the field it names; [null] is a no-op; any other value is an
    UnmarshalTypeError.  [Decode]'s error is only ever compared with [nil],
    so the first error ends the model's decoding. *)
Definition decodeStruct {A : Type} (field : string -> json -> A -> option A)
    (v : json) (old : A) : option A :=
  match v with
  | JNull => Some old
  | JObject ms =>
      fold_left
        (fun acc kv =>
           match acc with
           | Some a => field (fst kv) (snd kv) a
           | None => None
           end)
        ms (Some old)
  | _ => None
  end.

Definition areaField (key : string) (v : json) (a : Area) : option Area :=
  if fieldIs "id" key then
    option_map (fun n => mkArea n (AreaName a) (Longitude a) (Latitude a)
                           (DetailAddress a) (TotalDevice a) (FreeDevice a) (WaitDuration a))
               (decodeInt v (ID a))
  else if fieldIs "areaName" key then
    option_map (fun s => mkArea (ID a) s (Longitude a) (Latitude a)
                           (DetailAddress a) (TotalDevice a) (FreeDevice a) (WaitDuration a))
               (decodeString v (AreaName a))
  else if fieldIs "longitude" key then
    option_map (fun f => mkArea (ID a) (AreaName a) f (Latitude a)
                           (DetailAddress a) (TotalDevice a) (FreeDevice a) (WaitDuration a))
               (decodeQuotedFloat v (Longitude a))
  else if fieldIs "latitude" key then
    option_map (fun f => mkArea (ID a) (AreaName a) (Longitude a) f
                           (DetailAddress a) (TotalDevice a) (FreeDevice a) (WaitDuration a))
               (decodeQuotedFloat v (Latitude a))
  else if fieldIs "detailAddress" key then
    option_map (fun s => mkArea (ID a) (AreaName a) (Longitude a) (Latitude a)
                           s (TotalDevice a) (FreeDevice a) (WaitDuration a))
               (decodeString v (DetailAddress a))
  else if fieldIs "totalDeviceNum" key then
    option_map (fun n => mkArea (ID a) (AreaName a) (Longitude a) (Latitude a)
                           (DetailAddress a) n (FreeDevice a) (WaitDuration a))
               (decodeInt v (TotalDevice a))
  else if fieldIs "freeDeviceNum" key then
    option_map (fun n => mkArea (ID a) (AreaName a) (Longitude a) (Latitude a)
                           (DetailAddress a) (TotalDevice a) n (WaitDuration a))
               (decodeInt v (FreeDevice a))
  else if fieldIs "waitDuration" key then
    option_map (fun n => mkArea (ID a) (AreaName a) (Longitude a) (Latitude a)
                           (DetailAddress a) (TotalDevice a) (FreeDevice a) n)
               (decodeInt v (WaitDuration a))
  else Some a.

Definition decodeArea : json -> Area -> option Area := decodeStruct areaField.

(** Decoding an array into [[]Area]: element [i] is decoded into the slice's
    element [i] when the slice already has one (a repeated key), into a zero
    [Area] otherwise. *)
Fixpoint decodeElems (vs : list json) (old : list Area) : option (list Area) :=
  match vs with
  | [] => Some []
  | v :: vs' =>
      match decodeArea v (hd zeroArea old) with
      | Some a => option_map (cons a) (decodeElems vs' (tl old))
      | None => None
      end
  end.

Definition decodeRecords (v : json) (old : list Area) : option (list Area) :=
  match v with
  | JNull => Some []
  | JArray vs => decodeElems vs old
  | _ => None
  end.

Definition dataField (key : string) (v : json) (d : ApiData) : option ApiData :=
  if fieldIs "records" key then option_map mkApiData (decodeRecords v (Records d))
  else Some d.

Definition responseField (key : string) (v : json) (r : ApiResponse) : option ApiResponse :=
  if fieldIs "code" key then
    option_map (fun n => mkApiResponse n (Data r)) (decodeInt v (Code r))
  else if fieldIs "data" key then
    option_map (fun d => mkApiResponse (Code r) d) (decodeStruct dataField v (Data r))
  else Some r.

(** [json.NewDecoder(resp.Body).Decode(&result)] on a zero [result]:
    [None] when it returns an error. *)
Definition Decode (body : option json) : option ApiResponse :=
  match body with
  | None => None
  | Some v => decodeStruct responseField v zeroResponse
  end.

End Decode.

(* ================================================================= *)
(** ** The table [lemobar_areas] *)

(** One row, by column.  [area_id] is the INTEGER PRIMARY KEY. *)
Record Row := mkRow {
  area_id : Z;
  area_name : string;
  detail_address : string;
  latitude : float;
  longitude : float;
  total_device_num : Z;
  free_device_num : Z;
  wait_duration : Z
}.

Definition Table := list Row.

Definition hasId (k : Z) (t : Table) : bool :=
  existsb (fun r => area_id r =? k) t.

(** [INSERT OR IGNORE INTO lemobar_areas (...) VALUES (...)]: a row whose
    [area_id] is already in the table is dropped, any other is added. *)
Definition insertOrIgnore (r : Row) (t : Table) : Table :=
  if hasId (area_id r) t then t else t ++ [r].

(** The arguments of [insertStmt.Exec], in the statement's column order. *)
Definition rowOf (a : Area) : Row :=
  mkRow (ID a) (AreaName a) (DetailAddress a) (Latitude a) (Longitude a)
        (TotalDevice a) (FreeDevice a) (WaitDuration a).

Definition rowsWithId (k : Z) (t : Table) : Table :=
  filter (fun r => area_id r =? k) t.

Definition ids (t : Table) : list Z := map area_id t.

(* ================================================================= *)
(** ** The environment, the world and the trace *)

Record Request := mkRequest {
  method : string;
  url : string;
  header : list (string * string)
}.

(** What [client.Do] gives back: an error (transport failure, or the
    client's 8 s timeout), or a response with its body. *)
Inductive RoundTrip : Type :=
| DoError (err : string)
| DoBody (body : option json).

Record Env := mkEnv {
  (** the value of the k-th evaluation of [time.Since(startTime)], in ns *)
  since : nat -> Z;
  (** the outcome of the k-th [client.Do] *)
  roundTrip : nat -> Request -> RoundTrip;
  (** whether [db.Prepare] succeeds *)
  prepareOk : bool;
  (** whether the k-th [insertStmt.Exec] succeeds *)
  execOk : nat -> bool
}.

Inductive LogLine : Type :=
| LogPrepareFailed (name : string)
| LogPoint (name : string) (scanned : Z) (lat lng : float) (n : Z)
| LogError (name : string) (scanned : Z) (lat lng : float) (err : string)
| LogDone (name : string) (scanned : Z) (elapsed : Z).

Inductive Event : Type :=
| EvSince (elapsed : Z)
| EvDo (req : Request)
| EvExec (row : Row) (ok : bool)
| EvLog (line : LogLine)
| EvSleep (d : Z).

Record World := mkWorld {
  reads : nat;          (* evaluations of time.Since so far *)
  calls : nat;          (* client.Do calls so far *)
  execs : nat;          (* insertStmt.Exec calls so far *)
  db : Table;
  trace : list Event
}.

Definition emit (e : Event) (w : World) : World :=
  mkWorld (reads w) (calls w) (execs w) (db w) (trace w ++ [e]).

Inductive result (A : Type) : Type :=
| Ok (a : A)
| Err (e : string).
Arguments Ok {A} a.
Arguments Err {A} e.

Section Worker.

Variable ParseFloat : string -> option float.
(** The verb [%f] of [fmt.Sprintf] on a [float64]. *)
Variable fmt_f : float -> string.
Variable env : Env.

(** [fmt.Sprintf] on a format whose only verb is [%f]. *)
Fixpoint Sprintf (format : string) (args : list float) : string :=
  match format with
  | EmptyString => EmptyString
  | String c rest =>
      if Ascii.eqb c "%" then
        match rest with
        | String v rest' =>
            if Ascii.eqb v "f" then
              match args with
              | a :: args' => (fmt_f a ++ Sprintf rest' args')%string
              | [] => ("%!f(MISSING)" ++ Sprintf rest' [])%string
              end
            else String c (Sprintf rest args)
        | EmptyString => "%!(NOVERB)"%string
        end
      else String c (Sprintf rest args)
  end.

(** [time.Since(startTime)]. *)
Definition timeSince (w : World) : Z * World :=
  let t := since env (reads w) in
  (t, mkWorld (S (reads w)) (calls w) (execs w) (db w) (trace w ++ [EvSince t])).

(** [client.Do(req)]. *)
Definition clientDo (req : Request) (w : World) : RoundTrip * World :=
  (roundTrip env (calls w) req,
   mkWorld (reads w) (S (calls w)) (execs w) (db w) (trace w ++ [EvDo req])).

(** Lines 75-82: the request for one coordinate.  The format's first [%f]
    takes [lng], the second [lat]. *)
Definition newRequest (lat lng : float) (config : Config) : Request :=
  mkRequest "GET" (Sprintf apiUrl [lng; lat])
            (defaultHeaders ++ [("Authorization", Authorization config)]).

(** Lines 85-96: what is made of the outcome of [client.Do]. *)
Definition readResponse (resp : RoundTrip) : result (list Area) :=
  match resp with
  | DoError err => Err err
  | DoBody body =>
      match Decode ParseFloat body with
      | Some r =>
          if Code r =? 200 then Ok (Records (Data r))
          else Err "API decode failed or code!=200"
      | None => Err "API decode failed or code!=200"
      end
  end.

Definition fetchAreas (lat lng : float) (config : Config) (w : World)
  : result (list Area) * World :=
  let (resp, w1) := clientDo (newRequest lat lng config) w in
  (readResponse resp, w1).

(** [_, _ = insertStmt.Exec(a.ID, ...)]: both results are discarded. *)
Definition execInsert (w : World) (a : Area) : World :=
  let ok := execOk env (execs w) in
  mkWorld (reads w) (calls w) (S (execs w))
          (if ok then insertOrIgnore (rowOf a) (db w) else db w)
          (trace w ++ [EvExec (rowOf a) ok]).

Definition step : float := 0x1.eb851eb851eb8p-6%float.   (* 0.03 *)

(** Lines 121-131 and 135 of the loop body, at grid offset [(x, y)]. *)
Definition visit (center : Center) (config : Config) (x y scanned : Z) (w : World) : World :=
  let lng := PrimFloat.add (Lng center) (PrimFloat.mul (float64 x) step) in
  let lat := PrimFloat.add (Lat center) (PrimFloat.mul (float64 y) step) in
  let (res, w1) := fetchAreas lat lng config w in
  let w2 :=
    match res with
    | Ok areas =>
        emit (EvLog (LogPoint (Name center) scanned lat lng (Z.of_nat (List.length areas))))
             (fold_left execInsert areas w1)
    | Err err =>
        emit (EvLog (LogError (Name center) scanned lat lng err)) w1
    end in
  emit (EvSleep (Interval config)) w2.

Record Dir := mkDir { dx : Z; dy : Z }.

Definition dirs : list Dir := [mkDir 1 0; mkDir 0 1; mkDir (-1) 0; mkDir 0 (-1)].

(** [dirs[i]]: an index out of range panics. *)
Definition dirsAt (i : Z) : option Dir :=
  if (0 <=? i) && (i <? Z.of_nat (List.length dirs)) then nth_error dirs (Z.to_nat i) else None.

(** The local variables of [spiralScan], and the world. *)
Record Scan := mkScan {
  s_x : Z;
  s_y : Z;
  s_dirIdx : Z;
  s_dist : Z;
  s_scanned : Z;
  world : World
}.

Definition withWorld (st : Scan) (w : World) : Scan :=
  mkScan (s_x st) (s_y st) (s_dirIdx st) (s_dist st) (s_scanned st) w.

(** How a loop is left: it runs on, [return] was executed, or a panic. *)
Inductive Flow : Type :=
| Next (st : Scan)
| Return (st : Scan)
| Panic.

Section Loops.

Variable center : Center.
Variable config : Config.

(** Line 115: [scanned < config.MaxBlocks && time.Since(startTime) < config.Duration]. *)
Definition withinBudget (st : Scan) : bool * Scan :=
  if s_scanned st <? MaxBlocks config then
    let (t, w) := timeSince (world st) in (t <? Duration config, withWorld st w)
  else (false, st).

(** Line 118: [scanned >= config.MaxBlocks || time.Since(startTime) >= config.Duration]. *)
Definition budgetSpent (st : Scan) : bool * Scan :=
  if s_scanned st >=? MaxBlocks config then (true, st)
  else
    let (t, w) := timeSince (world st) in (t >=? Duration config, withWorld st w).

(** Lines 121-135. *)
Definition loopBody (st : Scan) : option Scan :=
  let w := visit center config (s_x st) (s_y st) (s_scanned st) (world st) in
  match dirsAt (s_dirIdx st) with
  | Some d =>
      Some (mkScan (wrap (s_x st + dx d)) (wrap (s_y st + dy d))
                   (s_dirIdx st) (s_dist st) (wrap (s_scanned st + 1)) w)
  | None => None
  end.

(** Lines 117-136: [for j := 0; j < dist; j++], with [n] iterations left. *)
Fixpoint legLoop (n : nat) (st : Scan) : Flow :=
  match n with
  | O => Next st
  | S n' =>
      let (stop, st1) := budgetSpent st in
      if stop then Return st1
      else
        match loopBody st1 with
        | Some st2 => legLoop n' st2
        | None => Panic
        end
  end.

(** Line 137: [dirIdx = (dirIdx + 1) % 4]. *)
Definition turn (st : Scan) : Scan :=
  mkScan (s_x st) (s_y st) (Z.rem (wrap (s_dirIdx st + 1)) 4) (s_dist st)
         (s_scanned st) (world st).

(** Lines 116-138: [for i := 0; i < 2; i++], with [n] iterations left. *)
Fixpoint dirLoop (n : nat) (st : Scan) : Flow :=
  match n with
  | O => Next st
  | S n' =>
      match legLoop (Z.to_nat (s_dist st)) st with
      | Next st1 => dirLoop n' (turn st1)
      | other => other
      end
  end.

(** Line 139: [dist++]. *)
Definition widen (st : Scan) : Scan :=
  mkScan (s_x st) (s_y st) (s_dirIdx st) (wrap (s_dist st + 1))
         (s_scanned st) (world st).

(** Line 142: the closing log line. *)
Definition logDone (st : Scan) : World :=
  let (t, w) := timeSince (world st) in
  emit (EvLog (LogDone (Name center) (s_scanned st) t)) w.

Inductive Outcome : Type :=
| Finished (w : World)
| Panicked
| OutOfFuel.

(** Lines 115-142: the outer [for], with [fuel] iterations allowed. *)
Fixpoint scanLoop (fuel : nat) (st : Scan) : Outcome :=
  match fuel with
  | O => OutOfFuel
  | S fuel' =>
      let (go, st1) := withinBudget st in
      if go then
        match dirLoop 2 st1 with
        | Next st2 => scanLoop fuel' (widen st2)
        | Return st2 => Finished (world st2)
        | Panic => Panicked
        end
      else Finished (logDone st1)
  end.

(** [spiralScan(db, center, config, wg)].  Every pass of the outer loop that
    does not return scans at least one point, so [MaxBlocks + 1] passes are
    enough (see [spiralScan_finishes]). *)
Definition spiralScan (w : World) : Outcome :=
  if prepareOk env then
    scanLoop (S (Z.to_nat (MaxBlocks config))) (mkScan 0 0 0 1 0 w)
  else
    Finished (emit (EvLog (LogPrepareFailed (Name center))) w).

End Loops.

End Worker.

(* ================================================================= *)
(** ** The spiral path on its own

    The loop nest of [spiralScan] with the budget tests and the body's
    effects taken out: what is left moves [(x, y)] over the unbounded
    integer lattice. *)

Definition Point : Type := Z * Z.

Record Cursor := mkCursor {
  c_x : Z;
  c_y : Z;
  c_dirIdx : Z;
  c_dist : Z
}.

Definition dirOf (i : Z) : Dir := nth (Z.to_nat i) dirs (mkDir 0 0).

(** [for j := 0; j < dist; j++ { visit (x, y); x += dx; y += dy }]:
    the points visited and the cursor after. *)
Fixpoint legPath (n : nat) (c : Cursor) : list Point * Cursor :=
  match n with
  | O => ([], c)
  | S n' =>
      let d := dirOf (c_dirIdx c) in
      let r := legPath n' (mkCursor (c_x c + dx d) (c_y c + dy d) (c_dirIdx c) (c_dist c)) in
      ((c_x c, c_y c) :: fst r, snd r)
  end.

Definition turnC (c : Cursor) : Cursor :=
  mkCursor (c_x c) (c_y c) (Z.rem (c_dirIdx c + 1) 4) (c_dist c).

Definition widenC (c : Cursor) : Cursor :=
  mkCursor (c_x c) (c_y c) (c_dirIdx c) (c_dist c + 1).

(** [for i := 0; i < 2; i++ { leg; dirIdx = (dirIdx + 1) % 4 }]. *)
Fixpoint dirPath (n : nat) (c : Cursor) : list Point * Cursor :=
  match n with
  | O => ([], c)
  | S n' =>
      let l := legPath (Z.to_nat (c_dist c)) c in
      let r := dirPath n' (turnC (snd l)) in
      (fst l ++ fst r, snd r)
  end.

(** [k] passes of the outer loop. *)
Fixpoint spiralRings (k : nat) (c : Cursor) : list Point :=
  match k with
  | O => []
  | S k' =>
      let r := dirPath 2 c in
      fst r ++ spiralRings k' (widenC (snd r))
  end.

(** The initial state: x = 0, y = 0, direction index 0, distance 1. *)
Definition start : Cursor := mkCursor 0 0 0 1.

(** The first [n] grid offsets of the spiral (pass [k] yields [2 k] points,
    so [n] passes yield at least [n]). *)
Definition spiralPath (n : nat) : list Point :=
  firstn n (spiralRings n start).

(* ================================================================= *)
(** ** Visiting a list of points in order *)

Section Visits.

Variable ParseFloat : string -> option float.
Variable fmt_f : float -> string.
Variable env : Env.
Variable center : Center.
Variable config : Config.

(** The loop body's effects at each point of [ps] in turn, the first one
    being point number [k] of the scan. *)
Fixpoint visitAll (ps : list Point) (k : Z) (w : World) : World :=
  match ps with
  | [] => w
  | p :: ps' =>
      visitAll ps' (k + 1) (visit ParseFloat fmt_f env center config (fst p) (snd p) k w)
  end.

End Visits.

Definition isSince (e : Event) : bool :=
  match e with EvSince _ => true | _ => false end.

(** A trace without its clock readings. *)
Definition effects (tr : list Event) : list Event :=
  filter (fun e => negb (isSince e)) tr.

(* ================================================================= *)
(** ** [startDataCollection]

    The menu entry that starts a scan.  Standard input is the list of the
    lines typed, each as [strings.TrimSpace] leaves it; whether [sql.Open]
    succeeds is an input.  The result is what the function does, in order
    (its prints are left out but for the three notices), and the input left
    unread. *)

Definition Stdin : Type := list string.

(** [readInput()]: the next line that is not empty, [""] at the end of the
    input. *)
Fixpoint readInput (input : Stdin) : string * Stdin :=
  match input with
  | [] => (""%string, [])
  | line :: rest =>
      if String.eqb line "" then readInput rest else (line, rest)
  end.

Inductive Notice : Type :=
| MissingAuthorization
| Cancelled
| OpenFailed.

Inductive Action : Type :=
| Say (n : Notice)
| ShowCurrentConfig
| SqlOpen (path : string)
| CreateTable
| GoSpiralScan (c : Center)
| WaitAll
| ExportToExcel
| SqlClose.

#[local] Set Warnings "-inexact-float".
Definition centers : list Center :=
  [ mkCenter "北京" 39.9042 116.4074; mkCenter "上海" 31.2304 121.4737;
    mkCenter "广州" 23.1291 113.2644; mkCenter "深圳" 22.5431 114.0579;
    mkCenter "杭州" 30.2741 120.1551; mkCenter "南京" 32.0603 118.7969;
    mkCenter "成都" 30.5728 104.0668; mkCenter "重庆" 29.5630 106.5516;
    mkCenter "武汉" 30.5928 114.3055; mkCenter "西安" 34.3416 108.9398;
    mkCenter "天津" 39.3434 117.3616; mkCenter "苏州" 31.2989 120.5853;
    mkCenter "郑州" 34.7466 113.6254; mkCenter "长沙" 28.2282 112.9388;
    mkCenter "青岛" 36.0671 120.3826; mkCenter "宁波" 29.8683 121.5440;
    mkCenter "佛山" 23.0215 113.1214; mkCenter "合肥" 31.8206 117.2272;
    mkCenter "无锡" 31.4912 120.3119; mkCenter "厦门" 24.4798 118.0894;
    mkCenter "大连" 38.9140 121.6147; mkCenter "南昌" 28.6829 115.8582;
    mkCenter "昆明" 25.0389 102.7183; mkCenter "常州" 31.8107 119.9741 ]%float.
#[local] Set Warnings "+inexact-float".

(** [strings.ToLower(s) == "y" || strings.ToLower(s) == "yes"]. *)
Definition saysYes (s : string) : bool :=
  String.eqb (ToLower s) "y" || String.eqb (ToLower s) "yes".

(** [strings.ToLower(s) == "n" || strings.ToLower(s) == "no"]. *)
Definition saysNo (s : string) : bool :=
  String.eqb (ToLower s) "n" || String.eqb (ToLower s) "no".

Definition startDataCollection (globalConfig : Config) (openOk : bool) (input : Stdin)
  : list Action * Stdin :=
  if String.eqb (Authorization globalConfig) "" then
    ([Say MissingAuthorization], input)
  else
    let (confirm, input1) := readInput input in
    if negb (saysYes confirm) then
      ([ShowCurrentConfig; Say Cancelled], input1)
    else if negb openOk then
      ([ShowCurrentConfig; SqlOpen (OutputDB globalConfig); Say OpenFailed], input1)
    else
      let (exportChoice, input2) := readInput input1 in
      ([ShowCurrentConfig; SqlOpen (OutputDB globalConfig); CreateTable]
         ++ map GoSpiralScan centers
         ++ [WaitAll]
         ++ (if saysNo exportChoice then [] else [ExportToExcel])
         ++ [SqlClose],
       input2).

(** The workers an execution launched. *)
Definition launched (acts : list Action) : list Center :=
  flat_map (fun a => match a with GoSpiralScan c => [c] | _ => [] end) acts.

(** Whether an execution touched the store at all. *)
Definition touchesStore (acts : list Action) : bool :=
  existsb (fun a => match a with
                    | SqlOpen _ | CreateTable | GoSpiralScan _ | ExportToExcel => true
                    | _ => false
                    end) acts.

(* ================================================================= *)
(** ** Printing integers, and strings as JSON keeps them *)

Definition digitChar (d : Z) : ascii := ascii_of_nat (Z.to_nat (48 + d)).

(** The decimal digits of [n >= 0] put before [acc], the last digit first;
    [fuel] bounds their number. *)
Fixpoint digits (fuel : nat) (n : Z) (acc : string) : string :=
  match fuel with
  | O => acc
  | S fuel' =>
      let acc' := String (digitChar (n mod 10)) acc in
      if n <? 10 then acc' else digits fuel' (n / 10) acc'
  end.

(** [strconv.Itoa], which is also the verb [%d] and what [encoding/json]
    writes for an integer field: decimal, with a minus sign when negative.
    An [int] has at most 19 digits. *)
Definition Itoa (n : Z) : string :=
  if n <? 0 then String "-" (digits 19 (- n) "") else digits 19 n "".

(** [strconv.Atoi] is [ParseInt] in base 10 at the size of [int]. *)
Definition Atoi (s : string) : option Z := ParseInt s.

Definition byteOf (c : ascii) : Z := Z.of_nat (nat_of_ascii c).

Definition inRange (lo hi : Z) (c : ascii) : bool :=
  (lo <=? byteOf c) && (byteOf c <=? hi).

(** The number of bytes of the UTF-8 encoding that starts [s], as
    [utf8.DecodeRuneInString] accepts it (no overlong form, no surrogate,
    nothing above U+10FFFF); [0] when the first byte starts none. *)
Definition runeLen (s : string) : nat :=
  match s with
  | EmptyString => 0%nat
  | String c0 r =>
      let b := byteOf c0 in
      if b <? 128 then 1%nat
      else if b <? 194 then 0%nat
      else if b <? 224 then
        match r with
        | String c1 _ => if inRange 128 191 c1 then 2%nat else 0%nat
        | _ => 0%nat
        end
      else if b <? 240 then
        match r with
        | String c1 (String c2 _) =>
            if inRange (if b =? 224 then 160 else 128) (if b =? 237 then 159 else 191) c1
               && inRange 128 191 c2
            then 3%nat else 0%nat
        | _ => 0%nat
        end
      else if b <? 245 then
        match r with
        | String c1 (String c2 (String c3 _)) =>
            if inRange (if b =? 240 then 144 else 128) (if b =? 244 then 143 else 191) c1
               && inRange 128 191 c2 && inRange 128 191 c3
            then 4%nat else 0%nat
        | _ => 0%nat
        end
      else 0%nat
  end.

(** A string after [encoding/json] has written it and read it back: every
    byte that is not part of a valid UTF-8 encoding has become U+FFFD; all
    the rest, escaped or not in between, is the same.  [keep] bytes are
    still owed to the encoding under way. *)
Fixpoint throughJSON (keep : nat) (s : string) : string :=
  match s with
  | EmptyString => EmptyString
  | String c r =>
      match keep with
      | S k => String c (throughJSON k r)
      | O =>
          match runeLen s with
          | O => ("�" ++ throughJSON 0 r)%string
          | S k => String c (throughJSON k r)
          end
      end
  end.

(** A string that JSON keeps as it is: valid UTF-8. *)
Definition validUTF8 (s : string) : Prop := throughJSON 0 s = s.

(** The folding [encoding/json] compares keys under: the letters of ASCII
    without their case, with the two letters outside ASCII that fold to one
    of them, U+017F (to s) and U+212A (to k). *)
Fixpoint foldName (s : string) : string :=
  match s with
  | EmptyString => EmptyString
  | String c r =>
      match r with
      | String c1 r1 =>
          if (byteOf c =? 197) && (byteOf c1 =? 191) then String "s" (foldName r1)
          else
            match r1 with
            | String c2 r2 =>
                if (byteOf c =? 226) && (byteOf c1 =? 132) && (byteOf c2 =? 170)
                then String "k" (foldName r2)
                else String (lowerAscii c) (foldName r)
            | EmptyString => String (lowerAscii c) (foldName r)
            end
      | EmptyString => String (lowerAscii c) EmptyString
      end
  end.

(** A key selects the field whose [json] name folds to the same string. *)
Definition keyIs (name key : string) : bool :=
  String.eqb (foldName name) (foldName key).

(* ================================================================= *)
(** ** The configuration and its file

    [config.json] is modelled by what reading it gives: nothing when there
    is no such file, an error when it cannot be read, and otherwise the JSON
    value its content is, [None] when the content is not one JSON value. *)

Definition withAuthorization (v : string) (c : Config) : Config :=
  mkConfig v (Interval c) (Duration c) (Export c) (MaxBlocks c) (OutputDB c) (OutputExcel c).
Definition withInterval (v : Z) (c : Config) : Config :=
  mkConfig (Authorization c) v (Duration c) (Export c) (MaxBlocks c) (OutputDB c) (OutputExcel c).
Definition withDuration (v : Z) (c : Config) : Config :=
  mkConfig (Authorization c) (Interval c) v (Export c) (MaxBlocks c) (OutputDB c) (OutputExcel c).
Definition withExport (v : bool) (c : Config) : Config :=
  mkConfig (Authorization c) (Interval c) (Duration c) v (MaxBlocks c) (OutputDB c) (OutputExcel c).
Definition withMaxBlocks (v : Z) (c : Config) : Config :=
  mkConfig (Authorization c) (Interval c) (Duration c) (Export c) v (OutputDB c) (OutputExcel c).
Definition withOutputDB (v : string) (c : Config) : Config :=
  mkConfig (Authorization c) (Interval c) (Duration c) (Export c) (MaxBlocks c) v (OutputExcel c).
Definition withOutputExcel (v : string) (c : Config) : Config :=
  mkConfig (Authorization c) (Interval c) (Duration c) (Export c) (MaxBlocks c) (OutputDB c) v.

Definition zeroConfig : Config := mkConfig "" 0 0 false 0 "" "".

(** Lines 249-256: 200 ms, 30 min, 5000 points. *)
Definition defaultConfig : Config :=
  mkConfig "" (200 * 1000000) (30 * 60000000000) false 5000
           "lemobar_scan.db" "lemobar_export.csv".

Definition decodeBool (v : json) (old : bool) : option bool :=
  match v with
  | JNull => Some old
  | JBool b => Some b
  | _ => None
  end.

(** The fields of [Config] by their [json] names.  A [time.Duration] is an
    int64 and is read as one. *)
Definition configField (key : string) (v : json) (c : Config) : option Config :=
  if keyIs "authorization" key then
    option_map (fun s => withAuthorization s c) (decodeString v (Authorization c))
  else if keyIs "interval" key then
    option_map (fun n => withInterval n c) (decodeInt v (Interval c))
  else if keyIs "duration" key then
    option_map (fun n => withDuration n c) (decodeInt v (Duration c))
  else if keyIs "export" key then
    option_map (fun b => withExport b c) (decodeBool v (Export c))
  else if keyIs "maxBlocks" key then
    option_map (fun n => withMaxBlocks n c) (decodeInt v (MaxBlocks c))
  else if keyIs "outputDB" key then
    option_map (fun s => withOutputDB s c) (decodeString v (OutputDB c))
  else if keyIs "outputExcel" key then
    option_map (fun s => withOutputExcel s c) (decodeString v (OutputExcel c))
  else Some c.

(** [json.Unmarshal(data, &config)] on a zero [config]: [None] when it
    returns an error. *)
Definition Unmarshal (data : option json) : option Config :=
  match data with
  | None => None
  | Some v => decodeStruct configField v zeroConfig
  end.

(** The value that the text of [json.MarshalIndent(config, "", "  ")] is.
    It cannot fail on a [Config]. *)
Definition MarshalIndent (config : Config) : json :=
  JObject [ ("authorization", JString (throughJSON 0 (Authorization config)));
            ("interval", JNumber (Itoa (Interval config)));
            ("duration", JNumber (Itoa (Duration config)));
            ("export", JBool (Export config));
            ("maxBlocks", JNumber (Itoa (MaxBlocks config)));
            ("outputDB", JString (throughJSON 0 (OutputDB config)));
            ("outputExcel", JString (throughJSON 0 (OutputExcel config))) ].

Inductive ConfigFile : Type :=
| NoFile
| Unreadable (err : string)
| FileWith (data : option json).

Inductive LoadError : Type :=
| ReadFailed (err : string)
| ParseFailed.

(** Lines 276-290: a setting that is not usable gets its default. *)
Definition orDefaults (config : Config) : Config :=
  let config := if Interval config <=? 0 then withInterval (Interval defaultConfig) config
                else config in
  let config := if Duration config <=? 0 then withDuration (Duration defaultConfig) config
                else config in
  let config := if MaxBlocks config <=? 0 then withMaxBlocks (MaxBlocks defaultConfig) config
                else config in
  let config := if String.eqb (OutputDB config) "" then withOutputDB (OutputDB defaultConfig) config
                else config in
  if String.eqb (OutputExcel config) "" then withOutputExcel (OutputExcel defaultConfig) config
  else config.

(** [loadConfig()]: the configuration and the error. *)
Definition loadConfig (file : ConfigFile) : Config * option LoadError :=
  match file with
  | NoFile => (defaultConfig, None)
  | Unreadable err => (defaultConfig, Some (ReadFailed err))
  | FileWith data =>
      match Unmarshal data with
      | None => (defaultConfig, Some ParseFailed)
      | Some config => (orDefaults config, None)
      end
  end.

(* ================================================================= *)
(** ** A session at the menus

    What the menus act on: the configuration in memory, the input not yet
    read, the configuration file, and what has been printed.  The input is
    the list of the lines typed at a terminal, as for [startDataCollection]. *)

Inductive Setting : Type :=
| TheAuthorization
| TheInterval
| TheDuration
| TheMaxBlocks
| TheOutputDB
| TheOutputExcel.

(** What [showCurrentConfig] prints of a configuration. *)
Record Shown := mkShown {
  shownAuthorization : string;
  shownInterval : Z;
  shownDuration : Z;
  shownMaxBlocks : Z;
  shownOutputDB : string;
  shownOutputExcel : string
}.

(** What the menus print, a constructor for each message of the source;
    a menu, the help and the statistics of the database are one message. *)
Inductive Msg : Type :=
(* modifyConfig *)
| ConfigMenu
| Ask (what : Setting)
| Updated (what : Setting)
| SaveFailed (err : string)
| Refused (what : Setting)
| InvalidChoice
| PressEnter
(* main *)
| Welcome
| LoadFailed (e : LoadError)
| Loaded
| MainMenu
| Collection (acts : list Action)
| Exporting (config : Config)
| CurrentConfig (shown : Shown)
| DatabaseStats (path : string)
| Help
| Goodbye.

Record Session := mkSession {
  globalConfig : Config;
  stdin : Stdin;
  configFile : ConfigFile;
  saves : nat;            (* calls of os.WriteFile so far *)
  collections : nat;      (* calls of startDataCollection so far *)
  printed : list Msg
}.

(** What is not the program's to decide. *)
Record Os := mkOs {
  (** the k-th [os.WriteFile]: [None] when it succeeds, else its error and
      what it has left of the file *)
  writeFile : nat -> option (string * ConfigFile);
  (** whether [sql.Open] succeeds in the k-th [startDataCollection] *)
  openOk : nat -> bool
}.

(** [fmt.Print] and the like. *)
Definition say (m : Msg) (s : Session) : Session :=
  mkSession (globalConfig s) (stdin s) (configFile s) (saves s) (collections s)
            (printed s ++ [m]).

(** [readInput()] on the session's input. *)
Definition input (s : Session) : string * Session :=
  let (line, rest) := readInput (stdin s) in
  (line, mkSession (globalConfig s) rest (configFile s) (saves s) (collections s) (printed s)).

(** An assignment to a field of [globalConfig]. *)
Definition setConfig (c : Config) (s : Session) : Session :=
  mkSession c (stdin s) (configFile s) (saves s) (collections s) (printed s).

(** Lines 350-357: the credential as [showCurrentConfig] shows it. *)
Definition authDisplay (auth : string) : string :=
  if String.eqb auth "" then "未设置"
  else if (20 <? String.length auth)%nat then (substring 0 20 auth ++ "...")%string
  else auth.

(** [showCurrentConfig()]. *)
Definition showCurrentConfig (s : Session) : Session :=
  let c := globalConfig s in
  say (CurrentConfig (mkShown (authDisplay (Authorization c)) (Interval c) (Duration c)
                              (MaxBlocks c) (OutputDB c) (OutputExcel c))) s.

Section Menus.

(** [time.ParseDuration], [None] on error. *)
Variable ParseDuration : string -> option Z.
Variable os : Os.

(** [saveConfig(config)]: the error, if any. *)
Definition saveConfig (config : Config) (s : Session) : option string * Session :=
  match writeFile os (saves s) with
  | None =>
      (None,
       mkSession (globalConfig s) (stdin s) (FileWith (Some (MarshalIndent config)))
                 (S (saves s)) (collections s) (printed s))
  | Some (err, remains) =>
      (Some ("写入配置文件失败: " ++ err)%string,
       mkSession (globalConfig s) (stdin s) remains (S (saves s)) (collections s) (printed s))
  end.

(** [globalConfig.X = v], then [saveConfig(globalConfig)] and the line that
    tells how it went. *)
Definition update (what : Setting) (c : Config) (s : Session) : Session :=
  let (err, s1) := saveConfig c (setConfig c s) in
  match err with
  | Some e => say (SaveFailed e) s1
  | None => say (Updated what) s1
  end.

(** Lines 374-460, the [switch] of [modifyConfig]: [None] when it returns. *)
Definition configChoice (choice : string) (s : Session) : option Session :=
  if String.eqb choice "1" then
    let (auth, s1) := input (say (Ask TheAuthorization) s) in
    if negb (String.eqb auth "") then
      Some (update TheAuthorization (withAuthorization auth (globalConfig s1)) s1)
    else Some (say (Refused TheAuthorization) s1)
  else if String.eqb choice "2" then
    let (intervalStr, s1) := input (say (Ask TheInterval) s) in
    match ParseDuration intervalStr with
    | Some duration => Some (update TheInterval (withInterval duration (globalConfig s1)) s1)
    | None => Some (say (Refused TheInterval) s1)
    end
  else if String.eqb choice "3" then
    let (durationStr, s1) := input (say (Ask TheDuration) s) in
    match ParseDuration durationStr with
    | Some duration => Some (update TheDuration (withDuration duration (globalConfig s1)) s1)
    | None => Some (say (Refused TheDuration) s1)
    end
  else if String.eqb choice "4" then
    let (blocksStr, s1) := input (say (Ask TheMaxBlocks) s) in
    match Atoi blocksStr with
    | Some blocks =>
        if 0 <? blocks then Some (update TheMaxBlocks (withMaxBlocks blocks (globalConfig s1)) s1)
        else Some (say (Refused TheMaxBlocks) s1)
    | None => Some (say (Refused TheMaxBlocks) s1)
    end
  else if String.eqb choice "5" then
    let (dbPath, s1) := input (say (Ask TheOutputDB) s) in
    if negb (String.eqb dbPath "") then
      Some (update TheOutputDB (withOutputDB dbPath (globalConfig s1)) s1)
    else Some s1
  else if String.eqb choice "6" then
    let (excelPath, s1) := input (say (Ask TheOutputExcel) s) in
    if negb (String.eqb excelPath "") then
      Some (update TheOutputExcel (withOutputExcel excelPath (globalConfig s1)) s1)
    else Some s1
  else if String.eqb choice "0" then None
  else Some (say InvalidChoice s).

(** Lines 462-463: the prompt to go on, and the line it waits for. *)
Definition pause (s : Session) : Session := snd (input (say PressEnter s)).

(** [modifyConfig()], with [fuel] passes of its loop allowed: whether it
    has returned, and the session then. *)
Fixpoint modifyConfig (fuel : nat) (s : Session) : bool * Session :=
  match fuel with
  | O => (false, s)
  | S fuel' =>
      let (choice, s1) := input (say ConfigMenu s) in
      match configChoice choice s1 with
      | None => (true, s1)
      | Some s2 => modifyConfig fuel' (pause s2)
      end
  end.

(** [startDataCollection()] in the session. *)
Definition collect (s : Session) : Session :=
  let (acts, rest) :=
    startDataCollection (globalConfig s) (openOk os (collections s)) (stdin s) in
  mkSession (globalConfig s) rest (configFile s) (saves s) (S (collections s))
            (printed s ++ [Collection acts]).

(** Lines 647-687, the loop of [main]; [fuel] bounds its passes and those
    of each [modifyConfig] it calls.  The result tells whether [os.Exit]
    was reached, and the session then.  [exportToExcel], [showDatabaseStats]
    and [showHelp] neither read the input nor change the configuration; they
    are one message each. *)
Fixpoint mainLoop (fuel : nat) (s : Session) : bool * Session :=
  match fuel with
  | O => (false, s)
  | S fuel' =>
      let (choice, s1) := input (say MainMenu s) in
      if String.eqb choice "1" then mainLoop fuel' (pause (collect s1))
      else if String.eqb choice "2" then
        mainLoop fuel' (pause (say (Exporting (globalConfig s1)) s1))
      else if String.eqb choice "3" then mainLoop fuel' (pause (showCurrentConfig s1))
      else if String.eqb choice "4" then
        let (returned, s2) := modifyConfig fuel' s1 in
        if returned then mainLoop fuel' s2 else (false, s2)
      else if String.eqb choice "5" then
        mainLoop fuel' (pause (say (DatabaseStats (OutputDB (globalConfig s1))) s1))
      else if String.eqb choice "6" then mainLoop fuel' (pause (say Help s1))
      else if String.eqb choice "0" then (true, say Goodbye s1)
      else mainLoop fuel' (pause (say InvalidChoice s1))
  end.

(** [main()], on the input and the configuration file it finds. *)
Definition main (fuel : nat) (input : Stdin) (file : ConfigFile) : bool * Session :=
  let (config, err) := loadConfig file in
  mainLoop fuel
    (mkSession config input file 0 0
               [Welcome; match err with Some e => LoadFailed e | None => Loaded end]).

End Menus.

(* ================================================================= *)
(** ** [exportToExcel]

    The database is the table [lemobar_areas] if it has one.  What the
    database, the file system and the driver may refuse is an [Exports]; the
    function gives back its error, what it has made of the file at
    [config.OutputExcel] and what it has printed. *)

Definition Database : Type := option Table.

Record Exports := mkExports {
  openErr : option string;            (* sql.Open *)
  checkErr : option string;           (* the count in sqlite_master *)
  countErr : option string;           (* SELECT COUNT( * ) FROM lemobar_areas *)
  queryErr : option string;           (* db.Query *)
  (** the rows [rows.Next] goes through, in its order, up to where it stops *)
  cursor : Table -> list Row;
  (** whether the k-th [rows.Scan] succeeds *)
  scanOk : nat -> bool;
  absPath : option string;            (* filepath.Abs, None on error *)
  createErr : option string;          (* os.Create *)
  (** what the k-th [file.WriteString] appends to the file, given its argument *)
  written : nat -> string -> string
}.

Inductive ExportMsg : Type :=
| Opening (path : string)
| Found (n : Z)
| Creating (path : string)
| ScanFailed
| ExportDone (path : string)
| ExportCount (n : Z).

Record Exported := mkExported {
  exportErr : option string;
  (** [None]: the file was not touched; [Some s]: it was created anew and
      holds [s] *)
  exportFile : option string;
  exportSaid : list ExportMsg
}.

Definition quote : string := String (ascii_of_nat 34) EmptyString.
Definition newline : string := String (ascii_of_nat 10) EmptyString.

Definition csvHeaders : string :=
  ("area_id,area_name,detail_address,latitude,longitude,total_device_num,free_device_num,wait_duration"
   ++ newline)%string.

Section Sheets.

(** The verb [%.6f], which is [%f]. *)
Variable fmt_f : float -> string.
Variable x : Exports.

(** Line 217: the line of one row. *)
Definition csvLine (r : Row) : string :=
  (Itoa (area_id r) ++ "," ++ quote ++ area_name r ++ quote ++ "," ++
   quote ++ detail_address r ++ quote ++ "," ++
   fmt_f (latitude r) ++ "," ++ fmt_f (longitude r) ++ "," ++
   Itoa (total_device_num r) ++ "," ++ Itoa (free_device_num r) ++ "," ++
   Itoa (wait_duration r) ++ newline)%string.

(** The file, the number of writes made, the count and the messages while
    the rows are gone through. *)
Record Sheet := mkSheet {
  content : string;
  writes_made : nat;
  count : Z;
  said : list ExportMsg
}.

Definition writeString (s : string) (sh : Sheet) : Sheet :=
  mkSheet (content sh ++ written x (writes_made sh) s)%string (S (writes_made sh))
          (count sh) (said sh).

(** Lines 205-221: the rows from the [k]-th on. *)
Fixpoint exportRows (rows : list Row) (k : nat) (sh : Sheet) : Sheet :=
  match rows with
  | [] => sh
  | r :: rest =>
      if scanOk x k then
        let sh1 := writeString (csvLine r) sh in
        exportRows rest (S k)
          (mkSheet (content sh1) (writes_made sh1) (wrap (count sh1 + 1)) (said sh1))
      else
        exportRows rest (S k)
          (mkSheet (content sh) (writes_made sh) (count sh) (said sh ++ [ScanFailed]))
  end.

Definition exportFailed (err : string) (said : list ExportMsg) : Exported :=
  mkExported (Some err) None said.

(** [exportToExcel(config)]. *)
Definition exportToExcel (config : Config) (db : Database) : Exported :=
  let msgs := [Opening (OutputDB config)] in
  match openErr x with
  | Some err => exportFailed ("打开数据库失败: " ++ err)%string msgs
  | None =>
  match checkErr x with
  | Some err => exportFailed ("检查数据库表失败: " ++ err)%string msgs
  | None =>
  match db with
  | None => exportFailed "数据库表不存在，请先采集数据" msgs
  | Some t =>
  match countErr x with
  | Some err => exportFailed ("统计数据数量失败: " ++ err)%string msgs
  | None =>
  let totalCount := Z.of_nat (List.length t) in
  if totalCount =? 0 then exportFailed "数据库中没有数据，请先采集数据" msgs
  else
  let msgs := msgs ++ [Found totalCount] in
  match queryErr x with
  | Some err => exportFailed ("查询数据失败: " ++ err)%string msgs
  | None =>
  let abs := match absPath x with Some p => p | None => OutputExcel config end in
  let msgs := msgs ++ [Creating abs] in
  match createErr x with
  | Some err => exportFailed ("创建Excel文件失败: " ++ err)%string msgs
  | None =>
      let sh := exportRows (cursor x t) 0
                  (writeString csvHeaders (mkSheet "" 0 0 msgs)) in
      mkExported None (Some (content sh))
                 (said sh ++ [ExportDone abs; ExportCount (count sh)])
  end end end end end end.

End Sheets.

(* ================================================================= *)
(** * The vocabulary of the properties *)

(** ** Coordinates, requests and traces *)

(** The coordinate queried at a grid offset (lines 121-122). *)
Definition lngAt (center : Center) (x : Z) : float :=
  PrimFloat.add (Lng center) (PrimFloat.mul (float64 x) step).
Definition latAt (center : Center) (y : Z) : float :=
  PrimFloat.add (Lat center) (PrimFloat.mul (float64 y) step).

(** The request made at a grid offset. *)
Definition requestAt (fmt_f : float -> string) (center : Center) (config : Config)
    (p : Point) : Request :=
  newRequest fmt_f (latAt center (snd p)) (lngAt center (fst p)) config.

(** The requests of a trace, and its log lines, in order. *)
Definition requestsOf (tr : list Event) : list Request :=
  flat_map (fun e => match e with EvDo r => [r] | _ => [] end) tr.

Definition logLines (tr : list Event) : list LogLine :=
  flat_map (fun e => match e with EvLog l => [l] | _ => [] end) tr.

(** An event without the outcome of its write. *)
Definition forgetOk (e : Event) : Event :=
  match e with
  | EvExec row _ => EvExec row true
  | _ => e
  end.

(** ** Worlds up to clock readings *)

(** Two worlds that differ only in how often the clock was read. *)
Record sameEffects (w1 w2 : World) : Prop := mkSame {
  same_calls : calls w1 = calls w2;
  same_execs : execs w1 = execs w2;
  same_db : db w1 = db w2;
  same_trace : effects (trace w1) = effects (trace w2)
}.

(** [w'] is [w] after the points [ps] have been visited in order, clock
    readings apart, with or without the closing log line. *)
Definition Visited (ParseFloat : string -> option float) (fmt_f : float -> string)
    (env : Env) (center : Center) (config : Config)
    (ps : list Point) (w w' : World) : Prop :=
  sameEffects w' (visitAll ParseFloat fmt_f env center config ps 0 w) \/
  exists t,
    sameEffects w'
      (emit (EvLog (LogDone (Name center) (Z.of_nat (List.length ps)) t))
            (visitAll ParseFloat fmt_f env center config ps 0 w)).

(** ** Steps and paced traces *)

Section Vocabulary.

Variable ParseFloat : string -> option float.
Variable fmt_f : float -> string.
Variable env : Env.
Variable center : Center.
Variable config : Config.

(** The clock never reaches the duration budget. *)
Definition neverExpires : Prop := forall k, since env k < Duration config.

(** Every call of the remote API fails. *)
Definition allFail : Prop :=
  forall k req, exists err, readResponse ParseFloat (roundTrip env k req) = Err err.

(** The events of a step whose fetch failed. *)
Definition failedStep (req : Request) (k : Z) (lat lng : float) (err : string) : list Event :=
  [EvDo req; EvLog (LogError (Name center) k lat lng err); EvSleep (Interval config)].

(** Some step whose fetch failed. *)
Definition isFailedStep (evs : list Event) : Prop :=
  exists req k lat lng err, evs = failedStep req k lat lng err.

(** The writes of one step: one [Exec] per record, in order, the first
    being [Exec] number [e]. *)
Fixpoint writes (e : nat) (areas : list Area) : list Event :=
  match areas with
  | [] => []
  | a :: rest => EvExec (rowOf a) (execOk env e) :: writes (S e) rest
  end.

(** The events of the step at offset [(x, y)] that is point number [k] of
    the scan, when [c] calls and [e] writes have been made before it: the
    fetch, the writes of what it returned, the log line, the pacing delay. *)
Definition stepEvents (x y k : Z) (c e : nat) : list Event :=
  let req := newRequest fmt_f (latAt center y) (lngAt center x) config in
  EvDo req ::
  match readResponse ParseFloat (roundTrip env c req) with
  | Ok areas =>
      writes e areas ++
      [EvLog (LogPoint (Name center) k (latAt center y) (lngAt center x)
                       (Z.of_nat (List.length areas)))]
  | Err err => [EvLog (LogError (Name center) k (latAt center y) (lngAt center x) err)]
  end ++ [EvSleep (Interval config)].

(** A whole step, of a point whose number is within the count budget. *)
Definition isStep (evs : list Event) : Prop :=
  exists x y k c e, k < MaxBlocks config /\ evs = stepEvents x y k c e.

(** A clock reading below the duration budget. *)
Definition passed (e : Event) : Prop :=
  exists t, e = EvSince t /\ t < Duration config.

(** A step with the budget tests that let it start: the reading right
    before the fetch is below [Duration], and so is any reading before it. *)
Definition isBlock (evs : list Event) : Prop :=
  exists checks t step,
    evs = checks ++ EvSince t :: step /\
    Forall passed checks /\ t < Duration config /\ isStep step.

(** What may follow the last step: clock readings and one closing line. *)
Definition isClosing (e : Event) : Prop :=
  match e with
  | EvSince _ => True
  | EvLog (LogDone _ _ _) => True
  | EvLog (LogPrepareFailed _) => True
  | _ => False
  end.

(** A trace made of whole steps, each started by a passed test, and a tail
    without any step. *)
Definition Paced (evs : list Event) : Prop :=
  exists blocks tail,
    evs = List.concat blocks ++ tail /\
    Forall isBlock blocks /\ Forall isClosing tail.

End Vocabulary.

(** ** The table and the response bodies *)

(** The PRIMARY KEY constraint: no two rows share an [area_id]. *)
Definition keyed (t : Table) : Prop := NoDup (ids t).

(** A record with an unquoted number under [latitude] or [longitude]. *)
Definition bareCoordinate (rec : json) : Prop :=
  exists fs k lit,
    rec = JObject fs /\ In (k, JNumber lit) fs /\
    (fieldIs "latitude" k = true \/ fieldIs "longitude" k = true).

(** A response whose [data.records] holds such a record. *)
Definition hasBareCoordinate (v : json) : Prop :=
  exists ms kd ds kr rs rec,
    v = JObject ms /\
    In (kd, JObject ds) ms /\ fieldIs "data" kd = true /\
    In (kr, JArray rs) ds /\ fieldIs "records" kr = true /\
    In rec rs /\ bareCoordinate rec.

(** The code the decoder stores when only the top-level [code] member is
    looked at. *)
Definition decodedCode (v : json) : Z :=
  match decodeStruct
          (fun key val c => if fieldIs "code" key then decodeInt val c else Some c) v 0
  with
  | Some c => c
  | None => 0
  end.

(** ** Invariants of the proofs *)

(** The cursor at the head of the outer loop: on the diagonal, at the
    south-west corner heading east when [dist] is odd, at the north-east
    corner heading west when it is even. *)
Definition RingStart (c : Cursor) : Prop :=
  c_y c = c_x c /\
  ((c_dirIdx c = 0 /\ c_x c <= 0 /\ c_dist c = 1 - 2 * c_x c) \/
   (c_dirIdx c = 2 /\ 1 <= c_x c /\ c_dist c = 2 * c_x c)).

(** The rectangle the earlier passes have covered. *)
Definition Box (c : Cursor) (p : Point) : Prop :=
  if c_dirIdx c =? 0
  then c_x c <= fst p <= - c_x c /\ c_y c + 1 <= snd p <= - c_y c
  else 1 - c_x c <= fst p <= c_x c /\ 1 - c_y c <= snd p <= c_y c - 1.

(** The cursor part of the worker's local variables. *)
Definition cursorOf (st : Scan) : Cursor :=
  mkCursor (s_x st) (s_y st) (s_dirIdx st) (s_dist st).

Definition Prefix {A : Type} (ps l : list A) : Prop := exists rest, l = ps ++ rest.

Section Invariants.

Variable ParseFloat : string -> option float.
Variable fmt_f : float -> string.
Variable env : Env.
Variable center : Center.
Variable config : Config.

Local Abbreviation visitAll' := (visitAll ParseFloat fmt_f env center config).
Local Abbreviation isBlock' := (isBlock ParseFloat fmt_f env center config).
Local Abbreviation Paced' := (Paced ParseFloat fmt_f env center config).

(** [st'] is [st] after the points [ps] have been visited in order. *)
Definition Followed (ps : list Point) (st st' : Scan) : Prop :=
  s_scanned st' = s_scanned st + Z.of_nat (List.length ps) /\
  s_scanned st' <= Z.max (s_scanned st) (MaxBlocks config) /\
  sameEffects (world st') (visitAll' ps (s_scanned st) (world st)).

(** [w'] is the world of [st] after the points [ps] have been visited,
    with or without the closing log line. *)
Definition Finish (ps : list Point) (st : Scan) (w' : World) : Prop :=
  s_scanned st + Z.of_nat (List.length ps) <= Z.max (s_scanned st) (MaxBlocks config) /\
  (neverExpires env config -> MaxBlocks config <= s_scanned st + Z.of_nat (List.length ps)) /\
  (sameEffects w' (visitAll' ps (s_scanned st) (world st)) \/
   exists t,
     sameEffects w'
       (emit (EvLog (LogDone (Name center) (s_scanned st + Z.of_nat (List.length ps)) t))
             (visitAll' ps (s_scanned st) (world st)))).

(** The state after one more clock reading. *)
Definition ticked (st : Scan) : Scan := withWorld st (snd (timeSince env (world st))).
Definition reading (st : Scan) : Z := since env (reads (world st)).

(** The trace so far: whole blocks, then tests that passed. *)
Definition Open (w0 : World) (st : Scan) : Prop :=
  exists blocks c,
    trace (world st) = trace w0 ++ List.concat blocks ++ c /\
    Forall isBlock' blocks /\ Forall (passed config) c.

(** The same, right after a test that passed. *)
Definition Ready (w0 : World) (st : Scan) : Prop :=
  exists blocks c t,
    trace (world st) = trace w0 ++ List.concat blocks ++ c ++ [EvSince t] /\
    Forall isBlock' blocks /\ Forall (passed config) c /\ t < Duration config /\
    s_scanned st < MaxBlocks config.

(** What the worker appended to the trace of [w0] is paced. *)
Definition Done (w0 w' : World) : Prop :=
  exists evs, trace w' = trace w0 ++ evs /\ Paced' evs.

End Invariants.

(** Two worlds that differ at most in the table and in which writes failed. *)
Definition alike (w1 w2 : World) : Prop :=
  reads w1 = reads w2 /\ calls w1 = calls w2 /\ execs w1 = execs w2 /\
  map forgetOk (trace w1) = map forgetOk (trace w2).

(** The same for the states of two workers, and for how they leave a loop. *)
Definition alikeScan (st1 st2 : Scan) : Prop :=
  s_x st1 = s_x st2 /\ s_y st1 = s_y st2 /\ s_dirIdx st1 = s_dirIdx st2 /\
  s_dist st1 = s_dist st2 /\ s_scanned st1 = s_scanned st2 /\
  alike (world st1) (world st2).

Definition alikeFlow (f1 f2 : Flow) : Prop :=
  match f1, f2 with
  | Next a, Next b => alikeScan a b
  | Return a, Return b => alikeScan a b
  | Panic, Panic => True
  | _, _ => False
  end.

Definition alikeOutcome (o1 o2 : Outcome) : Prop :=
  match o1, o2 with
  | Finished a, Finished b => alike a b
  | Panicked, Panicked => True
  | OutOfFuel, OutOfFuel => True
  | _, _ => False
  end.

(** ** Sample inputs for the instances *)

(** Stand-ins for [strconv.ParseFloat] and the verb [%f], defined on the
    values the instances use. *)
#[local] Set Warnings "-inexact-float".
Definition sampleParse (s : string) : option float :=
  if String.eqb s "31.2304" then Some 31.2304%float
  else if String.eqb s "121.4737" then Some 121.4737%float
  else None.
#[local] Set Warnings "+inexact-float".

Definition sampleFmt (f : float) : string :=
  if PrimFloat.eqb f 0 then "0.000000"
  else if PrimFloat.eqb f step then "0.030000"
  else "?".

(** The default configuration of [loadConfig] with a credential, and a
    budget of [n] points. *)
Definition sampleConfig (n : Z) : Config :=
  mkConfig "token" 200000000 1800000000000 false n "lemobar_scan.db" "lemobar_export.csv".

Definition origin : Center := mkCenter "origin" 0 0.

Definition emptyWorld : World := mkWorld 0 0 0 [] [].

(** An environment whose clock advances one millisecond per reading and
    whose every call is answered by [resp]. *)
Definition sampleEnv (resp : RoundTrip) (writesOk : bool) : Env :=
  mkEnv (fun k => Z.of_nat k * 1000000) (fun _ _ => resp) true (fun _ => writesOk).

(** A clock that stands still. *)
Definition stillEnv (resp : RoundTrip) : Env :=
  mkEnv (fun _ => 0) (fun _ _ => resp) true (fun _ => true).

Definition oneRecord : json :=
  JObject [("id", JNumber "1"); ("areaName", JString "A");
           ("longitude", JString "121.4737"); ("latitude", JString "31.2304");
           ("detailAddress", JString "B"); ("totalDeviceNum", JNumber "4");
           ("freeDeviceNum", JNumber "2"); ("waitDuration", JNumber "0")].

(** What [oneRecord] decodes to. *)
#[local] Set Warnings "-inexact-float".
Definition sampleArea : Area :=
  mkArea 1 "A" 121.4737%float 31.2304%float "B" 4 2 0.
#[local] Set Warnings "+inexact-float".

Definition bodyWith (code : string) (records : list json) : json :=
  JObject [("code", JNumber code); ("data", JObject [("records", JArray records)])].

(** A well-formed response with code 200 and one record whose latitude is an
    unquoted number. *)
Definition bareLatitudeBody : json :=
  bodyWith "200"
    [JObject [("id", JNumber "1"); ("areaName", JString "A");
              ("longitude", JString "121.4737"); ("latitude", JNumber "31.2304");
              ("detailAddress", JString "B"); ("totalDeviceNum", JNumber "4");
              ("freeDeviceNum", JNumber "2"); ("waitDuration", JNumber "0")]].

(** ** Configurations, sessions and exports *)

(** The settings a scan cannot do without are there: a count budget that is
    positive and an [int], and the two paths. *)
Definition Sane (c : Config) : Prop :=
  0 < MaxBlocks c <= maxInt /\ OutputDB c <> "" /\ OutputExcel c <> "".

(** The same with the pacing delay and the time budget positive. *)
Definition Usable (c : Config) : Prop :=
  0 < Interval c <= maxInt /\ 0 < Duration c <= maxInt /\ Sane c.

(** The strings of a configuration are valid UTF-8. *)
Definition validStrings (c : Config) : Prop :=
  validUTF8 (Authorization c) /\ validUTF8 (OutputDB c) /\ validUTF8 (OutputExcel c).

(** The integers of a configuration are in range. *)
Definition intsOk (c : Config) : Prop :=
  isInt (Interval c) /\ isInt (Duration c) /\ isInt (MaxBlocks c).

(** A configuration as it comes back from its file. *)
Definition stored (c : Config) : Config :=
  mkConfig (throughJSON 0 (Authorization c)) (Interval c) (Duration c) (Export c)
           (MaxBlocks c) (throughJSON 0 (OutputDB c)) (throughJSON 0 (OutputExcel c)).

(** A value that no integer field takes: neither [null] nor the literal of
    an integer in range. *)
Definition notAnInt (v : json) : Prop := decodeInt v 0 = None.

(** The workers launched by what a session has printed. *)
Definition launchedIn (out : list Msg) : list Center :=
  flat_map (fun m => match m with Collection acts => launched acts | _ => [] end) out.

(** The file holds what [saveConfig] writes for the configuration in memory. *)
Definition inSync (s : Session) : Prop :=
  configFile s = FileWith (Some (MarshalIndent (globalConfig s))).

(** What [modifyConfig] cannot undo: a credential that is set, and the
    settings a scan cannot do without. *)
Definition keeps (c c' : Config) : Prop :=
  (Authorization c <> "" -> Authorization c' <> "") /\ (Sane c -> Sane c').

(** The session differs from [s0] in its input and its messages at most. *)
Definition untouched (s0 s : Session) : Prop :=
  globalConfig s = globalConfig s0 /\ configFile s = configFile s0 /\
  saves s = saves s0.

(** One pass of the menu of [modifyConfig] at the end of the input. *)
Definition idlePass : list Msg := [ConfigMenu; InvalidChoice; PressEnter].

(** The scans of an export that succeed, among the first [n]. *)
Definition goodScans (x : Exports) (n : nat) : list nat :=
  filter (scanOk x) (seq 0 n).

(** No fault before the rows are gone through. *)
Definition opensWell (x : Exports) : Prop :=
  openErr x = None /\ checkErr x = None /\ countErr x = None /\
  queryErr x = None /\ createErr x = None.

(** ** What a worker does to the table *)

(** A row made of a record that some call of the API returned. *)
Definition fetched (ParseFloat : string -> option float) (env : Env) (r : Row) : Prop :=
  exists k req areas a,
    readResponse ParseFloat (roundTrip env k req) = Ok areas /\ In a areas /\ r = rowOf a.

(** The table has only grown: the rows it had are still its first rows, no
    key is there twice if none was, and what came after was fetched. *)
Definition grown (ParseFloat : string -> option float) (env : Env) (t t' : Table) : Prop :=
  exists extra,
    t' = t ++ extra /\ (keyed t -> keyed t') /\
    Forall (fetched ParseFloat env) extra.

(** ** Pacing and the closing line *)

(** An event that is neither a request nor a pause. *)
Definition quiet (e : Event) : Prop :=
  match e with
  | EvDo _ | EvSleep _ => False
  | _ => True
  end.


(** Every request is followed by a pause of [d] before the next request and
    before the end; [owed] tells that a pause is still due. *)
Fixpoint throttled (d : Z) (owed : bool) (evs : list Event) : bool :=
  match evs with
  | [] => negb owed
  | EvDo _ :: rest => negb owed && throttled d true rest
  | EvSleep d' :: rest => owed && (d' =? d) && throttled d false rest
  | _ :: rest => throttled d owed rest
  end.

Definition isDone (l : LogLine) : bool :=
  match l with LogDone _ _ _ => true | _ => false end.

(** The closing lines of a trace. *)
Definition closings (tr : list Event) : list LogLine :=
  filter isDone (logLines tr).

(** The numbers of points of whole rings: 0, 2, 6, 12, 20, ... *)
Definition pronic (n : Z) : Prop := exists k, 0 <= k /\ n = k * (k + 1).

(** ** Sample inputs for the menus and the export *)

(** An operating system that refuses nothing. *)
Definition goodOs : Os := mkOs (fun _ => None) (fun _ => true).

(** A session that starts with configuration [c] and input [lines]. *)
Definition sessionOf (c : Config) (lines : Stdin) : Session :=
  mkSession c lines NoFile 0 0 [].

(** A stand-in for [time.ParseDuration], defined on what the instances type. *)
Definition sampleDuration (s : string) : option Z :=
  if String.eqb s "-1s" then Some (-1000000000)
  else if String.eqb s "1s" then Some 1000000000
  else None.

(** A database, a file system and a driver that refuse nothing, the rows
    coming in the table's order. *)
Definition goodExports : Exports :=
  mkExports None None None None (fun t => t) (fun _ => true) None None (fun _ s => s).

(** The same when no write reaches the file and the second scan fails. *)
Definition badExports : Exports :=
  mkExports None None None None (fun t => t) (fun k => negb (Nat.eqb k 1)) None None
            (fun _ _ => "").

Definition sampleTable : Table :=
  [ mkRow 7 "A" "B" 0 0 4 2 0; mkRow 9 "C" "D" 0 0 1 1 5 ].

(** A configuration file with a credential and a quoted count budget. *)
Definition quotedBudget : list (string * json) :=
  [ ("authorization", JString "token"); ("maxBlocks", JString "5000") ].

(* ================================================================= *)
(** * Properties *)

(** ** Integers *)

Lemma wrap_small (z : Z) : isInt z -> wrap z = z.
Proof.
  unfold isInt, wrap, minInt, maxInt. intros H.
  rewrite Z.mod_small; lia.
Qed.

Lemma wrap_isInt (z : Z) : isInt (wrap z).
Proof.
  unfold isInt, wrap, minInt, maxInt.
  pose proof (Z.mod_pos_bound (z + 2 ^ 63) (2 ^ 64)). lia.
Qed.

(** ** The spiral path *)

Lemma legPath_length (n : nat) : forall c, List.length (fst (legPath n c)) = n.
Proof.
  induction n as [|n IH]; intros c; simpl; [reflexivity|].
  now rewrite IH.
Qed.

Lemma legPath_end (n : nat) : forall c,
  snd (legPath n c) =
  mkCursor (c_x c + Z.of_nat n * dx (dirOf (c_dirIdx c)))
           (c_y c + Z.of_nat n * dy (dirOf (c_dirIdx c)))
           (c_dirIdx c) (c_dist c).
Proof.
  induction n as [|n IH]; intros [x y i d].
  - simpl. f_equal; lia.
  - cbn [legPath snd]. rewrite IH. cbn [c_x c_y c_dirIdx c_dist].
    rewrite Nat2Z.inj_succ. f_equal; lia.
Qed.

Lemma legPath_In (n : nat) : forall c p,
  In p (fst (legPath n c)) <->
  exists t, 0 <= t < Z.of_nat n /\
            p = (c_x c + t * dx (dirOf (c_dirIdx c)),
                 c_y c + t * dy (dirOf (c_dirIdx c))).
Proof.
  induction n as [|n IH]; intros [x y i d] p.
  - simpl. split; [tauto | intros (t & Ht & _); lia].
  - cbn [legPath fst In]. rewrite IH. cbn [c_x c_y c_dirIdx c_dist].
    rewrite Nat2Z.inj_succ. split.
    + intros [E | (t & Ht & E)].
      * exists 0. split; [lia|]. subst p. f_equal; lia.
      * exists (t + 1). split; [lia|]. subst p. f_equal; lia.
    + intros (t & Ht & E).
      destruct (Z.eq_dec t 0) as [-> | Hne].
      * left. subst p. f_equal; lia.
      * right. exists (t - 1). split; [lia|]. subst p. f_equal; lia.
Qed.

Lemma legPath_NoDup (n : nat) : forall c,
  dx (dirOf (c_dirIdx c)) <> 0 \/ dy (dirOf (c_dirIdx c)) <> 0 ->
  NoDup (fst (legPath n c)).
Proof.
  induction n as [|n IH]; intros [x y i d] Hd; cbn [legPath fst].
  - constructor.
  - constructor.
    + rewrite legPath_In. cbn [c_x c_y c_dirIdx c_dist] in *.
      intros (t & Ht & E). injection E as Ex Ey.
      destruct Hd as [Hd | Hd]; nia.
    + apply IH. exact Hd.
Qed.

Lemma start_RingStart : RingStart start.
Proof. unfold RingStart, start; simpl. lia. Qed.

Lemma dirPath_two (c : Cursor) :
  let l1 := legPath (Z.to_nat (c_dist c)) c in
  let l2 := legPath (Z.to_nat (c_dist (turnC (snd l1)))) (turnC (snd l1)) in
  dirPath 2 c = (fst l1 ++ fst l2, turnC (snd l2)).
Proof. cbn [dirPath]. rewrite app_nil_r. reflexivity. Qed.

Lemma ring_length (c : Cursor) :
  List.length (fst (dirPath 2 c)) = (2 * Z.to_nat (c_dist c))%nat.
Proof.
  rewrite dirPath_two. cbn [fst].
  rewrite length_app, !legPath_length, legPath_end. simpl. lia.
Qed.

Lemma dirOf_0 : dirOf 0 = mkDir 1 0. Proof. reflexivity. Qed.
Lemma dirOf_1 : dirOf 1 = mkDir 0 1. Proof. reflexivity. Qed.
Lemma dirOf_2 : dirOf 2 = mkDir (-1) 0. Proof. reflexivity. Qed.
Lemma dirOf_3 : dirOf 3 = mkDir 0 (-1). Proof. reflexivity. Qed.

Ltac cursor_simpl :=
  repeat (cbn [turnC widenC c_x c_y c_dirIdx c_dist dx dy fst snd] in *;
          change (Z.rem (0 + 1) 4) with 1 in *;
          change (Z.rem (1 + 1) 4) with 2 in *;
          change (Z.rem (2 + 1) 4) with 3 in *;
          change (Z.rem (3 + 1) 4) with 0 in *;
          rewrite ?dirOf_0, ?dirOf_1, ?dirOf_2, ?dirOf_3 in * ).

Lemma ring_facts (c : Cursor) :
  RingStart c ->
  let r := dirPath 2 c in
  RingStart (widenC (snd r)) /\
  NoDup (fst r) /\
  (forall p, In p (fst r) -> ~ Box c p /\ Box (widenC (snd r)) p) /\
  (forall p, Box c p -> Box (widenC (snd r)) p).
Proof.
  destruct c as [x y i d]. unfold RingStart. cbn [c_x c_y c_dirIdx c_dist].
  intros [Hy [(Hi & Hx & Hd) | (Hi & Hx & Hd)]]; subst y i d;
    rewrite dirPath_two; cbn zeta; cbn [fst snd];
    rewrite !legPath_end; cursor_simpl; unfold Box, RingStart; cursor_simpl;
    cbn [Z.eqb].
  all: split; [lia|].
  all: split;
    [ apply NoDup_app; [ | | intros p H1 H2; apply legPath_In in H1; apply legPath_In in H2;
         cursor_simpl;
         destruct H1 as (t1 & Ht1 & E1); destruct H2 as (t2 & Ht2 & E2);
         rewrite E1 in E2; apply pair_equal_spec in E2; lia ];
      apply legPath_NoDup; cursor_simpl; lia |].
  all: split;
    [ intros p H; apply in_app_or in H; destruct H as [H | H]; apply legPath_In in H;
       cursor_simpl;
       destruct H as (t & Ht & E); subst p; cbn [fst snd]; lia
    | intros [a b]; cbn [fst snd]; lia ].
Qed.

Lemma spiralRings_fresh (k : nat) : forall c,
  RingStart c ->
  NoDup (spiralRings k c) /\ (forall p, In p (spiralRings k c) -> ~ Box c p).
Proof.
  induction k as [|k IH]; intros c Hc; cbn [spiralRings].
  - split; [constructor | intros p []].
  - destruct (ring_facts c Hc) as (Hnext & Hnd & Hring & Hbox).
    destruct (IH _ Hnext) as [Hrest Hout]. split.
    + apply NoDup_app; [exact Hnd | exact Hrest |].
      intros p Hp Hq. apply (Hout p Hq). now apply Hring.
    + intros p Hp. apply in_app_or in Hp. destruct Hp as [Hp | Hp].
      * now apply Hring.
      * intros Hb. apply (Hout p Hp). now apply Hbox.
Qed.

Lemma RingStart_dist (c : Cursor) : RingStart c -> 1 <= c_dist c.
Proof. unfold RingStart. lia. Qed.

Lemma spiralRings_length (k : nat) : forall c,
  RingStart c -> (k <= List.length (spiralRings k c))%nat.
Proof.
  induction k as [|k IH]; intros c Hc; cbn [spiralRings]; [lia|].
  destruct (ring_facts c Hc) as (Hnext & _).
  specialize (IH _ Hnext). pose proof (RingStart_dist c Hc).
  rewrite length_app, ring_length. lia.
Qed.

Lemma spiralRings_step (k : nat) : forall c n,
  RingStart c -> (n <= k)%nat ->
  firstn n (spiralRings (S k) c) = firstn n (spiralRings k c).
Proof.
  induction k as [|k IH]; intros c n Hc Hn.
  - replace n with 0%nat by lia. reflexivity.
  - change (spiralRings (S (S k)) c)
      with (fst (dirPath 2 c) ++ spiralRings (S k) (widenC (snd (dirPath 2 c)))).
    change (spiralRings (S k) c)
      with (fst (dirPath 2 c) ++ spiralRings k (widenC (snd (dirPath 2 c)))).
    rewrite !firstn_app. f_equal.
    destruct (ring_facts c Hc) as (Hnext & _).
    apply IH; [exact Hnext|].
    pose proof (RingStart_dist c Hc). rewrite ring_length. lia.
Qed.

Lemma spiralRings_prefix (k k' n : nat) (c : Cursor) :
  RingStart c -> (n <= k)%nat -> (k <= k')%nat ->
  firstn n (spiralRings k' c) = firstn n (spiralRings k c).
Proof.
  intros Hc Hn Hk. induction Hk as [|k' Hk IH]; [reflexivity|].
  rewrite spiralRings_step; [exact IH | exact Hc | lia].
Qed.

Lemma NoDup_firstn {A : Type} (n : nat) (l : list A) :
  NoDup l -> NoDup (firstn n l).
Proof.
  intros H. rewrite <- (firstn_skipn n l) in H.
  now apply NoDup_app_remove_r in H.
Qed.

Lemma spiralPath_length (n : nat) : List.length (spiralPath n) = n.
Proof.
  unfold spiralPath. rewrite length_firstn.
  pose proof (spiralRings_length n start start_RingStart). lia.
Qed.

Lemma spiralPath_NoDup (n : nat) : NoDup (spiralPath n).
Proof.
  apply NoDup_firstn. apply spiralRings_fresh. exact start_RingStart.
Qed.

Lemma spiralPath_prefix (n m : nat) :
  (n <= m)%nat -> spiralPath n = firstn n (spiralPath m).
Proof.
  intros H. unfold spiralPath. rewrite firstn_firstn.
  replace (Nat.min n m) with n by lia.
  symmetry. apply spiralRings_prefix; [exact start_RingStart | lia | exact H].
Qed.

Lemma spiralPath_12 :
  spiralPath 12 =
  [(0, 0); (1, 0); (1, 1); (0, 1); (-1, 1); (-1, 0); (-1, -1); (0, -1);
   (1, -1); (2, -1); (2, 0); (2, 1)].
Proof. reflexivity. Qed.

(** ** Worlds up to clock readings *)

Lemma sameEffects_refl (w : World) : sameEffects w w.
Proof. now constructor. Qed.

Lemma sameEffects_sym (w1 w2 : World) : sameEffects w1 w2 -> sameEffects w2 w1.
Proof. intros []; now constructor. Qed.

Lemma sameEffects_trans (w1 w2 w3 : World) :
  sameEffects w1 w2 -> sameEffects w2 w3 -> sameEffects w1 w3.
Proof. intros [] []; constructor; congruence. Qed.

Lemma effects_snoc (tr : list Event) (e : Event) :
  effects (tr ++ [e]) = effects tr ++ (if isSince e then [] else [e]).
Proof. unfold effects. rewrite filter_app. cbn. now destruct (isSince e). Qed.

Ltac world_simpl :=
  unfold emit, timeSince, execInsert, clientDo;
  cbn [calls execs db trace reads fst snd].

Lemma emit_same (e : Event) (w1 w2 : World) :
  sameEffects w1 w2 -> sameEffects (emit e w1) (emit e w2).
Proof.
  intros []. constructor; world_simpl; try assumption.
  rewrite !effects_snoc. congruence.
Qed.

Section Follow.

Variable ParseFloat : string -> option float.
Variable fmt_f : float -> string.
Variable env : Env.
Variable center : Center.
Variable config : Config.

Local Abbreviation timeSince' := (timeSince env).
Local Abbreviation fetchAreas' := (fetchAreas ParseFloat fmt_f env).
Local Abbreviation execInsert' := (execInsert env).
Local Abbreviation visit' := (visit ParseFloat fmt_f env center config).
Local Abbreviation visitAll' := (visitAll ParseFloat fmt_f env center config).

Lemma timeSince_same (w : World) : sameEffects (snd (timeSince' w)) w.
Proof.
  constructor; world_simpl; try reflexivity.
  rewrite effects_snoc. cbn [isSince]. apply app_nil_r.
Qed.

Lemma execInsert_same (a : Area) (w1 w2 : World) :
  sameEffects w1 w2 -> sameEffects (execInsert' w1 a) (execInsert' w2 a).
Proof.
  intros [Hc He Hd Ht]. constructor; world_simpl; rewrite ?He, ?Hd; try congruence.
  rewrite !effects_snoc. congruence.
Qed.

Lemma execAll_same (areas : list Area) : forall w1 w2,
  sameEffects w1 w2 ->
  sameEffects (fold_left execInsert' areas w1) (fold_left execInsert' areas w2).
Proof.
  induction areas as [|a l IH]; intros w1 w2 H; cbn [fold_left]; [exact H|].
  apply IH. now apply execInsert_same.
Qed.

Lemma fetchAreas_same (lat lng : float) (w1 w2 : World) :
  sameEffects w1 w2 ->
  fst (fetchAreas' lat lng config w1) = fst (fetchAreas' lat lng config w2) /\
  sameEffects (snd (fetchAreas' lat lng config w1)) (snd (fetchAreas' lat lng config w2)).
Proof.
  intros [Hc He Hd Ht]. unfold fetchAreas, clientDo. cbn [fst snd]. rewrite Hc.
  split; [reflexivity|].
  constructor; world_simpl; try congruence. rewrite !effects_snoc. congruence.
Qed.

Lemma visit_same (x y k : Z) (w1 w2 : World) :
  sameEffects w1 w2 -> sameEffects (visit' x y k w1) (visit' x y k w2).
Proof.
  intros H. unfold visit.
  set (lng := PrimFloat.add (Lng center) _). set (lat := PrimFloat.add (Lat center) _).
  destruct (fetchAreas_same lat lng w1 w2 H) as [E S].
  destruct (fetchAreas' lat lng config w1) as [r1 v1].
  destruct (fetchAreas' lat lng config w2) as [r2 v2].
  cbn [fst snd] in E, S. subst r2.
  apply emit_same. destruct r1 as [areas | err]; apply emit_same.
  - now apply execAll_same.
  - exact S.
Qed.

Lemma visitAll_same (ps : list Point) : forall k w1 w2,
  sameEffects w1 w2 -> sameEffects (visitAll' ps k w1) (visitAll' ps k w2).
Proof.
  induction ps as [|p ps IH]; intros k w1 w2 H; cbn [visitAll]; [exact H|].
  apply IH. now apply visit_same.
Qed.

Lemma visitAll_app (ps qs : list Point) : forall k w,
  visitAll' (ps ++ qs) k w = visitAll' qs (k + Z.of_nat (List.length ps)) (visitAll' ps k w).
Proof.
  induction ps as [|p ps IH]; intros k w.
  - cbn [app visitAll List.length]. f_equal. lia.
  - cbn [app visitAll List.length]. rewrite IH. f_equal. lia.
Qed.

End Follow.

(** ** The worker follows the spiral path *)

Lemma Prefix_nil {A : Type} (l : list A) : Prefix [] l.
Proof. now exists l. Qed.

Lemma Prefix_refl {A : Type} (l : list A) : Prefix l l.
Proof. exists []. now rewrite app_nil_r. Qed.

Lemma Prefix_cons {A : Type} (a : A) (ps l : list A) :
  Prefix ps l -> Prefix (a :: ps) (a :: l).
Proof. intros [r ->]. now exists r. Qed.

Lemma Prefix_app_l {A : Type} (ps l l' : list A) :
  Prefix ps l -> Prefix ps (l ++ l').
Proof. intros [r ->]. exists (r ++ l'). now rewrite app_assoc. Qed.

Lemma Prefix_app_r {A : Type} (ps l l' : list A) :
  Prefix ps l' -> Prefix (l ++ ps) (l ++ l').
Proof. intros [r ->]. exists r. now rewrite app_assoc. Qed.

Lemma Prefix_firstn {A : Type} (ps l : list A) :
  Prefix ps l -> ps = firstn (List.length ps) l.
Proof.
  intros [r ->]. rewrite firstn_app, Nat.sub_diag, firstn_all. cbn.
  now rewrite app_nil_r.
Qed.

Lemma withWorld_world (st : Scan) : withWorld st (world st) = st.
Proof. now destruct st. Qed.

Lemma dirsAt_dirOf (i : Z) : 0 <= i < 4 -> dirsAt i = Some (dirOf i).
Proof.
  intros H.
  assert (C : i = 0 \/ i = 1 \/ i = 2 \/ i = 3) by lia.
  destruct C as [-> | [-> | [-> | ->]]]; reflexivity.
Qed.

Lemma dirOf_unit (i : Z) : 0 <= i < 4 ->
  Z.abs (dx (dirOf i)) <= 1 /\ Z.abs (dy (dirOf i)) <= 1.
Proof.
  intros H.
  assert (C : i = 0 \/ i = 1 \/ i = 2 \/ i = 3) by lia.
  destruct C as [-> | [-> | [-> | ->]]];
    rewrite ?dirOf_0, ?dirOf_1, ?dirOf_2, ?dirOf_3; cbn [dx dy]; lia.
Qed.

Section Scanning.

Variable ParseFloat : string -> option float.
Variable fmt_f : float -> string.
Variable env : Env.
Variable center : Center.
Variable config : Config.

Hypothesis MaxBlocks_int : isInt (MaxBlocks config).

Local Abbreviation visitAll' := (visitAll ParseFloat fmt_f env center config).
Local Abbreviation legLoop' := (legLoop ParseFloat fmt_f env center config).
Local Abbreviation dirLoop' := (dirLoop ParseFloat fmt_f env center config).
Local Abbreviation scanLoop' := (scanLoop ParseFloat fmt_f env center config).
Local Abbreviation spiralScan' := (spiralScan ParseFloat fmt_f env center config).
Local Abbreviation Followed' := (Followed ParseFloat fmt_f env center config).
Local Abbreviation Finish' := (Finish ParseFloat fmt_f env center config).

Lemma budgetSpent_spec (st : Scan) :
  exists w',
    snd (budgetSpent env config st) = withWorld st w' /\
    sameEffects w' (world st) /\
    (fst (budgetSpent env config st) = false -> s_scanned st < MaxBlocks config) /\
    (fst (budgetSpent env config st) = true -> neverExpires env config ->
     MaxBlocks config <= s_scanned st).
Proof.
  unfold budgetSpent.
  destruct (s_scanned st >=? MaxBlocks config) eqn:E;
    rewrite Z.geb_leb in E.
  - apply Z.leb_le in E.
    exists (world st). cbn [fst snd]. rewrite withWorld_world.
    split; [reflexivity|]. split; [apply sameEffects_refl|].
    split; [discriminate | intros _ _; exact E].
  - apply Z.leb_gt in E.
    exists (snd (timeSince env (world st))).
    split; [reflexivity|]. split; [apply timeSince_same|].
    unfold timeSince; cbn [fst snd].
    split; [intros _; exact E|].
    intros Ht Hn. specialize (Hn (reads (world st))).
    rewrite Z.geb_leb in Ht. apply Z.leb_le in Ht. lia.
Qed.

Lemma withinBudget_spec (st : Scan) :
  exists w',
    snd (withinBudget env config st) = withWorld st w' /\
    sameEffects w' (world st) /\
    (fst (withinBudget env config st) = true -> s_scanned st < MaxBlocks config) /\
    (fst (withinBudget env config st) = false -> neverExpires env config ->
     MaxBlocks config <= s_scanned st).
Proof.
  unfold withinBudget.
  destruct (s_scanned st <? MaxBlocks config) eqn:E.
  - apply Z.ltb_lt in E.
    exists (snd (timeSince env (world st))).
    split; [reflexivity|]. split; [apply timeSince_same|].
    unfold timeSince; cbn [fst snd].
    split; [intros _; exact E|].
    intros Ht Hn. specialize (Hn (reads (world st))).
    apply Z.ltb_ge in Ht. lia.
  - apply Z.ltb_ge in E.
    exists (world st). cbn [fst snd]. rewrite withWorld_world.
    split; [reflexivity|]. split; [apply sameEffects_refl|].
    split; [discriminate | intros _ _; exact E].
Qed.

Lemma Followed_nil (st : Scan) (w : World) :
  sameEffects w (world st) -> Followed' [] st (withWorld st w).
Proof.
  intros H. unfold Followed. cbn. split; [lia|]. split; [lia | exact H].
Qed.

Lemma Followed_app (ps qs : list Point) (st st1 st1' st2 : Scan) :
  Followed' ps st st1 ->
  s_scanned st1' = s_scanned st1 -> world st1' = world st1 ->
  Followed' qs st1' st2 ->
  Followed' (ps ++ qs) st st2.
Proof.
  intros (A1 & A2 & A3) Es Ew (B1 & B2 & B3). unfold Followed.
  rewrite length_app, Nat2Z.inj_add, visitAll_app.
  split; [lia|]. split; [lia|].
  eapply sameEffects_trans; [exact B3|].
  rewrite Es, Ew, A1. now apply visitAll_same.
Qed.

Lemma legLoop_follows (n : nat) : forall st,
  0 <= s_dirIdx st < 4 -> 0 <= s_scanned st ->
  Z.abs (s_x st) + Z.of_nat n <= maxInt ->
  Z.abs (s_y st) + Z.of_nat n <= maxInt ->
  match legLoop' n st with
  | Next st' =>
      cursorOf st' = snd (legPath n (cursorOf st)) /\
      Followed' (fst (legPath n (cursorOf st))) st st'
  | Return st' =>
      exists ps, Prefix ps (fst (legPath n (cursorOf st))) /\
                 Followed' ps st st' /\
                 (neverExpires env config -> MaxBlocks config <= s_scanned st')
  | Panic => False
  end.
Proof.
  induction n as [|n IH]; intros st Hi Hs Hx Hy.
  - cbn [legLoop legPath fst snd]. split; [reflexivity|].
    rewrite <- (withWorld_world st) at 2. apply Followed_nil, sameEffects_refl.
  - cbn [legLoop].
    destruct (budgetSpent_spec st) as (w1 & E1 & S1 & Hgo & Hstop).
    destruct (budgetSpent env config st) as [stop st1]. cbn [fst snd] in *. subst st1.
    destruct stop.
    + exists []. split; [apply Prefix_nil|]. split; [now apply Followed_nil|].
      intros Hn. cbn. now apply Hstop.
    + specialize (Hgo eq_refl). unfold loopBody. cbn [withWorld s_x s_y s_dirIdx s_dist s_scanned world].
      rewrite (dirsAt_dirOf _ Hi).
      pose proof (dirOf_unit _ Hi) as [Hdx Hdy].
      unfold isInt, maxInt, minInt in *.
      rewrite !wrap_small by (unfold isInt, maxInt, minInt; lia).
      set (st2 := mkScan _ _ _ _ _ _).
      specialize (IH st2). cbn [st2 s_x s_y s_dirIdx s_dist s_scanned] in IH.
      unfold maxInt in IH.
      specialize (IH Hi ltac:(lia) ltac:(lia) ltac:(lia)).
      assert (Hvis : Followed' [(s_x st, s_y st)] st st2).
      { unfold Followed. cbn [st2 s_scanned world List.length visitAll fst snd].
        split; [lia|]. split; [lia|]. now apply visit_same. }
      assert (Hcur : cursorOf st2 =
                     mkCursor (c_x (cursorOf st) + dx (dirOf (c_dirIdx (cursorOf st))))
                              (c_y (cursorOf st) + dy (dirOf (c_dirIdx (cursorOf st))))
                              (c_dirIdx (cursorOf st)) (c_dist (cursorOf st))) by reflexivity.
      cbn [legPath fst snd]. rewrite <- Hcur.
      destruct (legLoop' n st2) as [st' | st' |].
      * destruct IH as [Ec F]. split; [exact Ec|].
        change (?p :: ?l) with ([p] ++ l).
        eapply Followed_app; [exact Hvis | reflexivity | reflexivity | exact F].
      * destruct IH as (ps & P & F & Hn).
        exists ((s_x st, s_y st) :: ps). split; [now apply Prefix_cons|]. split; [|exact Hn].
        change (?p :: ?l) with ([p] ++ l).
        eapply Followed_app; [exact Hvis | reflexivity | reflexivity | exact F].
      * exact IH.
Qed.

Lemma turn_cursor (st : Scan) :
  0 <= s_dirIdx st < 4 -> cursorOf (turn st) = turnC (cursorOf st).
Proof.
  intros H. unfold turn, turnC, cursorOf.
  cbn [s_x s_y s_dirIdx s_dist c_x c_y c_dirIdx c_dist].
  rewrite wrap_small by (unfold isInt, minInt, maxInt; lia). reflexivity.
Qed.

Lemma cursorOf_fields (st : Scan) (c : Cursor) :
  cursorOf st = c ->
  s_x st = c_x c /\ s_y st = c_y c /\ s_dirIdx st = c_dirIdx c /\ s_dist st = c_dist c.
Proof. intros <-. now cbn. Qed.

Lemma dirLoop_follows (st : Scan) :
  RingStart (cursorOf st) -> 0 <= s_scanned st -> 3 * s_dist st <= maxInt + 3 ->
  match dirLoop' 2 st with
  | Next st' =>
      cursorOf st' = snd (dirPath 2 (cursorOf st)) /\
      Followed' (fst (dirPath 2 (cursorOf st))) st st'
  | Return st' =>
      exists ps, Prefix ps (fst (dirPath 2 (cursorOf st))) /\
                 Followed' ps st st' /\
                 (neverExpires env config -> MaxBlocks config <= s_scanned st')
  | Panic => False
  end.
Proof.
  intros HR Hs Hd.
  rewrite dirPath_two. cbn zeta. cbn [dirLoop fst snd].
  pose proof (legLoop_follows (Z.to_nat (s_dist st)) st) as L1.
  assert (HR' := HR). unfold RingStart in HR'.
  cbn [cursorOf c_x c_y c_dirIdx c_dist] in HR'.
  unfold maxInt in *.
  specialize (L1 ltac:(lia) Hs ltac:(lia) ltac:(lia)).
  change (c_dist (cursorOf st)) with (s_dist st).
  destruct (legLoop' (Z.to_nat (s_dist st)) st) as [st1 | st1 |]; [| |exact L1].
  - destruct L1 as [Ec1 F1].
    assert (Ec1' := Ec1). rewrite legPath_end in Ec1'.
    apply cursorOf_fields in Ec1'. cbn [cursorOf c_x c_y c_dirIdx c_dist] in Ec1'.
    destruct Ec1' as (Ex1 & Ey1 & Ei1 & Ed1).
    assert (Hi1 : 0 <= s_dirIdx st1 < 4) by lia.
    pose proof (legLoop_follows (Z.to_nat (s_dist (turn st1))) (turn st1)) as L2.
    assert (Hi2 : 0 <= s_dirIdx (turn st1) < 4).
    { pose proof (turn_cursor st1 Hi1) as T. apply cursorOf_fields in T.
      cbn [turnC c_dirIdx cursorOf] in T. destruct T as (_ & _ & T & _).
      rewrite T. pose proof (Z.rem_bound_pos (s_dirIdx st1 + 1) 4). lia. }
    destruct F1 as (F1a & F1b & F1c).
    cbn [turn s_x s_y s_dist s_scanned] in L2.
    assert (Bx : Z.abs (s_x st1) + Z.of_nat (Z.to_nat (s_dist st1)) <= 2 ^ 63 - 1 /\
                 Z.abs (s_y st1) + Z.of_nat (Z.to_nat (s_dist st1)) <= 2 ^ 63 - 1).
    { destruct HR' as [Hy [(Hi & Hx & Hdd) | (Hi & Hx & Hdd)]];
        rewrite Hi in Ex1, Ey1; rewrite ?dirOf_0, ?dirOf_2 in Ex1, Ey1;
        cbn [dx dy] in Ex1, Ey1; lia. }
    specialize (L2 Hi2 ltac:(lia) (proj1 Bx) (proj2 Bx)).
    rewrite <- Ec1, <- (turn_cursor st1 Hi1).
    change (c_dist (cursorOf (turn st1))) with (s_dist st1).
    change (s_dist (turn st1)) with (s_dist st1).
    destruct (legLoop' (Z.to_nat (s_dist st1)) (turn st1)) as [st2 | st2 |]; [| |exact L2].
    + destruct L2 as [Ec2 F2].
      assert (Hi3 : 0 <= s_dirIdx st2 < 4).
      { rewrite legPath_end in Ec2. apply cursorOf_fields in Ec2.
        cbn [c_dirIdx cursorOf] in Ec2. lia. }
      split.
      * rewrite (turn_cursor st2 Hi3). now rewrite Ec2.
      * eapply (Followed_app _ _ st st1 (turn st1) (turn st2));
          [ split; [exact F1a | split; [exact F1b | exact F1c]] | reflexivity | reflexivity | exact F2 ].
    + destruct L2 as (ps & P & F2 & Hn).
      exists (fst (legPath (Z.to_nat (s_dist st)) (cursorOf st)) ++ ps).
      split; [now apply Prefix_app_r|]. split; [|exact Hn].
      eapply (Followed_app _ _ st st1 (turn st1) st2);
        [ split; [exact F1a | split; [exact F1b | exact F1c]] | reflexivity | reflexivity | exact F2 ].
  - destruct L1 as (ps & P & F1 & Hn).
    exists ps. split; [now apply Prefix_app_l|]. split; [exact F1 | exact Hn].
Qed.

Lemma widen_cursor (st : Scan) :
  isInt (s_dist st + 1) -> cursorOf (widen st) = widenC (cursorOf st).
Proof.
  intros H. unfold widen, widenC, cursorOf.
  cbn [s_x s_y s_dirIdx s_dist c_x c_y c_dirIdx c_dist].
  now rewrite wrap_small.
Qed.

Lemma dirPath_dist (c : Cursor) : c_dist (snd (dirPath 2 c)) = c_dist c.
Proof.
  rewrite dirPath_two. cbn zeta. cbn [snd turnC c_dist].
  rewrite !legPath_end. reflexivity.
Qed.

Lemma scanLoop_follows (fuel : nat) : forall st,
  RingStart (cursorOf st) -> 0 <= s_scanned st ->
  s_dist st <= s_scanned st + 1 -> 3 * s_dist st <= s_scanned st + 4 ->
  Z.max 0 (MaxBlocks config - s_scanned st) < Z.of_nat fuel ->
  exists ps w',
    scanLoop' fuel st = Finished w' /\
    Prefix ps (spiralRings fuel (cursorOf st)) /\
    Finish' ps st w'.
Proof.
  induction fuel as [|fuel IH]; intros st HR Hs Hd1 Hd3 Hf; [lia|].
  cbn [scanLoop].
  destruct (withinBudget_spec st) as (w1 & E1 & S1 & Hgo & Hstop).
  destruct (withinBudget env config st) as [go st1]. cbn [fst snd] in *. subst st1.
  destruct go.
  - specialize (Hgo eq_refl).
    pose proof MaxBlocks_int as HM. unfold isInt, maxInt, minInt in HM.
    pose proof (dirLoop_follows (withWorld st w1)) as R.
    cbn [withWorld cursorOf s_x s_y s_dirIdx s_dist s_scanned] in R.
    change (mkCursor (s_x st) (s_y st) (s_dirIdx st) (s_dist st)) with (cursorOf st) in R.
    specialize (R HR Hs ltac:(unfold maxInt; lia)).
    pose proof (RingStart_dist _ HR) as Hd0. cbn [cursorOf c_dist] in Hd0.
    destruct (dirLoop' 2 (withWorld st w1)) as [st2 | st2 |]; [| |destruct R].
    + destruct R as [Ec (Fa & Fb & Fc)].
      cbn [withWorld s_scanned world] in Fa, Fb, Fc.
      rewrite ring_length in Fa. cbn [cursorOf c_dist withWorld s_dist] in Fa.
      change (cursorOf (withWorld st w1)) with (cursorOf st) in *.
      assert (Ed : s_dist st2 = s_dist st).
      { change (s_dist st2) with (c_dist (cursorOf st2)).
        rewrite Ec, dirPath_dist. reflexivity. }
      assert (Ew : cursorOf (widen st2) = widenC (snd (dirPath 2 (cursorOf st)))).
      { rewrite widen_cursor by (unfold isInt, minInt, maxInt; lia). now rewrite Ec. }
      destruct (ring_facts _ HR) as (HR2 & _).
      specialize (IH (widen st2)). rewrite Ew in IH.
      cbn [widen s_scanned s_dist] in IH.
      rewrite wrap_small in IH by (unfold isInt, minInt, maxInt; lia).
      specialize (IH HR2 ltac:(lia) ltac:(lia) ltac:(lia) ltac:(lia)).
      destruct IH as (ps & w' & Erun & P & (Ga & Gb & Gc)).
      cbn [widen s_scanned world] in Ga, Gb, Gc.
      exists (fst (dirPath 2 (cursorOf st)) ++ ps), w'.
      split; [exact Erun|]. split; [cbn [spiralRings]; now apply Prefix_app_r|].
      assert (Hlen : s_scanned st + Z.of_nat (List.length (fst (dirPath 2 (cursorOf st)) ++ ps))
                     = s_scanned st2 + Z.of_nat (List.length ps)).
      { rewrite length_app, ring_length. cbn [cursorOf c_dist]. lia. }
      assert (Hv : sameEffects
                (visitAll' ps (s_scanned st2) (world st2))
                (visitAll' (fst (dirPath 2 (cursorOf st)) ++ ps) (s_scanned st) (world st))).
      { rewrite visitAll_app, ring_length. cbn [cursorOf c_dist].
        replace (s_scanned st + Z.of_nat (2 * Z.to_nat (s_dist st))) with (s_scanned st2) by lia.
        apply visitAll_same. eapply sameEffects_trans; [exact Fc|].
        now apply visitAll_same. }
      unfold Finish. rewrite Hlen.
      split; [lia|]. split; [exact Gb|].
      destruct Gc as [Gc | [t Gc]].
      * left. eapply sameEffects_trans; [exact Gc | exact Hv].
      * right. exists t. eapply sameEffects_trans; [exact Gc|]. now apply emit_same.
    + destruct R as (ps & P & (Fa & Fb & Fc) & Hn).
      cbn [withWorld s_scanned world] in Fa, Fb, Fc.
      exists ps, (world st2). split; [reflexivity|].
      split; [cbn [spiralRings]; now apply Prefix_app_l|].
      unfold Finish. rewrite <- Fa. split; [exact Fb|]. split; [exact Hn|].
      left. eapply sameEffects_trans; [exact Fc|]. now apply visitAll_same.
  - exists [], (logDone env center (withWorld st w1)).
    split; [reflexivity|]. split; [apply Prefix_nil|].
    unfold Finish. cbn [List.length visitAll]. rewrite Z.add_0_r.
    split; [lia|]. split; [now apply Hstop|].
    right. unfold logDone. cbn [withWorld world s_scanned].
    exists (fst (timeSince env w1)).
    destruct (timeSince env w1) as [t w2] eqn:Et. cbn [fst].
    apply emit_same. eapply sameEffects_trans; [|exact S1].
    replace w2 with (snd (timeSince env w1)) by now rewrite Et.
    apply timeSince_same.
Qed.

(** [spiralScan] returns, and what it has done is to visit the first [n]
    points of the spiral path, for an [n] within the budget; when the clock
    never reaches [Duration], [n] is the whole budget. *)
Theorem spiralScan_follows (w : World) :
  prepareOk env = true ->
  exists (n : nat) (w' : World),
    spiralScan' w = Finished w' /\
    Z.of_nat n <= Z.max 0 (MaxBlocks config) /\
    (neverExpires env config -> Z.of_nat n = Z.max 0 (MaxBlocks config)) /\
    (sameEffects w' (visitAll' (spiralPath n) 0 w) \/
     exists t,
       sameEffects w'
         (emit (EvLog (LogDone (Name center) (Z.of_nat n) t))
               (visitAll' (spiralPath n) 0 w))).
Proof.
  intros Hp. unfold spiralScan. rewrite Hp.
  destruct (scanLoop_follows (S (Z.to_nat (MaxBlocks config))) (mkScan 0 0 0 1 0 w))
    as (ps & w' & Erun & P & (Ga & Gb & Gc)).
  - exact start_RingStart.
  - cbn [s_scanned]. lia.
  - cbn [s_scanned s_dist]. lia.
  - cbn [s_scanned s_dist]. lia.
  - cbn [s_scanned]. lia.
  - cbn [s_scanned world] in Ga, Gb, Gc. rewrite Z.add_0_l in Ga, Gb, Gc.
    exists (List.length ps), w'. split; [exact Erun|]. split; [exact Ga|].
    split; [intros Hn; specialize (Gb Hn); lia|].
    assert (Eps : ps = spiralPath (List.length ps)).
    { unfold spiralPath. rewrite (Prefix_firstn _ _ P) at 1.
      change (cursorOf (mkScan 0 0 0 1 0 w)) with start.
      apply spiralRings_prefix; [exact start_RingStart | lia | lia]. }
    rewrite <- Eps. exact Gc.
Qed.

End Scanning.

(** ** One step, and runs of steps *)

Lemma effects_app (a b : list Event) : effects (a ++ b) = effects a ++ effects b.
Proof. apply filter_app. Qed.

Section Steps.

Variable ParseFloat : string -> option float.
Variable fmt_f : float -> string.
Variable env : Env.
Variable center : Center.
Variable config : Config.

Local Abbreviation visit' := (visit ParseFloat fmt_f env center config).
Local Abbreviation visitAll' := (visitAll ParseFloat fmt_f env center config).
Local Abbreviation request' := (fun x y => newRequest fmt_f (latAt center y) (lngAt center x) config).
Local Abbreviation respond' := (fun w x y => readResponse ParseFloat (roundTrip env (calls w) (request' x y))).

Lemma visit_Err (x y k : Z) (w : World) (err : string) :
  respond' w x y = Err err ->
  visit' x y k w =
  mkWorld (reads w) (S (calls w)) (execs w) (db w)
          (trace w ++ failedStep center config (request' x y) k (latAt center y) (lngAt center x) err).
Proof.
  intros H. unfold visit, fetchAreas, clientDo.
  fold (lngAt center x). fold (latAt center y). rewrite H.
  unfold emit, failedStep; cbn [reads calls execs db trace].
  rewrite <- !app_assoc. reflexivity.
Qed.

Lemma visit_Ok (x y k : Z) (w : World) (areas : list Area) :
  respond' w x y = Ok areas ->
  visit' x y k w =
  emit (EvSleep (Interval config))
    (emit (EvLog (LogPoint (Name center) k (latAt center y) (lngAt center x)
                           (Z.of_nat (List.length areas))))
       (fold_left (execInsert env) areas
          (mkWorld (reads w) (S (calls w)) (execs w) (db w)
                   (trace w ++ [EvDo (request' x y)])))).
Proof.
  intros H. unfold visit, fetchAreas, clientDo.
  fold (lngAt center x). fold (latAt center y). rewrite H. reflexivity.
Qed.

Lemma execAll_calls (areas : list Area) : forall w,
  calls (fold_left (execInsert env) areas w) = calls w /\
  reads (fold_left (execInsert env) areas w) = reads w.
Proof.
  induction areas as [|a l IH]; intros w; cbn [fold_left]; [now split|].
  destruct (IH (execInsert env w a)) as [-> ->]. now split.
Qed.

Lemma visit_calls (x y k : Z) (w : World) : calls (visit' x y k w) = S (calls w).
Proof.
  destruct (respond' w x y) as [areas | err] eqn:E.
  - rewrite (visit_Ok _ _ _ _ _ E). unfold emit. cbn [calls].
    now rewrite (proj1 (execAll_calls areas _)).
  - now rewrite (visit_Err _ _ _ _ _ E).
Qed.

Lemma visitAll_calls (ps : list Point) : forall k w,
  calls (visitAll' ps k w) = (calls w + List.length ps)%nat.
Proof.
  induction ps as [|p ps IH]; intros k w; cbn [visitAll List.length]; [lia|].
  rewrite IH, visit_calls. lia.
Qed.

Lemma visitAll_allFail (ps : list Point) : forall k w,
  allFail ParseFloat env ->
  exists steps,
    List.length steps = List.length ps /\
    Forall (isFailedStep center config) steps /\
    visitAll' ps k w =
    mkWorld (reads w) (calls w + List.length ps) (execs w) (db w)
            (trace w ++ List.concat steps).
Proof.
  induction ps as [|[x y] ps IH]; intros k w HF.
  - exists []. cbn. rewrite Nat.add_0_r, app_nil_r. destruct w; now repeat split.
  - cbn [visitAll fst snd].
    destruct (HF (calls w) (request' x y)) as [err E].
    rewrite (visit_Err _ _ _ _ _ E).
    destruct (IH (k + 1) (mkWorld (reads w) (S (calls w)) (execs w) (db w)
          (trace w ++ failedStep center config (request' x y) k (latAt center y) (lngAt center x) err)) HF)
      as (steps & Hlen & Hall & ->).
    exists (failedStep center config (request' x y) k (latAt center y) (lngAt center x) err :: steps).
    cbn [List.length List.concat calls reads execs db trace].
    split; [lia|]. split.
    + constructor; [|exact Hall]. now exists (request' x y), k, (latAt center y), (lngAt center x), err.
    + rewrite <- app_assoc. f_equal. lia.
Qed.

Lemma effects_failedSteps (steps : list (list Event)) :
  Forall (isFailedStep center config) steps -> effects (List.concat steps) = List.concat steps.
Proof.
  induction 1 as [|s l (req & k & lat & lng & err & ->) _ IH]; [reflexivity|].
  cbn [List.concat]. rewrite effects_app, IH. reflexivity.
Qed.

End Steps.

(** ** The table *)

Lemma hasId_In (k : Z) (t : Table) : hasId k t = true <-> In k (ids t).
Proof.
  unfold hasId, ids. rewrite existsb_exists, in_map_iff. split.
  - intros (r & Hr & E). apply Z.eqb_eq in E. now exists r.
  - intros (r & E & Hr). exists r. split; [exact Hr | now apply Z.eqb_eq].
Qed.

Lemma hasId_insert (r : Row) (t : Table) : hasId (area_id r) (insertOrIgnore r t) = true.
Proof.
  unfold insertOrIgnore. destruct (hasId (area_id r) t) eqn:E; [exact E|].
  unfold hasId. rewrite existsb_app. cbn. rewrite Z.eqb_refl. apply orb_true_r.
Qed.

Lemma insertOrIgnore_present (r : Row) (t : Table) :
  hasId (area_id r) t = true -> insertOrIgnore r t = t.
Proof. unfold insertOrIgnore. now intros ->. Qed.

Lemma insertOrIgnore_keyed (r : Row) (t : Table) : keyed t -> keyed (insertOrIgnore r t).
Proof.
  unfold keyed, insertOrIgnore. intros H.
  destruct (hasId (area_id r) t) eqn:E; [exact H|].
  unfold ids. rewrite map_app. cbn [map].
  apply NoDup_app; [exact H | repeat constructor; intros [] |].
  intros k Hk [<- | []]. apply hasId_In in Hk. congruence.
Qed.

Lemma rowsWithId_absent (k : Z) (t : Table) : hasId k t = false -> rowsWithId k t = [].
Proof.
  unfold rowsWithId, hasId. induction t as [|r t IH]; cbn; [reflexivity|].
  intros H. apply orb_false_iff in H. destruct H as [-> H]. now apply IH.
Qed.

Lemma rowsWithId_insert_new (r : Row) (t : Table) :
  hasId (area_id r) t = false -> rowsWithId (area_id r) (insertOrIgnore r t) = [r].
Proof.
  intros H. unfold insertOrIgnore. rewrite H. unfold rowsWithId.
  rewrite filter_app. fold (rowsWithId (area_id r) t).
  rewrite (rowsWithId_absent _ _ H). cbn. now rewrite Z.eqb_refl.
Qed.

Lemma rowsWithId_keyed (k : Z) (t : Table) :
  keyed t -> hasId k t = true -> List.length (rowsWithId k t) = 1%nat.
Proof.
  unfold keyed, ids. induction t as [|r t IH]; cbn [map]; intros Hk H.
  - discriminate.
  - inversion Hk as [|? ? Hnot Hrest]; subst.
    unfold rowsWithId, hasId in *. cbn [filter existsb] in *.
    destruct (area_id r =? k) eqn:E.
    + apply Z.eqb_eq in E. subst k. cbn [List.length]. f_equal.
      fold (rowsWithId (area_id r) t). rewrite rowsWithId_absent; [reflexivity|].
      destruct (hasId (area_id r) t) eqn:Hh; [|reflexivity].
      apply hasId_In in Hh. contradiction.
    + cbn [orb] in H. now apply IH.
Qed.

(** ** Decoding *)

Lemma fold_failed {A : Type} (field : string -> json -> A -> option A)
    (ms : list (string * json)) :
  fold_left
    (fun acc kv => match acc with
                   | Some a => field (fst kv) (snd kv) a
                   | None => None
                   end) ms None = None.
Proof. induction ms as [|m ms IH]; cbn; [reflexivity | exact IH]. Qed.

(** A member that no field value accepts fails the whole object. *)
Lemma decodeStruct_member {A : Type} (field : string -> json -> A -> option A)
    (ms : list (string * json)) (k : string) (v : json) :
  In (k, v) ms -> (forall a, field k v a = None) ->
  forall old, decodeStruct field (JObject ms) old = None.
Proof.
  intros Hin Hbad old. unfold decodeStruct.
  generalize (Some old). induction ms as [|m ms IH]; intros acc; [destruct Hin|].
  cbn [fold_left]. destruct Hin as [-> | Hin].
  - cbn [fst snd]. destruct acc as [a|]; [rewrite Hbad|]; apply fold_failed.
  - now apply IH.
Qed.

Lemma decodeElems_elem (ParseFloat : string -> option float) (vs : list json) (v : json) :
  In v vs -> (forall a, decodeArea ParseFloat v a = None) ->
  forall old, decodeElems ParseFloat vs old = None.
Proof.
  intros Hin Hbad. induction vs as [|u vs IH]; intros old; [destruct Hin|].
  cbn [decodeElems]. destruct Hin as [-> | Hin].
  - now rewrite Hbad.
  - destruct (decodeArea ParseFloat u (hd zeroArea old)); [|reflexivity].
    now rewrite IH.
Qed.

Lemma fieldIs_name (name key : string) :
  fieldIs name key = true -> ToLower key = ToLower name.
Proof. unfold fieldIs. intros H. apply String.eqb_eq in H. now symmetry. Qed.

Lemma areaField_bare (ParseFloat : string -> option float) (k lit : string) (a : Area) :
  fieldIs "latitude" k = true \/ fieldIs "longitude" k = true ->
  areaField ParseFloat k (JNumber lit) a = None.
Proof.
  intros [H | H]; apply fieldIs_name in H; unfold areaField, fieldIs;
    rewrite H; reflexivity.
Qed.

Lemma responseField_data (ParseFloat : string -> option float) (k : string)
    (v : json) (r : ApiResponse) :
  fieldIs "data" k = true ->
  responseField ParseFloat k v r =
  option_map (fun d => mkApiResponse (Code r) d)
             (decodeStruct (dataField ParseFloat) v (Data r)).
Proof.
  intros H. apply fieldIs_name in H. unfold responseField, fieldIs.
  rewrite H. reflexivity.
Qed.

Lemma Decode_bare (ParseFloat : string -> option float) (v : json) :
  hasBareCoordinate v -> Decode ParseFloat (Some v) = None.
Proof.
  intros (ms & kd & ds & kr & rs & rec & -> & Hd & Fd & Hr & Fr & Hrec & Hbare).
  destruct Hbare as (fs & k & lit & -> & Hk & Fk).
  unfold Decode. apply (decodeStruct_member _ ms kd (JObject ds) Hd).
  intros r. rewrite (responseField_data _ _ _ _ Fd).
  rewrite (decodeStruct_member _ ds kr (JArray rs) Hr); [reflexivity|].
  intros d. unfold dataField. rewrite Fr. cbn [decodeRecords].
  rewrite (decodeElems_elem ParseFloat rs (JObject fs) Hrec); [reflexivity|].
  intros a. unfold decodeArea.
  apply (decodeStruct_member _ fs k (JNumber lit) Hk).
  intros a'. now apply areaField_bare.
Qed.

(** ** An invariant rule for the loop nest *)

Section Rule.

Variable ParseFloat : string -> option float.
Variable fmt_f : float -> string.
Variable env : Env.
Variable center : Center.
Variable config : Config.

Local Abbreviation loopBody' := (loopBody ParseFloat fmt_f env center config).
Local Abbreviation legLoop' := (legLoop ParseFloat fmt_f env center config).
Local Abbreviation dirLoop' := (dirLoop ParseFloat fmt_f env center config).
Local Abbreviation scanLoop' := (scanLoop ParseFloat fmt_f env center config).

(** [P] holds between steps, [R] right after a budget test has passed, [Q]
    when the worker is done. *)
Variable P R : Scan -> Prop.
Variable Q : World -> Prop.

Hypothesis R_P : forall st, R st -> P st.
Hypothesis pass : forall st,
  P st -> s_scanned st < MaxBlocks config -> reading env st < Duration config -> R (ticked env st).
Hypothesis body : forall st st', R st -> loopBody' st = Some st' -> P st'.
Hypothesis turned : forall st, P st -> P (turn st).
Hypothesis widened : forall st, P st -> P (widen st).
Hypothesis return_count : forall st,
  P st -> MaxBlocks config <= s_scanned st -> Q (world st).
Hypothesis return_time : forall st,
  P st -> s_scanned st < MaxBlocks config -> Duration config <= reading env st ->
  Q (world (ticked env st)).
Hypothesis done_count : forall st,
  P st -> MaxBlocks config <= s_scanned st -> Q (logDone env center st).
Hypothesis done_time : forall st,
  P st -> s_scanned st < MaxBlocks config -> Duration config <= reading env st ->
  Q (logDone env center (ticked env st)).

Lemma legLoop_rule (n : nat) : forall st,
  P st ->
  match legLoop' n st with
  | Next st' => P st'
  | Return st' => Q (world st')
  | Panic => True
  end.
Proof.
  induction n as [|n IH]; intros st HP; cbn [legLoop]; [exact HP|].
  unfold budgetSpent.
  destruct (s_scanned st >=? MaxBlocks config) eqn:E; rewrite Z.geb_leb in E.
  - apply Z.leb_le in E. now apply return_count.
  - apply Z.leb_gt in E.
    change (timeSince env (world st)) with
      (reading env st, snd (timeSince env (world st))).
    cbv iota. fold (ticked env st).
    destruct (reading env st >=? Duration config) eqn:T; rewrite Z.geb_leb in T.
    + apply Z.leb_le in T. now apply return_time.
    + apply Z.leb_gt in T.
      destruct (loopBody' (ticked env st)) as [st2|] eqn:B; [|exact I].
      apply IH. apply (body (ticked env st)); [|exact B]. now apply pass.
Qed.

Lemma dirLoop_rule (n : nat) : forall st,
  P st ->
  match dirLoop' n st with
  | Next st' => P st'
  | Return st' => Q (world st')
  | Panic => True
  end.
Proof.
  induction n as [|n IH]; intros st HP; cbn [dirLoop]; [exact HP|].
  pose proof (legLoop_rule (Z.to_nat (s_dist st)) st HP) as L.
  destruct (legLoop' (Z.to_nat (s_dist st)) st) as [st1 | st1 |]; [|exact L|exact I].
  apply IH. now apply turned.
Qed.

Lemma scanLoop_rule (fuel : nat) : forall st w',
  P st -> scanLoop' fuel st = Finished w' -> Q w'.
Proof.
  induction fuel as [|fuel IH]; intros st w' HP; cbn [scanLoop]; [discriminate|].
  unfold withinBudget.
  destruct (s_scanned st <? MaxBlocks config) eqn:E.
  - apply Z.ltb_lt in E.
    change (timeSince env (world st)) with
      (reading env st, snd (timeSince env (world st))).
    cbv iota. fold (ticked env st).
    destruct (reading env st <? Duration config) eqn:T.
    + apply Z.ltb_lt in T.
      pose proof (dirLoop_rule 2 (ticked env st) (R_P _ (pass st HP E T))) as D.
      destruct (dirLoop' 2 (ticked env st)) as [st2 | st2 |]; [| |discriminate].
      * apply IH. now apply widened.
      * intros [= <-]. exact D.
    + apply Z.ltb_ge in T. intros [= <-]. now apply done_time.
  - apply Z.ltb_ge in E. intros [= <-]. now apply done_count.
Qed.

End Rule.

(** ** The shape of a worker's trace *)

Section Pacing.

Variable ParseFloat : string -> option float.
Variable fmt_f : float -> string.
Variable env : Env.
Variable center : Center.
Variable config : Config.

Local Abbreviation visit' := (visit ParseFloat fmt_f env center config).
Local Abbreviation spiralScan' := (spiralScan ParseFloat fmt_f env center config).
Local Abbreviation stepEvents' := (stepEvents ParseFloat fmt_f env center config).
Local Abbreviation isStep' := (isStep ParseFloat fmt_f env center config).
Local Abbreviation isBlock' := (isBlock ParseFloat fmt_f env center config).
Local Abbreviation Paced' := (Paced ParseFloat fmt_f env center config).
Local Abbreviation Open' := (Open ParseFloat fmt_f env center config).
Local Abbreviation Ready' := (Ready ParseFloat fmt_f env center config).
Local Abbreviation Done' := (Done ParseFloat fmt_f env center config).

Lemma execAll_trace (areas : list Area) : forall w,
  trace (fold_left (execInsert env) areas w) = trace w ++ writes env (execs w) areas.
Proof.
  induction areas as [|a l IH]; intros w; cbn [fold_left writes].
  - now rewrite app_nil_r.
  - rewrite IH. unfold execInsert. cbn [trace execs].
    now rewrite <- app_assoc.
Qed.

Lemma visit_trace (x y k : Z) (w : World) :
  trace (visit' x y k w) = trace w ++ stepEvents' x y k (calls w) (execs w).
Proof.
  unfold stepEvents.
  destruct (readResponse ParseFloat (roundTrip env (calls w) _)) as [areas | err] eqn:E.
  - rewrite (visit_Ok _ _ _ _ _ _ _ _ _ _ E). unfold emit. cbn [trace].
    rewrite execAll_trace. cbn [trace execs].
    rewrite <- !app_assoc. reflexivity.
  - rewrite (visit_Err _ _ _ _ _ _ _ _ _ _ E). reflexivity.
Qed.

Lemma writes_no_reading (areas : list Area) : forall e t, ~ In (EvSince t) (writes env e areas).
Proof.
  induction areas as [|a l IH]; intros e t; cbn [writes In]; [tauto|].
  intros [H | H]; [discriminate | exact (IH _ _ H)].
Qed.

Lemma step_no_reading (evs : list Event) (t : Z) : isStep' evs -> ~ In (EvSince t) evs.
Proof.
  intros (x & y & k & c & e & _ & ->). unfold stepEvents.
  destruct (readResponse _ _) as [areas | err]; cbn [In app].
  - intros [H | H]; [discriminate|].
    rewrite <- app_assoc in H. apply in_app_or in H. destruct H as [H | H].
    + exact (writes_no_reading _ _ _ H).
    + cbn in H. destruct H as [H | [H | []]]; discriminate.
  - intros [H | [H | [H | []]]]; discriminate.
Qed.

Lemma block_reading (evs : list Event) (t : Z) :
  isBlock' evs -> In (EvSince t) evs -> t < Duration config.
Proof.
  intros (checks & t0 & stp & -> & Hc & Ht0 & Hs) Hin.
  apply in_app_or in Hin. destruct Hin as [Hin | [Hin | Hin]].
  - rewrite Forall_forall in Hc. destruct (Hc _ Hin) as (t' & [= <-] & Ht'). exact Ht'.
  - injection Hin as <-. exact Ht0.
  - destruct (step_no_reading _ _ Hs Hin).
Qed.

(** Once the clock has been read at or above [Duration], no step follows. *)
Lemma Paced_expired (blocks : list (list Event)) : forall tail pre t post,
  List.concat blocks ++ tail = pre ++ EvSince t :: post ->
  Forall isBlock' blocks -> Forall isClosing tail ->
  Duration config <= t ->
  Forall isClosing post.
Proof.
  induction blocks as [|b bs IH]; intros tail pre t post E Hb Ht Hd.
  - cbn in E. subst tail. apply Forall_app in Ht. destruct Ht as [_ Ht].
    now inversion Ht.
  - cbn [List.concat] in E. rewrite <- app_assoc in E.
    inversion Hb as [|? ? Hb1 Hbs]; subst.
    apply app_eq_app in E. destruct E as (l & [[-> E] | [-> E]]).
    + destruct l as [|e l]; cbn [app] in E.
      * apply (IH tail [] t post); auto.
      * injection E as <- E.
        assert (Hin : In (EvSince t) (pre ++ EvSince t :: l))
          by (apply in_or_app; right; now left).
        pose proof (block_reading _ _ Hb1 Hin). lia.
    + eapply IH; eauto.
Qed.

Lemma passed_closing (c : list Event) : Forall (passed config) c -> Forall isClosing c.
Proof.
  apply Forall_impl. intros e (t & -> & _). exact I.
Qed.

Lemma ticked_trace (st : Scan) :
  trace (world (ticked env st)) = trace (world st) ++ [EvSince (reading env st)].
Proof. reflexivity. Qed.

Lemma logDone_trace (st : Scan) :
  trace (logDone env center st) =
  trace (world st) ++
  [EvSince (reading env st); EvLog (LogDone (Name center) (s_scanned st) (reading env st))].
Proof.
  unfold logDone, timeSince, emit, reading. cbn [trace].
  now rewrite <- app_assoc.
Qed.

Lemma Open_Done (w0 : World) (st : Scan) (w' : World) (tail : list Event) :
  Open' w0 st -> trace w' = trace (world st) ++ tail -> Forall isClosing tail ->
  Done' w0 w'.
Proof.
  intros (blocks & c & E & Hb & Hc) E' Ht.
  exists (List.concat blocks ++ c ++ tail). split.
  - rewrite E', E, <- !app_assoc. reflexivity.
  - exists blocks, (c ++ tail). split; [reflexivity|]. split; [exact Hb|].
    apply Forall_app. split; [now apply passed_closing | exact Ht].
Qed.

(** Every run of the worker leaves a paced trace. *)
Lemma spiralScan_paced (w w' : World) :
  spiralScan' w = Finished w' ->
  exists evs, trace w' = trace w ++ evs /\ Paced' evs.
Proof.
  unfold spiralScan. destruct (prepareOk env).
  - apply (scanLoop_rule ParseFloat fmt_f env center config (Open' w) (Ready' w) (Done' w)).
    + intros st (blocks & c & t & E & Hb & Hc & Ht & _).
      exists blocks, (c ++ [EvSince t]). split; [exact E|]. split; [exact Hb|].
      apply Forall_app. split; [exact Hc|]. constructor; [|constructor]. now exists t.
    + intros st (blocks & c & E & Hb & Hc) Hs Ht.
      exists blocks, c, (reading env st). rewrite ticked_trace, E, <- !app_assoc.
      now repeat split.
    + intros st st' (blocks & c & t & E & Hb & Hc & Ht & Hs) B.
      unfold loopBody in B. destruct (dirsAt (s_dirIdx st)); [|discriminate].
      injection B as <-. unfold Open. cbn [world]. rewrite visit_trace, E.
      exists (blocks ++ [c ++ EvSince t :: stepEvents' (s_x st) (s_y st) (s_scanned st)
                                          (calls (world st)) (execs (world st))]), [].
      split.
      * rewrite concat_app. cbn [List.concat]. rewrite !app_nil_r, <- !app_assoc.
        reflexivity.
      * split; [|constructor]. apply Forall_app. split; [exact Hb|].
        constructor; [|constructor].
        exists c, t, (stepEvents' (s_x st) (s_y st) (s_scanned st)
                                 (calls (world st)) (execs (world st))).
        split; [reflexivity|]. split; [exact Hc|]. split; [exact Ht|].
        now exists (s_x st), (s_y st), (s_scanned st), (calls (world st)), (execs (world st)).
    + intros st H. exact H.
    + intros st H. exact H.
    + intros st H _. apply (Open_Done w st (world st) [] H); [now rewrite app_nil_r | constructor].
    + intros st H _ _. apply (Open_Done w st _ [EvSince (reading env st)] H).
      * apply ticked_trace.
      * repeat constructor.
    + intros st H _. apply (Open_Done w st _ _ H (logDone_trace st)).
      repeat constructor.
    + intros st H _ _.
      apply (Open_Done w st _
               ([EvSince (reading env st)] ++
                [EvSince (reading env (ticked env st));
                 EvLog (LogDone (Name center) (s_scanned st) (reading env (ticked env st)))]) H).
      * rewrite logDone_trace, ticked_trace, <- app_assoc. reflexivity.
      * repeat constructor.
    + exists [], []. cbn. rewrite app_nil_r. now repeat split.
  - intros [= <-]. exists [EvLog (LogPrepareFailed (Name center))]. split; [reflexivity|].
    exists [], [EvLog (LogPrepareFailed (Name center))]. repeat split; repeat constructor.
Qed.

End Pacing.

(** ** Write failures do not show *)

Lemma alike_refl (w : World) : alike w w.
Proof. now repeat split. Qed.

Lemma emit_alike (e : Event) (w1 w2 : World) :
  alike w1 w2 -> alike (emit e w1) (emit e w2).
Proof.
  intros (Hr & Hc & He & Ht). unfold alike, emit. cbn [reads calls execs trace].
  rewrite !map_app, Ht. now repeat split.
Qed.

Section TwoEnvs.

Variable ParseFloat : string -> option float.
Variable fmt_f : float -> string.
Variable env1 env2 : Env.
Variable center : Center.
Variable config : Config.

Hypothesis same_clock : forall k, since env1 k = since env2 k.
Hypothesis same_api : forall k req, roundTrip env1 k req = roundTrip env2 k req.
Hypothesis same_prepare : prepareOk env1 = prepareOk env2.

Lemma timeSince_alike (w1 w2 : World) :
  alike w1 w2 ->
  fst (timeSince env1 w1) = fst (timeSince env2 w2) /\
  alike (snd (timeSince env1 w1)) (snd (timeSince env2 w2)).
Proof.
  intros (Hr & Hc & He & Ht). unfold timeSince, alike. cbn [fst snd reads calls execs trace].
  rewrite !map_app, Ht, Hr, same_clock. now repeat split.
Qed.

Lemma execAll_alike (areas : list Area) : forall w1 w2,
  alike w1 w2 ->
  alike (fold_left (execInsert env1) areas w1) (fold_left (execInsert env2) areas w2).
Proof.
  induction areas as [|a l IH]; intros w1 w2 H; cbn [fold_left]; [exact H|].
  apply IH. destruct H as (Hr & Hc & He & Ht).
  unfold alike, execInsert. cbn [reads calls execs trace].
  rewrite !map_app, Ht. cbn [map forgetOk]. now repeat split; try congruence.
Qed.

Lemma visit_alike (x y k : Z) (w1 w2 : World) :
  alike w1 w2 ->
  alike (visit ParseFloat fmt_f env1 center config x y k w1)
        (visit ParseFloat fmt_f env2 center config x y k w2).
Proof.
  intros H. unfold visit, fetchAreas, clientDo.
  destruct H as (Hr & Hc & He & Ht). rewrite Hc, same_api.
  set (req := newRequest fmt_f _ _ config).
  assert (A : alike
    (mkWorld (reads w1) (S (calls w2)) (execs w1) (db w1) (trace w1 ++ [EvDo req]))
    (mkWorld (reads w2) (S (calls w2)) (execs w2) (db w2) (trace w2 ++ [EvDo req]))).
  { unfold alike. cbn [reads calls execs trace]. rewrite !map_app, Ht. now repeat split. }
  destruct (readResponse ParseFloat (roundTrip env2 (calls w2) req)) as [areas | err];
    apply emit_alike, emit_alike; [now apply execAll_alike | exact A].
Qed.

Lemma budgetSpent_alike (st1 st2 : Scan) :
  alikeScan st1 st2 ->
  fst (budgetSpent env1 config st1) = fst (budgetSpent env2 config st2) /\
  alikeScan (snd (budgetSpent env1 config st1)) (snd (budgetSpent env2 config st2)).
Proof.
  intros (Hx & Hy & Hi & Hd & Hs & Hw). unfold budgetSpent. rewrite Hs.
  destruct (s_scanned st2 >=? MaxBlocks config).
  - split; [reflexivity|]. cbn [snd]. unfold alikeScan. tauto.
  - destruct (timeSince_alike _ _ Hw) as [Et Aw].
    destruct (timeSince env1 (world st1)) as [t1 v1].
    destruct (timeSince env2 (world st2)) as [t2 v2].
    cbn [fst snd] in *. subst t2. split; [reflexivity|].
    unfold alikeScan, withWorld. cbn [s_x s_y s_dirIdx s_dist s_scanned world].
    tauto.
Qed.

Lemma withinBudget_alike (st1 st2 : Scan) :
  alikeScan st1 st2 ->
  fst (withinBudget env1 config st1) = fst (withinBudget env2 config st2) /\
  alikeScan (snd (withinBudget env1 config st1)) (snd (withinBudget env2 config st2)).
Proof.
  intros (Hx & Hy & Hi & Hd & Hs & Hw). unfold withinBudget. rewrite Hs.
  destruct (s_scanned st2 <? MaxBlocks config).
  - destruct (timeSince_alike _ _ Hw) as [Et Aw].
    destruct (timeSince env1 (world st1)) as [t1 v1].
    destruct (timeSince env2 (world st2)) as [t2 v2].
    cbn [fst snd] in *. subst t2. split; [reflexivity|].
    unfold alikeScan, withWorld. cbn [s_x s_y s_dirIdx s_dist s_scanned world].
    tauto.
  - split; [reflexivity|]. cbn [snd]. unfold alikeScan. tauto.
Qed.

Lemma legLoop_alike (n : nat) : forall st1 st2,
  alikeScan st1 st2 ->
  alikeFlow (legLoop ParseFloat fmt_f env1 center config n st1)
            (legLoop ParseFloat fmt_f env2 center config n st2).
Proof.
  induction n as [|n IH]; intros st1 st2 H; cbn [legLoop]; [exact H|].
  destruct (budgetSpent_alike _ _ H) as [Eb Ab].
  destruct (budgetSpent env1 config st1) as [b1 u1].
  destruct (budgetSpent env2 config st2) as [b2 u2].
  cbn [fst snd] in *. subst b2. destruct b1; [exact Ab|].
  destruct Ab as (Hx & Hy & Hi & Hd & Hs & Hw). unfold loopBody.
  rewrite Hx, Hy, Hi, Hd, Hs.
  destruct (dirsAt (s_dirIdx u2)); [|exact I].
  apply IH. unfold alikeScan. cbn [s_x s_y s_dirIdx s_dist s_scanned world].
  repeat split; try reflexivity; now apply visit_alike.
Qed.

Lemma dirLoop_alike (n : nat) : forall st1 st2,
  alikeScan st1 st2 ->
  alikeFlow (dirLoop ParseFloat fmt_f env1 center config n st1)
            (dirLoop ParseFloat fmt_f env2 center config n st2).
Proof.
  induction n as [|n IH]; intros st1 st2 H; cbn [dirLoop]; [exact H|].
  assert (Hd : s_dist st1 = s_dist st2) by apply H. rewrite Hd.
  pose proof (legLoop_alike (Z.to_nat (s_dist st2)) _ _ H) as L.
  destruct (legLoop _ _ env1 _ _ _ st1) as [a | a |];
    destruct (legLoop _ _ env2 _ _ _ st2) as [b | b |]; cbn in L; try contradiction;
    try exact L.
  apply IH. destruct L as (Hx & Hy & Hi & Hd' & Hs & Hw).
  unfold alikeScan, turn. cbn [s_x s_y s_dirIdx s_dist s_scanned world].
  rewrite Hi. tauto.
Qed.

Lemma scanLoop_alike (fuel : nat) : forall st1 st2,
  alikeScan st1 st2 ->
  alikeOutcome (scanLoop ParseFloat fmt_f env1 center config fuel st1)
               (scanLoop ParseFloat fmt_f env2 center config fuel st2).
Proof.
  induction fuel as [|fuel IH]; intros st1 st2 H; cbn [scanLoop]; [exact I|].
  destruct (withinBudget_alike _ _ H) as [Eb Ab].
  destruct (withinBudget env1 config st1) as [b1 u1].
  destruct (withinBudget env2 config st2) as [b2 u2].
  cbn [fst snd] in *. subst b2. destruct b1.
  - pose proof (dirLoop_alike 2 _ _ Ab) as L.
    destruct (dirLoop _ _ env1 _ _ _ u1) as [a | a |];
      destruct (dirLoop _ _ env2 _ _ _ u2) as [b | b |]; cbn in L; try contradiction.
    + apply IH. destruct L as (Hx & Hy & Hi & Hd' & Hs & Hw).
      unfold alikeScan, widen. cbn [s_x s_y s_dirIdx s_dist s_scanned world].
      rewrite Hd'. tauto.
    + apply L.
    + exact I.
  - destruct Ab as (Hx & Hy & Hi & Hd & Hs & Hw). unfold logDone.
    destruct (timeSince_alike _ _ Hw) as [Et Aw].
    destruct (timeSince env1 (world u1)) as [t1 v1].
    destruct (timeSince env2 (world u2)) as [t2 v2].
    cbn [fst snd] in *. subst t2. rewrite Hs. now apply emit_alike.
Qed.

(** Two runs that differ only in which writes fail are alike. *)
Lemma spiralScan_alike (w : World) :
  alikeOutcome (spiralScan ParseFloat fmt_f env1 center config w)
               (spiralScan ParseFloat fmt_f env2 center config w).
Proof.
  unfold spiralScan. rewrite same_prepare. destruct (prepareOk env2).
  - apply scanLoop_alike. unfold alikeScan. cbn. repeat split.
  - apply emit_alike, alike_refl.
Qed.

End TwoEnvs.

(* ================================================================= *)
(** * The claims *)

Lemma requestsOf_effects (tr : list Event) : requestsOf (effects tr) = requestsOf tr.
Proof.
  unfold requestsOf, effects.
  induction tr as [|e tr IH]; [reflexivity|].
  destruct e; cbn; rewrite ?IH; reflexivity.
Qed.

Lemma requestsOf_app (a b : list Event) : requestsOf (a ++ b) = requestsOf a ++ requestsOf b.
Proof. apply flat_map_app. Qed.

Lemma logLines_forget (tr : list Event) : logLines (map forgetOk tr) = logLines tr.
Proof.
  unfold logLines.
  induction tr as [|e tr IH]; [reflexivity|].
  destruct e; cbn; rewrite ?IH; reflexivity.
Qed.

Section Runs.

Variable ParseFloat : string -> option float.
Variable fmt_f : float -> string.
Variable env : Env.
Variable center : Center.
Variable config : Config.

Local Abbreviation spiralScan' := (spiralScan ParseFloat fmt_f env center config).
Local Abbreviation visitAll' := (visitAll ParseFloat fmt_f env center config).
Local Abbreviation Visited' := (Visited ParseFloat fmt_f env center config).

Lemma spiralScan_visits (w : World) :
  isInt (MaxBlocks config) -> prepareOk env = true ->
  exists (n : nat) (w' : World),
    spiralScan' w = Finished w' /\
    Z.of_nat n <= Z.max 0 (MaxBlocks config) /\
    (neverExpires env config -> Z.of_nat n = Z.max 0 (MaxBlocks config)) /\
    Visited' (spiralPath n) w w'.
Proof.
  intros HM Hp.
  destruct (spiralScan_follows ParseFloat fmt_f env center config HM w Hp)
    as (n & w' & E & Hn & Hall & V).
  exists n, w'. split; [exact E|]. split; [exact Hn|]. split; [exact Hall|].
  unfold Visited. rewrite spiralPath_length. exact V.
Qed.

Lemma spiralScan_finishes (w : World) :
  isInt (MaxBlocks config) -> exists w', spiralScan' w = Finished w'.
Proof.
  intros HM. destruct (prepareOk env) eqn:Hp.
  - destruct (spiralScan_visits w HM Hp) as (n & w' & E & _). now exists w'.
  - unfold spiralScan. rewrite Hp. eauto.
Qed.

Lemma Visited_counts (ps : list Point) (w w' : World) :
  Visited' ps w w' ->
  calls w' = (calls w + List.length ps)%nat.
Proof.
  intros [S | [t S]]; destruct S as [Hc _ _ _]; rewrite Hc; unfold emit; cbn [calls];
    apply visitAll_calls.
Qed.

End Runs.

(** C1.  For every N >= 1 the first N offsets of the spiral path, started at
    x = 0, y = 0, direction index 0, distance 1, are N pairwise distinct
    lattice points, and up to N = 12 they are (0,0), (1,0), (1,1), (0,1),
    (-1,1), (-1,0), (-1,-1), (0,-1), (1,-1), (2,-1), (2,0), (2,1).  They are
    the offsets the worker visits, in this order: for N an [int], a worker
    with [MaxBlocks = N] whose clock does not run out returns after visiting
    exactly [spiralPath N]. *)
Theorem C1_spiral_path (N : nat) :
  (1 <= N)%nat ->
  List.length (spiralPath N) = N /\
  NoDup (spiralPath N) /\
  ((N <= 12)%nat ->
   spiralPath N =
   firstn N [(0, 0); (1, 0); (1, 1); (0, 1); (-1, 1); (-1, 0); (-1, -1); (0, -1);
             (1, -1); (2, -1); (2, 0); (2, 1)]) /\
  (forall ParseFloat fmt_f env center config w,
      MaxBlocks config = Z.of_nat N -> Z.of_nat N <= maxInt ->
      prepareOk env = true -> neverExpires env config ->
      exists w',
        spiralScan ParseFloat fmt_f env center config w = Finished w' /\
        Visited ParseFloat fmt_f env center config (spiralPath N) w w').
Proof.
  intros HN.
  split; [apply spiralPath_length|]. split; [apply spiralPath_NoDup|].
  split; [intros H12; rewrite <- spiralPath_12; now apply spiralPath_prefix|].
  intros ParseFloat fmt_f env center config w HM Hint Hp Hclock.
  assert (HMi : isInt (MaxBlocks config)) by (unfold isInt, minInt, maxInt in *; lia).
  destruct (spiralScan_visits ParseFloat fmt_f env center config w HMi Hp)
    as (n & w' & E & _ & Hall & V).
  specialize (Hall Hclock).
  assert (n = N) by lia. subst n. now exists w'.
Qed.

Lemma C1_witness :
  List.length (spiralPath 12) = 12%nat /\
  NoDup (spiralPath 12) /\
  spiralPath 12 =
    [(0, 0); (1, 0); (1, 1); (0, 1); (-1, 1); (-1, 0); (-1, -1); (0, -1);
     (1, -1); (2, -1); (2, 0); (2, 1)] /\
  exists w',
    spiralScan sampleParse sampleFmt (stillEnv (DoError "offline")) origin
               (sampleConfig 12) emptyWorld = Finished w' /\
    Visited sampleParse sampleFmt (stillEnv (DoError "offline")) origin
            (sampleConfig 12) (spiralPath 12) emptyWorld w'.
Proof.
  destruct (C1_spiral_path 12 ltac:(lia)) as (Hlen & Hnd & Hseq & Hrun).
  split; [exact Hlen|]. split; [exact Hnd|]. split; [apply Hseq; lia|].
  apply Hrun; [reflexivity | unfold maxInt; cbn; lia | reflexivity | intros k; cbn; lia].
Defined.

(** C2.  With a budget [MaxBlocks >= 0] the worker returns, having made at
    most [MaxBlocks] API calls; with [MaxBlocks = 0] it makes none: it only
    reads the clock once for the closing log line (or logs that the
    statement could not be prepared) and returns. *)
Theorem C2_call_budget (ParseFloat : string -> option float) (fmt_f : float -> string)
    (env : Env) (center : Center) (config : Config) (w : World) :
  isInt (MaxBlocks config) -> 0 <= MaxBlocks config ->
  exists w',
    spiralScan ParseFloat fmt_f env center config w = Finished w' /\
    (calls w <= calls w')%nat /\
    Z.of_nat (calls w' - calls w) <= MaxBlocks config /\
    (MaxBlocks config = 0 ->
     w' = if prepareOk env
          then logDone env center (mkScan 0 0 0 1 0 w)
          else emit (EvLog (LogPrepareFailed (Name center))) w).
Proof.
  intros HM H0. destruct (prepareOk env) eqn:Hp.
  - destruct (spiralScan_visits ParseFloat fmt_f env center config w HM Hp)
      as (n & w' & E & Hn & _ & V).
    exists w'. split; [exact E|].
    rewrite (Visited_counts _ _ _ _ _ _ _ _ V), spiralPath_length.
    split; [lia|]. split; [lia|].
    intros Hz. unfold spiralScan in E. rewrite Hp, Hz in E. cbn in E.
    unfold withinBudget in E. cbn [s_scanned] in E. rewrite Hz in E. cbn in E.
    now injection E as <-.
  - exists (emit (EvLog (LogPrepareFailed (Name center))) w).
    unfold spiralScan. rewrite Hp. cbn [emit calls].
    split; [reflexivity|]. split; [lia|]. split; [lia|]. reflexivity.
Qed.

Lemma C2_witness :
  exists w',
    spiralScan sampleParse sampleFmt (sampleEnv (DoError "offline") true) origin
               (sampleConfig 0) emptyWorld = Finished w' /\
    (calls emptyWorld <= calls w')%nat /\
    Z.of_nat (calls w' - calls emptyWorld) <= MaxBlocks (sampleConfig 0) /\
    (MaxBlocks (sampleConfig 0) = 0 ->
     w' = if prepareOk (sampleEnv (DoError "offline") true)
          then logDone (sampleEnv (DoError "offline") true) origin (mkScan 0 0 0 1 0 emptyWorld)
          else emit (EvLog (LogPrepareFailed (Name origin))) emptyWorld).
Proof.
  apply C2_call_budget; [unfold isInt, minInt, maxInt; cbn; lia | cbn; lia].
Defined.

(** C3.  Both budgets are tested before a point is visited and never inside
    a step.  The worker returns, and what it appended to the trace is
    [Paced]: a sequence of blocks, each one a clock reading below [Duration]
    (after at most further such readings) followed at once by a whole step
    - the fetch, a write for every record it returned, the log line, the
    sleep of [Interval] - and then a tail without any step.  So a step that
    has begun is completed whatever the clock says meanwhile, and once the
    clock has been read at or above [Duration] nothing but further readings
    and the closing log line follows. *)
Theorem C3_budget_checks (ParseFloat : string -> option float) (fmt_f : float -> string)
    (env : Env) (center : Center) (config : Config) (w : World) :
  isInt (MaxBlocks config) ->
  exists w' evs,
    spiralScan ParseFloat fmt_f env center config w = Finished w' /\
    trace w' = trace w ++ evs /\
    Paced ParseFloat fmt_f env center config evs /\
    (forall pre t post,
        evs = pre ++ EvSince t :: post -> Duration config <= t ->
        Forall isClosing post).
Proof.
  intros HM.
  destruct (spiralScan_finishes ParseFloat fmt_f env center config w HM) as [w' E].
  destruct (spiralScan_paced ParseFloat fmt_f env center config w w' E) as (evs & Et & HP).
  exists w', evs. split; [exact E|]. split; [exact Et|]. split; [exact HP|].
  destruct HP as (blocks & tail & -> & Hb & Ht).
  intros pre t post Eq Hd.
  exact (Paced_expired ParseFloat fmt_f env center config blocks tail pre t post Eq Hb Ht Hd).
Qed.

Lemma C3_witness :
  exists w' evs,
    spiralScan sampleParse sampleFmt (sampleEnv (DoBody (Some (bodyWith "200" [oneRecord]))) true)
               origin
               (mkConfig "token" 200000000 3500000 false 5000 "lemobar_scan.db" "lemobar_export.csv")
               emptyWorld = Finished w' /\
    trace w' = trace emptyWorld ++ evs /\
    Paced sampleParse sampleFmt (sampleEnv (DoBody (Some (bodyWith "200" [oneRecord]))) true)
          origin
          (mkConfig "token" 200000000 3500000 false 5000 "lemobar_scan.db" "lemobar_export.csv")
          evs /\
    (forall pre t post,
        evs = pre ++ EvSince t :: post -> 3500000 <= t -> Forall isClosing post).
Proof.
  apply (C3_budget_checks sampleParse sampleFmt
           (sampleEnv (DoBody (Some (bodyWith "200" [oneRecord]))) true) origin
           (mkConfig "token" 200000000 3500000 false 5000 "lemobar_scan.db" "lemobar_export.csv")
           emptyWorld).
  unfold isInt, minInt, maxInt; cbn; lia.
Defined.

(** C5.  Writing a record whose id is already in the table is a no-op.
    After a record [a1] and then any record [a2] with the same id have been
    inserted, the table is what it was after the first insert; when the id
    was new, the table holds exactly one row with that id and it is [a1]'s;
    and in a table that respects the primary key there is exactly one row
    with that id in any case. *)
Theorem C5_insert_or_ignore (t : Table) (a1 a2 : Area) :
  ID a2 = ID a1 ->
  let t1 := insertOrIgnore (rowOf a1) t in
  let t2 := insertOrIgnore (rowOf a2) t1 in
  t2 = t1 /\
  (hasId (ID a1) t = false -> rowsWithId (ID a1) t2 = [rowOf a1]) /\
  (keyed t -> keyed t2 /\ List.length (rowsWithId (ID a1) t2) = 1%nat).
Proof.
  intros Hid t1 t2.
  assert (H1 : hasId (ID a1) t1 = true) by apply (hasId_insert (rowOf a1) t).
  assert (E : t2 = t1).
  { subst t2. apply insertOrIgnore_present. cbn [rowOf area_id]. now rewrite Hid. }
  split; [exact E|]. rewrite E. split.
  - intros Hnew. apply (rowsWithId_insert_new (rowOf a1) t Hnew).
  - intros Hk. assert (K1 : keyed t1) by now apply insertOrIgnore_keyed.
    split; [exact K1|]. now apply rowsWithId_keyed.
Qed.

Lemma C5_witness :
  let a1 := mkArea 7 "first" 121.5 31.25 "road 1" 4 2 0 in
  let a2 := mkArea 7 "second" 0 0 "road 2" 9 9 9 in
  let t1 := insertOrIgnore (rowOf a1) [] in
  let t2 := insertOrIgnore (rowOf a2) t1 in
  t2 = t1 /\
  (hasId (ID a1) [] = false -> rowsWithId (ID a1) t2 = [rowOf a1]) /\
  (keyed [] -> keyed t2 /\ List.length (rowsWithId (ID a1) t2) = 1%nat).
Proof.
  intros a1 a2. apply (C5_insert_or_ignore [] a1 a2). reflexivity.
Defined.

(** A response with a code other than 200 is a failed call. *)
Lemma non200_fails (ParseFloat : string -> option float) (body : option json)
    (r : ApiResponse) :
  Decode ParseFloat body = Some r -> Code r <> 200 ->
  readResponse ParseFloat (DoBody body) = Err "API decode failed or code!=200".
Proof.
  intros E H. unfold readResponse. rewrite E.
  destruct (Code r =? 200) eqn:C; [apply Z.eqb_eq in C; contradiction | reflexivity].
Qed.

(** C6.  A failed API call leaves the store as it is, does not end the
    worker, and is followed by the pacing delay.  Against a client whose
    every call fails (a client that always answers with a code other than
    200 is one, by [non200_fails]) the worker returns after N points, N
    being the whole budget when the clock does not run out; it has written
    nothing, and its trace, clock readings apart, is N times
    [fetch; failure log line; sleep Interval], then at most the closing
    line. *)
Theorem C6_failed_calls (ParseFloat : string -> option float) (fmt_f : float -> string)
    (env : Env) (center : Center) (config : Config) (w : World) :
  isInt (MaxBlocks config) -> prepareOk env = true ->
  allFail ParseFloat env ->
  exists w' steps tail,
    spiralScan ParseFloat fmt_f env center config w = Finished w' /\
    db w' = db w /\ execs w' = execs w /\
    calls w' = (calls w + List.length steps)%nat /\
    Forall (isFailedStep center config) steps /\
    effects (trace w') = effects (trace w) ++ List.concat steps ++ tail /\
    (tail = [] \/ exists n t, tail = [EvLog (LogDone (Name center) n t)]) /\
    (neverExpires env config ->
     Z.of_nat (List.length steps) = Z.max 0 (MaxBlocks config)).
Proof.
  intros HM Hp HF.
  destruct (spiralScan_visits ParseFloat fmt_f env center config w HM Hp)
    as (n & w' & E & _ & Hall & V).
  destruct (visitAll_allFail ParseFloat fmt_f env center config (spiralPath n) 0 w HF)
    as (steps & Hlen & Hsteps & EV).
  rewrite spiralPath_length in Hlen.
  assert (Etr : effects (trace w ++ List.concat steps)
                = effects (trace w) ++ List.concat steps).
  { rewrite effects_app. f_equal. exact (effects_failedSteps center config steps Hsteps). }
  destruct V as [S | [t S]]; rewrite EV in S; destruct S as [Hc He Hd Ht];
    unfold emit in *; cbn [calls execs db trace] in *.
  - exists w', steps, []. rewrite app_nil_r, Ht, Etr, Hlen.
    repeat split; auto. rewrite spiralPath_length in Hc. lia.
  - exists w', steps, [EvLog (LogDone (Name center) (Z.of_nat (List.length (spiralPath n))) t)].
    rewrite Ht, effects_snoc, Etr, Hlen. cbn [isSince]. rewrite <- app_assoc.
    repeat split; auto.
    + rewrite spiralPath_length in Hc. lia.
    + right. eauto.
Qed.

Lemma C6_witness :
  exists w' steps tail,
    spiralScan sampleParse sampleFmt (stillEnv (DoBody (Some (bodyWith "500" [])))) origin
               (sampleConfig 3) emptyWorld = Finished w' /\
    db w' = db emptyWorld /\ execs w' = execs emptyWorld /\
    calls w' = (calls emptyWorld + List.length steps)%nat /\
    Forall (isFailedStep origin (sampleConfig 3)) steps /\
    effects (trace w') = effects (trace emptyWorld) ++ List.concat steps ++ tail /\
    (tail = [] \/ exists n t, tail = [EvLog (LogDone (Name origin) n t)]) /\
    (neverExpires (stillEnv (DoBody (Some (bodyWith "500" [])))) (sampleConfig 3) ->
     Z.of_nat (List.length steps) = Z.max 0 (MaxBlocks (sampleConfig 3))).
Proof.
  apply (C6_failed_calls sampleParse sampleFmt
           (stillEnv (DoBody (Some (bodyWith "500" [])))) origin (sampleConfig 3) emptyWorld).
  - unfold isInt, minInt, maxInt; cbn; lia.
  - reflexivity.
  - intros k req. exists "API decode failed or code!=200"%string.
    apply (non200_fails sampleParse (Some (bodyWith "500" []))
             (mkApiResponse 500 (mkApiData []))); [reflexivity | discriminate].
Defined.

Section SameRecord.

Variable ParseFloat : string -> option float.
Variable fmt_f : float -> string.
Variable env : Env.
Variable center : Center.
Variable config : Config.

Local Abbreviation visit' := (visit ParseFloat fmt_f env center config).
Local Abbreviation visitAll' := (visitAll ParseFloat fmt_f env center config).

Lemma requestsOf_writes (e : nat) (areas : list Area) : requestsOf (writes env e areas) = [].
Proof.
  revert e. induction areas as [|a l IH]; intros e; [reflexivity|].
  cbn [writes]. unfold requestsOf in *. cbn [flat_map app]. apply IH.
Qed.

Lemma requestsOf_step (x y k : Z) (c e : nat) :
  requestsOf (stepEvents ParseFloat fmt_f env center config x y k c e)
  = [requestAt fmt_f center config (x, y)].
Proof.
  unfold stepEvents. destruct (readResponse _ _) as [areas | err].
  - change (EvDo ?r :: ?l) with ([EvDo r] ++ l).
    rewrite !requestsOf_app, requestsOf_writes. reflexivity.
  - reflexivity.
Qed.

(** The requests of a run of steps depend on the offsets only. *)
Lemma visitAll_requests (ps : list Point) : forall k w,
  requestsOf (trace (visitAll' ps k w))
  = requestsOf (trace w) ++ map (requestAt fmt_f center config) ps.
Proof.
  induction ps as [|[x y] ps IH]; intros k w; cbn [visitAll map fst snd].
  - now rewrite app_nil_r.
  - rewrite IH, visit_trace, requestsOf_app, requestsOf_step, <- app_assoc. reflexivity.
Qed.

Hypothesis writes_ok : forall k, execOk env k = true.
Hypothesis one_record :
  forall k req, exists a, readResponse ParseFloat (roundTrip env k req) = Ok [a] /\ ID a = 1.

Lemma visit_one_record (x y k : Z) (w : World) :
  exists a, ID a = 1 /\ db (visit' x y k w) = insertOrIgnore (rowOf a) (db w).
Proof.
  destruct (one_record (calls w)
              (newRequest fmt_f (latAt center y) (lngAt center x) config)) as (a & E & Hid).
  exists a. split; [exact Hid|].
  rewrite (visit_Ok _ _ _ _ _ _ _ _ _ _ E).
  unfold emit, execInsert. cbn [fold_left db execs]. now rewrite writes_ok.
Qed.

Lemma visitAll_keeps_row (ps : list Point) : forall k w a0,
  ID a0 = 1 -> db w = [rowOf a0] -> db (visitAll' ps k w) = [rowOf a0].
Proof.
  induction ps as [|[x y] ps IH]; intros k w a0 Hid Hdb; cbn [visitAll fst snd]; [exact Hdb|].
  apply IH; [exact Hid|].
  destruct (visit_one_record x y k w) as (a & Ha & ->).
  rewrite Hdb. unfold insertOrIgnore, hasId. cbn [existsb rowOf area_id].
  rewrite Ha, Hid. reflexivity.
Qed.

Lemma visitAll_one_row (p : Point) (ps : list Point) (k : Z) (w : World) :
  db w = [] -> exists a, ID a = 1 /\ db (visitAll' (p :: ps) k w) = [rowOf a].
Proof.
  intros Hdb. cbn [visitAll].
  destruct (visit_one_record (fst p) (snd p) k w) as (a & Ha & E).
  exists a. split; [exact Ha|].
  apply visitAll_keeps_row; [exact Ha|]. rewrite E, Hdb. reflexivity.
Qed.

End SameRecord.

Lemma url_newRequest (fmt_f : float -> string) (lat lng : float) (config : Config) :
  url (newRequest fmt_f lat lng config) =
  ("https://toc.lemobar.com/api-toc/api/area/near?current=1&size=20&longitude="
     ++ fmt_f lng ++ "&latitude=" ++ fmt_f lat ++ "&type=0")%string.
Proof. reflexivity. Qed.

#[local] Set Warnings "-inexact-float".
Lemma step_value : step = 0.03%float.
Proof. reflexivity. Qed.
#[local] Set Warnings "+inexact-float".

Lemma four_coordinates_distinct :
  NoDup [(0%float, 0%float); (step, 0%float); (step, step); (0%float, step)].
Proof.
  apply (NoDup_map_inv (fun p => (PrimFloat.is_zero (fst p), PrimFloat.is_zero (snd p)))).
  vm_compute.
  repeat constructor; cbn; intuition discriminate.
Qed.

(** C8.  A worker at center (0, 0) with step 0.03 and [MaxBlocks = 4],
    against a client that answers every call with one record of id 1,
    queries the four distinct coordinates (0, 0), (0.03, 0), (0.03, 0.03),
    (0, 0.03), longitude first - the format's first [%f] takes the
    longitude, the second the latitude - and a table that was empty ends
    with exactly one row, of id 1. *)
Theorem C8_four_points (ParseFloat : string -> option float) (fmt_f : float -> string)
    (env : Env) (center : Center) (config : Config) (w : World) :
  Lat center = 0%float -> Lng center = 0%float ->
  MaxBlocks config = 4 ->
  prepareOk env = true -> neverExpires env config ->
  (forall k, execOk env k = true) ->
  (forall k req, exists a, readResponse ParseFloat (roundTrip env k req) = Ok [a] /\ ID a = 1) ->
  db w = [] ->
  exists w' a,
    spiralScan ParseFloat fmt_f env center config w = Finished w' /\
    requestsOf (trace w') =
      requestsOf (trace w) ++
      map (fun c => newRequest fmt_f (snd c) (fst c) config)
          [(0%float, 0%float); (step, 0%float); (step, step); (0%float, step)] /\
    NoDup [(0%float, 0%float); (step, 0%float); (step, step); (0%float, step)] /\
    (forall lat lng,
        url (newRequest fmt_f lat lng config) =
        ("https://toc.lemobar.com/api-toc/api/area/near?current=1&size=20&longitude="
           ++ fmt_f lng ++ "&latitude=" ++ fmt_f lat ++ "&type=0")%string) /\
    ID a = 1 /\ db w' = [rowOf a] /\ List.length (db w') = 1%nat.
Proof.
  intros HLat HLng HM Hp Hclock Hexec Hone Hdb.
  assert (HMi : isInt (MaxBlocks config)) by (rewrite HM; unfold isInt, minInt, maxInt; lia).
  destruct (spiralScan_visits ParseFloat fmt_f env center config w HMi Hp)
    as (n & w' & E & _ & Hall & V).
  specialize (Hall Hclock). rewrite HM in Hall.
  assert (n = 4%nat) by lia. subst n.
  change (spiralPath 4) with [(0, 0); (1, 0); (1, 1); (0, 1)] in V.
  destruct (visitAll_one_row ParseFloat fmt_f env center config Hexec Hone
              (0, 0) [(1, 0); (1, 1); (0, 1)] 0 w Hdb) as (a & Ha & Da).
  pose proof (visitAll_requests ParseFloat fmt_f env center config
                [(0, 0); (1, 0); (1, 1); (0, 1)] 0 w) as Rq.
  assert (Ereq : map (requestAt fmt_f center config) [(0, 0); (1, 0); (1, 1); (0, 1)] =
                 map (fun c => newRequest fmt_f (snd c) (fst c) config)
                     [(0%float, 0%float); (step, 0%float); (step, step); (0%float, step)]).
  { unfold requestAt, latAt, lngAt. cbn [map fst snd]. rewrite HLat, HLng. reflexivity. }
  rewrite Ereq in Rq.
  exists w', a. split; [exact E|].
  assert (Hreq : requestsOf (trace w') =
                 requestsOf (trace (visitAll ParseFloat fmt_f env center config
                                             [(0, 0); (1, 0); (1, 1); (0, 1)] 0 w))).
  { destruct V as [S | [t S]]; destruct S as [_ _ _ Ht];
      rewrite <- (requestsOf_effects (trace w')), Ht, requestsOf_effects;
      [reflexivity|].
    unfold emit. cbn [trace]. rewrite requestsOf_app. cbn. now rewrite app_nil_r. }
  assert (Hdb' : db w' = [rowOf a]).
  { destruct V as [S | [t S]]; destruct S as [_ _ Hd _]; rewrite Hd;
      unfold emit; cbn [db]; exact Da. }
  split; [now rewrite Hreq|]. split; [exact four_coordinates_distinct|].
  split; [intros; apply url_newRequest|].
  split; [exact Ha|]. split; [exact Hdb'|]. now rewrite Hdb'.
Qed.

Lemma C8_witness :
  exists w' a,
    spiralScan sampleParse sampleFmt (stillEnv (DoBody (Some (bodyWith "200" [oneRecord]))))
               origin (sampleConfig 4) emptyWorld = Finished w' /\
    requestsOf (trace w') =
      requestsOf (trace emptyWorld) ++
      map (fun c => newRequest sampleFmt (snd c) (fst c) (sampleConfig 4))
          [(0%float, 0%float); (step, 0%float); (step, step); (0%float, step)] /\
    NoDup [(0%float, 0%float); (step, 0%float); (step, step); (0%float, step)] /\
    (forall lat lng,
        url (newRequest sampleFmt lat lng (sampleConfig 4)) =
        ("https://toc.lemobar.com/api-toc/api/area/near?current=1&size=20&longitude="
           ++ sampleFmt lng ++ "&latitude=" ++ sampleFmt lat ++ "&type=0")%string) /\
    ID a = 1 /\ db w' = [rowOf a] /\ List.length (db w') = 1%nat.
Proof.
  apply (C8_four_points sampleParse sampleFmt
           (stillEnv (DoBody (Some (bodyWith "200" [oneRecord]))))
           origin (sampleConfig 4) emptyWorld);
    try reflexivity.
  - intros k. cbn. lia.
  - intros k req. exists sampleArea. split; [vm_compute; reflexivity | reflexivity].
Defined.

(** C4, as stated, fails: the request succeeded, the body is a JSON value,
    its code is 200, and the call is a failure all the same. *)
Lemma C4_counterexample :
  let resp := DoBody (Some bareLatitudeBody) in
  readResponse sampleParse resp = Err "API decode failed or code!=200" /\
  decodedCode bareLatitudeBody = 200 /\
  ~ ((exists err, readResponse sampleParse resp = Err err) <->
     ((exists err, resp = DoError err) \/
      resp = DoBody None \/
      (exists v, resp = DoBody (Some v) /\ decodedCode v <> 200))).
Proof.
  cbv zeta. split; [reflexivity|]. split; [reflexivity|].
  intros [H _].
  destruct H as [[err H] | [H | (v & H & Hc)]].
  - now exists "API decode failed or code!=200"%string.
  - discriminate.
  - discriminate.
  - injection H as <-. apply Hc. reflexivity.
Qed.

(** C4, amended.  [fetchAreas] makes one call and returns what
    [readResponse] makes of its outcome.  That is a failure if and only if
    the request failed or decoding the body into [ApiResponse] returned an
    error - the body is no JSON value, or a member has the wrong JSON type
    for its field - or the decoded code is not 200; otherwise it is the
    decoded [data.records]. *)
Theorem C4_fetch_failure (ParseFloat : string -> option float) (fmt_f : float -> string)
    (env : Env) (lat lng : float) (config : Config) (w : World) :
  let resp := roundTrip env (calls w) (newRequest fmt_f lat lng config) in
  fst (fetchAreas ParseFloat fmt_f env lat lng config w) = readResponse ParseFloat resp /\
  ((exists err, readResponse ParseFloat resp = Err err) <->
   ((exists err, resp = DoError err) \/
    (exists body, resp = DoBody body /\
                  (Decode ParseFloat body = None \/
                   exists r, Decode ParseFloat body = Some r /\ Code r <> 200)))) /\
  (forall areas,
      readResponse ParseFloat resp = Ok areas <->
      exists body r, resp = DoBody body /\ Decode ParseFloat body = Some r /\
                     Code r = 200 /\ areas = Records (Data r)) /\
  Decode ParseFloat None = None.
Proof.
  cbv zeta. split; [reflexivity|].
  generalize (roundTrip env (calls w) (newRequest fmt_f lat lng config)). intros resp.
  split; [|split; [|reflexivity]].
  - unfold readResponse. destruct resp as [err | body].
    + split; [intros _; left; now exists err | intros _; now exists err].
    + destruct (Decode ParseFloat body) as [r|] eqn:D.
      * destruct (Code r =? 200) eqn:C.
        -- apply Z.eqb_eq in C. split.
           ++ intros [err H]. discriminate.
           ++ intros [[err H] | (b & [= <-] & [H | (r' & H & Hc)])];
                [discriminate | congruence | congruence].
        -- apply Z.eqb_neq in C. split.
           ++ intros _. right. exists body. split; [reflexivity|]. right. now exists r.
           ++ intros _. eauto.
      * split.
        -- intros _. right. exists body. split; [reflexivity|]. now left.
        -- intros _. eauto.
  - intros areas. unfold readResponse. destruct resp as [err | body].
    + split; [discriminate | intros (b & r & H & _); discriminate].
    + destruct (Decode ParseFloat body) as [r|] eqn:D.
      * destruct (Code r =? 200) eqn:C.
        -- apply Z.eqb_eq in C. split.
           ++ intros [= <-]. now exists body, r.
           ++ intros (b & r' & [= <-] & H & _ & ->). congruence.
        -- apply Z.eqb_neq in C. split; [discriminate|].
           intros (b & r' & [= <-] & H & Hc & _). congruence.
      * split; [discriminate|]. intros (b & r' & [= <-] & H & _). congruence.
Qed.

(** A response with code 200 and no records is a success with no records. *)
Example empty_records :
  readResponse sampleParse (DoBody (Some (bodyWith "200" []))) = Ok [].
Proof. reflexivity. Qed.

(** C10.  [latitude] and [longitude] must be JSON strings.  A body in which
    a record of [data.records] has an unquoted number under either key is
    not decoded, whatever else it holds, and the call is a failed step: an
    error is logged, nothing is written, the worker sleeps and goes on. *)
Theorem C10_bare_coordinate (ParseFloat : string -> option float) (fmt_f : float -> string)
    (env : Env) (center : Center) (config : Config) (v : json) (x y k : Z) (w : World) :
  hasBareCoordinate v ->
  Decode ParseFloat (Some v) = None /\
  readResponse ParseFloat (DoBody (Some v)) = Err "API decode failed or code!=200" /\
  (roundTrip env (calls w) (requestAt fmt_f center config (x, y)) = DoBody (Some v) ->
   visit ParseFloat fmt_f env center config x y k w =
   mkWorld (reads w) (S (calls w)) (execs w) (db w)
           (trace w ++
            failedStep center config (requestAt fmt_f center config (x, y)) k
                       (latAt center y) (lngAt center x)
                       "API decode failed or code!=200")).
Proof.
  intros H. pose proof (Decode_bare ParseFloat v H) as D.
  assert (R : readResponse ParseFloat (DoBody (Some v)) = Err "API decode failed or code!=200").
  { unfold readResponse. now rewrite D. }
  split; [exact D|]. split; [exact R|].
  intros Hrt. apply visit_Err. unfold requestAt in Hrt. cbn [fst snd] in Hrt.
  now rewrite Hrt.
Qed.

Lemma bareLatitudeBody_bare : hasBareCoordinate bareLatitudeBody.
Proof.
  unfold hasBareCoordinate, bareLatitudeBody, bodyWith.
  eexists _, "data"%string, _, "records"%string, _, _.
  split; [reflexivity|].
  split; [right; left; reflexivity|]. split; [reflexivity|].
  split; [left; reflexivity|]. split; [reflexivity|].
  split; [left; reflexivity|].
  eexists _, "latitude"%string, "31.2304"%string.
  split; [reflexivity|]. split; [|left; reflexivity].
  right; right; right; left. reflexivity.
Defined.

Lemma C10_witness :
  Decode sampleParse (Some bareLatitudeBody) = None /\
  readResponse sampleParse (DoBody (Some bareLatitudeBody))
    = Err "API decode failed or code!=200" /\
  (roundTrip (stillEnv (DoBody (Some bareLatitudeBody))) (calls emptyWorld)
             (requestAt sampleFmt origin (sampleConfig 4) (0, 0))
     = DoBody (Some bareLatitudeBody) ->
   visit sampleParse sampleFmt (stillEnv (DoBody (Some bareLatitudeBody))) origin
         (sampleConfig 4) 0 0 0 emptyWorld =
   mkWorld (reads emptyWorld) (S (calls emptyWorld)) (execs emptyWorld) (db emptyWorld)
           (trace emptyWorld ++
            failedStep origin (sampleConfig 4)
                       (requestAt sampleFmt origin (sampleConfig 4) (0, 0)) 0
                       (latAt origin 0) (lngAt origin 0)
                       "API decode failed or code!=200")).
Proof.
  apply (C10_bare_coordinate sampleParse sampleFmt
           (stillEnv (DoBody (Some bareLatitudeBody))) origin (sampleConfig 4)
           bareLatitudeBody 0 0 0 emptyWorld).
  exact bareLatitudeBody_bare.
Defined.

Lemma launched_app (a b : list Action) : launched (a ++ b) = launched a ++ launched b.
Proof. apply flat_map_app. Qed.

Lemma launched_go (cs : list Center) : launched (map GoSpiralScan cs) = cs.
Proof.
  induction cs as [|c cs IH]; [reflexivity|].
  cbn [map]. unfold launched in *. cbn [flat_map app]. now rewrite IH.
Qed.

(** What [startDataCollection] launches: every center or none. *)
Lemma startDataCollection_launched (cfg : Config) (openOk : bool) (input : Stdin) :
  launched (fst (startDataCollection cfg openOk input)) =
  if String.eqb (Authorization cfg) "" then []
  else if negb (saysYes (fst (readInput input))) then []
  else if negb openOk then []
  else centers.
Proof.
  unfold startDataCollection.
  destruct (String.eqb (Authorization cfg) ""); [reflexivity|].
  destruct (readInput input) as [confirm input1]. cbn [fst].
  destruct (saysYes confirm); cbn [negb]; [|reflexivity].
  destruct openOk; cbn [negb]; [|reflexivity].
  destruct (readInput input1) as [choice input2]. cbn [fst].
  rewrite !launched_app, launched_go.
  destruct (saysNo choice); reflexivity.
Qed.

(** C7, as stated, fails: with a credential set, an answer other than "y" or
    "yes" to the confirmation, or a database that cannot be opened, keeps
    the scan from starting as well. *)
Lemma C7_counterexample :
  Authorization (sampleConfig 5000) <> ""%string /\
  launched (fst (startDataCollection (sampleConfig 5000) true ["n"%string])) = [] /\
  launched (fst (startDataCollection (sampleConfig 5000) false ["y"%string])) = [] /\
  ~ (forall cfg openOk input,
        Authorization cfg <> ""%string ->
        launched (fst (startDataCollection cfg openOk input)) <> []).
Proof.
  split; [discriminate|]. split; [reflexivity|]. split; [reflexivity|].
  intros H.
  apply (H (sampleConfig 5000) true ["n"%string]); [discriminate | reflexivity].
Qed.

(** C7, amended.  With an empty [Authorization], [startDataCollection] says
    so and returns: it reads no input, launches no worker and does not touch
    the store.  Otherwise it launches a worker for each of the 24 centers if
    and only if the confirmation is answered "y" or "yes" (in any case) and
    the database opens; if not, it launches none. *)
Theorem C7_missing_credential (cfg : Config) (openOk : bool) (input : Stdin) :
  let run := startDataCollection cfg openOk input in
  (Authorization cfg = ""%string ->
   run = ([Say MissingAuthorization], input) /\
   launched (fst run) = [] /\ touchesStore (fst run) = false) /\
  (launched (fst run) = centers <->
   Authorization cfg <> ""%string /\
   saysYes (fst (readInput input)) = true /\ openOk = true) /\
  (launched (fst run) = [] <->
   Authorization cfg = ""%string \/
   saysYes (fst (readInput input)) = false \/ openOk = false) /\
  List.length centers = 24%nat.
Proof.
  cbv zeta. split; [|split; [|split; [|reflexivity]]].
  - intros H. unfold startDataCollection. rewrite H. cbn. now repeat split.
  - rewrite startDataCollection_launched.
    destruct (String.eqb (Authorization cfg) "") eqn:A.
    + apply String.eqb_eq in A. split; [discriminate | intros (H & _); contradiction].
    + apply String.eqb_neq in A.
      destruct (saysYes (fst (readInput input))); cbn [negb].
      * destruct openOk; cbn [negb].
        -- split; [now intros _ | reflexivity].
        -- split; [discriminate | intros (_ & _ & H); discriminate].
      * split; [discriminate | intros (_ & H & _); discriminate].
  - rewrite startDataCollection_launched.
    destruct (String.eqb (Authorization cfg) "") eqn:A.
    + apply String.eqb_eq in A. split; [now left | reflexivity].
    + apply String.eqb_neq in A.
      destruct (saysYes (fst (readInput input))); cbn [negb].
      * destruct openOk; cbn [negb].
        -- split; [discriminate | intros [H | [H | H]]; [contradiction | discriminate | discriminate]].
        -- split; [intros _; now right; right | reflexivity].
      * split; [intros _; right; now left | reflexivity].
Qed.

(** C9, as stated, fails: a write that fails is not logged.  One point is
    scanned, the fetch returns one record, and its write fails: the record
    is not stored, and the log is line for line the log of the run in which
    the write succeeds. *)
Lemma C9_counterexample :
  let resp := DoBody (Some (bodyWith "200" [oneRecord])) in
  exists w1 w2 row,
    spiralScan sampleParse sampleFmt (sampleEnv resp false) origin (sampleConfig 1) emptyWorld
      = Finished w1 /\
    spiralScan sampleParse sampleFmt (sampleEnv resp true) origin (sampleConfig 1) emptyWorld
      = Finished w2 /\
    In (EvExec row false) (trace w1) /\
    db w1 = [] /\ db w2 = [row] /\
    logLines (trace w1) = logLines (trace w2) /\
    logLines (trace w1) = [LogPoint "origin" 0 0 0 1].
Proof.
  cbv zeta. eexists. eexists. eexists.
  split; [vm_compute; reflexivity|].
  split; [vm_compute; reflexivity|].
  split; [cbn [trace In]; right; right; right; left; reflexivity|].
  split; [reflexivity|]. split; [reflexivity|]. split; reflexivity.
Qed.

(** C9, amended.  The result of [insertStmt.Exec] is discarded.  A write
    that fails leaves the table as it is and nothing but the failed [Exec]
    in the trace: it is not logged.  It does not end the worker either:
    two runs that differ only in which writes fail both return, having made
    the same calls and written the same log lines - the same events, the
    outcome of each write apart. *)
Theorem C9_write_failure (ParseFloat : string -> option float) (fmt_f : float -> string)
    (env1 env2 : Env) (center : Center) (config : Config) (w : World) :
  isInt (MaxBlocks config) ->
  (forall k, since env1 k = since env2 k) ->
  (forall k req, roundTrip env1 k req = roundTrip env2 k req) ->
  prepareOk env1 = prepareOk env2 ->
  (forall u a,
      execOk env1 (execs u) = false ->
      execInsert env1 u a =
      mkWorld (reads u) (calls u) (S (execs u)) (db u)
              (trace u ++ [EvExec (rowOf a) false])) /\
  exists w1 w2,
    spiralScan ParseFloat fmt_f env1 center config w = Finished w1 /\
    spiralScan ParseFloat fmt_f env2 center config w = Finished w2 /\
    calls w1 = calls w2 /\ execs w1 = execs w2 /\
    logLines (trace w1) = logLines (trace w2) /\
    map forgetOk (trace w1) = map forgetOk (trace w2).
Proof.
  intros HM Hclock Hapi Hprep. split.
  - intros u a H. unfold execInsert. now rewrite H.
  - destruct (spiralScan_finishes ParseFloat fmt_f env1 center config w HM) as [w1 E1].
    destruct (spiralScan_finishes ParseFloat fmt_f env2 center config w HM) as [w2 E2].
    pose proof (spiralScan_alike ParseFloat fmt_f env1 env2 center config
                  Hclock Hapi Hprep w) as A.
    rewrite E1, E2 in A. destruct A as (_ & Hc & He & Ht).
    exists w1, w2. repeat split; try assumption.
    rewrite <- (logLines_forget (trace w1)), <- (logLines_forget (trace w2)).
    now rewrite Ht.
Qed.

Lemma C9_witness :
  (forall u a,
      execOk (sampleEnv (DoBody (Some (bodyWith "200" [oneRecord]))) false) (execs u) = false ->
      execInsert (sampleEnv (DoBody (Some (bodyWith "200" [oneRecord]))) false) u a =
      mkWorld (reads u) (calls u) (S (execs u)) (db u)
              (trace u ++ [EvExec (rowOf a) false])) /\
  exists w1 w2,
    spiralScan sampleParse sampleFmt
               (sampleEnv (DoBody (Some (bodyWith "200" [oneRecord]))) false)
               origin (sampleConfig 3) emptyWorld = Finished w1 /\
    spiralScan sampleParse sampleFmt
               (sampleEnv (DoBody (Some (bodyWith "200" [oneRecord]))) true)
               origin (sampleConfig 3) emptyWorld = Finished w2 /\
    calls w1 = calls w2 /\ execs w1 = execs w2 /\
    logLines (trace w1) = logLines (trace w2) /\
    map forgetOk (trace w1) = map forgetOk (trace w2).
Proof.
  apply (C9_write_failure sampleParse sampleFmt
           (sampleEnv (DoBody (Some (bodyWith "200" [oneRecord]))) false)
           (sampleEnv (DoBody (Some (bodyWith "200" [oneRecord]))) true)
           origin (sampleConfig 3) emptyWorld);
    [unfold isInt, minInt, maxInt; cbn; lia | reflexivity | reflexivity | reflexivity].
Defined.

(* ================================================================= *)
(** * The rest of the program: lemmas *)

(** ** Integers in decimal *)

Lemma digitChar_digit (d : Z) : 0 <= d < 10 ->
  isDigit (digitChar d) = true /\ digitVal (digitChar d) = d.
Proof.
  intros H.
  assert (E : d = 0 \/ d = 1 \/ d = 2 \/ d = 3 \/ d = 4 \/ d = 5 \/ d = 6 \/ d = 7 \/
              d = 8 \/ d = 9) by lia.
  repeat destruct E as [-> | E]; try subst d; split; reflexivity.
Qed.

(** Reading the digits of [n] after [a] appends them to [a]. *)
Lemma parseDigits_digits (fuel : nat) : forall n acc,
  0 <= n < 10 ^ Z.of_nat fuel ->
  exists k, 0 < k /\ forall a,
    parseDigits (digits fuel n acc) a = parseDigits acc (a * k + n).
Proof.
  induction fuel as [|fuel IH]; intros n acc Hn.
  - cbn in Hn. exists 1. split; [lia|]. intros a. cbn [digits]. f_equal. lia.
  - cbn [digits].
    assert (Hd : 0 <= n mod 10 < 10) by (apply Z.mod_pos_bound; lia).
    destruct (digitChar_digit _ Hd) as [D V].
    destruct (n <? 10) eqn:E.
    + apply Z.ltb_lt in E. exists 10. split; [lia|]. intros a.
      cbn [parseDigits]. rewrite D, V. rewrite Z.mod_small by lia.
      f_equal. lia.
    + apply Z.ltb_ge in E.
      destruct (IH (n / 10) (String (digitChar (n mod 10)) acc)) as (k & Hk & P).
      { split; [apply Z.div_pos; lia|].
        apply Z.div_lt_upper_bound; [lia|].
        rewrite Nat2Z.inj_succ, Z.pow_succ_r in Hn by lia. lia. }
      exists (10 * k). split; [lia|]. intros a. rewrite P.
      cbn [parseDigits]. rewrite D, V. f_equal.
      pose proof (Z.div_mod n 10 ltac:(lia)). lia.
Qed.

Lemma digits_head (fuel : nat) : forall n acc, 0 <= n ->
  exists c s, digits (S fuel) n acc = String c s /\ isDigit c = true.
Proof.
  induction fuel as [|fuel IH]; intros n acc Hn.
  - cbn [digits].
    assert (Hd : 0 <= n mod 10 < 10) by (apply Z.mod_pos_bound; lia).
    destruct (digitChar_digit _ Hd) as [D _].
    destruct (n <? 10); eexists; eexists; split; try reflexivity; exact D.
  - change (digits (S (S fuel)) n acc) with
      (if n <? 10 then String (digitChar (n mod 10)) acc
       else digits (S fuel) (n / 10) (String (digitChar (n mod 10)) acc)).
    destruct (n <? 10) eqn:E.
    + assert (Hd : 0 <= n mod 10 < 10) by (apply Z.mod_pos_bound; lia).
      destruct (digitChar_digit _ Hd) as [D _].
      eexists; eexists; split; [reflexivity | exact D].
    + apply IH. apply Z.div_pos; lia.
Qed.

Lemma ParseInt_digits (s : string) (c : ascii) (n : Z) :
  isDigit c = true -> parseDigits (String c s) 0 = Some n -> isInt n ->
  ParseInt (String c s) = Some n.
Proof.
  intros D P [H1 H2]. unfold ParseInt.
  assert (E1 : Ascii.eqb c "-" = false).
  { destruct (Ascii.eqb c "-") eqn:E; [|reflexivity].
    apply Ascii.eqb_eq in E. subst c. discriminate D. }
  assert (E2 : Ascii.eqb c "+" = false).
  { destruct (Ascii.eqb c "+") eqn:E; [|reflexivity].
    apply Ascii.eqb_eq in E. subst c. discriminate D. }
  rewrite E1, E2. cbn [orb]. rewrite P.
  apply Z.leb_le in H1, H2. now rewrite H1, H2.
Qed.

(** What [Itoa] writes, [ParseInt] reads back. *)
Lemma ParseInt_Itoa (n : Z) : isInt n -> ParseInt (Itoa n) = Some n.
Proof.
  intros Hn. pose proof Hn as [H1 H2]. unfold minInt, maxInt in H1, H2. unfold Itoa.
  destruct (n <? 0) eqn:E.
  - apply Z.ltb_lt in E.
    destruct (parseDigits_digits 19 (- n) "") as (k & Hk & P); [cbn; lia|].
    destruct (digits_head 18 (- n) "" ltac:(lia)) as (c & s & Es & D).
    unfold ParseInt.
    change (Ascii.eqb "-" "-") with true. cbv iota beta zeta. cbn [orb].
    rewrite Es. rewrite <- Es. rewrite P. cbn [parseDigits].
    replace (0 * k + - n) with (- n) by lia. rewrite Z.opp_involutive.
    destruct Hn as [G1 G2]. apply Z.leb_le in G1, G2. now rewrite G1, G2.
  - apply Z.ltb_ge in E.
    destruct (parseDigits_digits 19 n "") as (k & Hk & P); [cbn; lia|].
    destruct (digits_head 18 n "" ltac:(lia)) as (c & s & Es & D).
    rewrite Es. apply ParseInt_digits; [exact D | | exact Hn].
    rewrite <- Es, P. cbn [parseDigits]. f_equal; lia.
Qed.

Lemma ParseInt_isInt (s : string) (n : Z) : ParseInt s = Some n -> isInt n.
Proof.
  unfold ParseInt. destruct s as [|c s']; [discriminate|].
  destruct (if Ascii.eqb c "-" || Ascii.eqb c "+" then s' else String c s'); [discriminate|].
  destruct (parseDigits _ 0) as [m|]; [|discriminate].
  destruct ((minInt <=? _) && (_ <=? maxInt)) eqn:R; [|discriminate].
  intros [= <-]. apply andb_true_iff in R. destruct R as [R1 R2].
  apply Z.leb_le in R1, R2. split; assumption.
Qed.

(** ** The configuration file *)

(** What every field keeps, decoding keeps. *)
Lemma decodeStruct_keeps {A : Type} (field : string -> json -> A -> option A)
    (P : A -> Prop) :
  (forall k v a a', P a -> field k v a = Some a' -> P a') ->
  forall v old a, P old -> decodeStruct field v old = Some a -> P a.
Proof.
  intros Hf v old a Ho. unfold decodeStruct.
  destruct v as [| | | | |ms]; try discriminate; [now intros [= <-]|].
  assert (G : forall acc, (forall b, acc = Some b -> P b) ->
              fold_left (fun acc kv => match acc with
                                       | Some a => field (fst kv) (snd kv) a
                                       | None => None
                                       end) ms acc = Some a -> P a).
  { induction ms as [|m ms IH]; intros acc Hacc; cbn [fold_left].
    - intros E. now apply Hacc.
    - apply IH. intros b Eb. destruct acc as [a0|]; [|discriminate].
      eapply Hf; [|exact Eb]. now apply Hacc. }
  apply G. now intros b [= <-].
Qed.

Lemma decodeInt_isInt (v : json) (old n : Z) :
  isInt old -> decodeInt v old = Some n -> isInt n.
Proof.
  intros Ho. destruct v; cbn [decodeInt]; try discriminate.
  - now intros [= <-].
  - apply ParseInt_isInt.
Qed.

Lemma configField_intsOk (k : string) (v : json) (c c' : Config) :
  intsOk c -> configField k v c = Some c' -> intsOk c'.
Proof.
  intros (Hi & Hd & Hm). unfold configField.
  repeat match goal with
         | |- (if ?b then _ else _) = _ -> _ => destruct b
         end;
    try match goal with
        | |- option_map _ ?d = _ -> _ => destruct d as [n|] eqn:E; [|discriminate]
        end;
    cbn [option_map]; intros [= <-]; unfold intsOk;
    cbn [withAuthorization withInterval withDuration withExport withMaxBlocks
         withOutputDB withOutputExcel Interval Duration MaxBlocks];
    (split; [|split]); try assumption;
    try (eapply decodeInt_isInt; [|exact E]; assumption).
Qed.

Lemma Unmarshal_intsOk (data : option json) (c : Config) :
  Unmarshal data = Some c -> intsOk c.
Proof.
  unfold Unmarshal. destruct data as [v|]; [|discriminate].
  apply (decodeStruct_keeps configField intsOk configField_intsOk).
  unfold intsOk, isInt, minInt, maxInt. cbn. lia.
Qed.

Lemma defaultConfig_Usable : Usable defaultConfig.
Proof.
  unfold Usable, Sane, maxInt. cbn.
  repeat split; try lia; discriminate.
Qed.

Ltac config_simpl :=
  cbn [withAuthorization withInterval withDuration withExport withMaxBlocks
       withOutputDB withOutputExcel
       Authorization Interval Duration Export MaxBlocks OutputDB OutputExcel] in *.

Lemma orDefaults_Usable (c : Config) : intsOk c -> Usable (orDefaults c).
Proof.
  intros ([_ Hi] & [_ Hd] & [_ Hm]). unfold orDefaults, Usable, Sane.
  cbv zeta.
  set (c1 := if Interval c <=? 0 then _ else c).
  assert (P1 : 0 < Interval c1 <= maxInt /\ Duration c1 = Duration c /\
               MaxBlocks c1 = MaxBlocks c).
  { subst c1. destruct (Interval c <=? 0) eqn:E; config_simpl.
    - unfold maxInt. cbn. lia.
    - apply Z.leb_gt in E. lia. }
  clearbody c1. destruct P1 as (I1 & D1 & M1).
  set (c2 := if Duration c1 <=? 0 then _ else c1).
  assert (P2 : 0 < Interval c2 <= maxInt /\ 0 < Duration c2 <= maxInt /\
               MaxBlocks c2 = MaxBlocks c).
  { subst c2. destruct (Duration c1 <=? 0) eqn:E; config_simpl.
    - unfold maxInt in *. cbn. lia.
    - apply Z.leb_gt in E. lia. }
  clearbody c2. destruct P2 as (I2 & D2 & M2).
  set (c3 := if MaxBlocks c2 <=? 0 then _ else c2).
  assert (P3 : 0 < Interval c3 <= maxInt /\ 0 < Duration c3 <= maxInt /\
               0 < MaxBlocks c3 <= maxInt).
  { subst c3. destruct (MaxBlocks c2 <=? 0) eqn:E; config_simpl.
    - unfold maxInt in *. cbn. lia.
    - apply Z.leb_gt in E. lia. }
  clearbody c3. destruct P3 as (I3 & D3 & M3).
  set (c4 := if String.eqb (OutputDB c3) "" then _ else c3).
  assert (P4 : 0 < Interval c4 <= maxInt /\ 0 < Duration c4 <= maxInt /\
               0 < MaxBlocks c4 <= maxInt /\ OutputDB c4 <> "").
  { subst c4. destruct (String.eqb (OutputDB c3) "") eqn:E; config_simpl.
    - repeat split; try tauto. discriminate.
    - apply String.eqb_neq in E. tauto. }
  clearbody c4. destruct P4 as (I4 & D4 & M4 & O4).
  destruct (String.eqb (OutputExcel c4) "") eqn:E; config_simpl.
  - repeat split; try tauto. discriminate.
  - apply String.eqb_neq in E. tauto.
Qed.

Lemma orDefaults_id (c : Config) : Usable c -> orDefaults c = c.
Proof.
  intros ([Hi _] & [Hd _] & [Hm _] & Ho & He). unfold orDefaults.
  apply Z.leb_gt in Hi, Hd, Hm. apply String.eqb_neq in Ho, He.
  rewrite Hi, Hd, Hm, Ho, He. reflexivity.
Qed.

Lemma keyIs_name (name key : string) :
  keyIs name key = true -> foldName key = foldName name.
Proof. unfold keyIs. intros H. apply String.eqb_eq in H. now symmetry. Qed.

(** The folded names and the comparisons of literal keys, computed. *)
Ltac names :=
  repeat match goal with
         | |- context [foldName (String ?a ?r)] =>
             let v := eval vm_compute in (foldName (String a r)) in
             change (foldName (String a r)) with v
         end;
  repeat match goal with
         | |- context [String.eqb (String ?a ?r) (String ?b ?t)] =>
             let v := eval vm_compute in (String.eqb (String a r) (String b t)) in
             change (String.eqb (String a r) (String b t)) with v
         end;
  cbv iota.

Lemma decodeInt_old (v : json) (old : Z) : notAnInt v -> decodeInt v old = None.
Proof. unfold notAnInt. destruct v; cbn [decodeInt]; congruence. Qed.

Lemma configField_notAnInt (key : string) (v : json) (c : Config) :
  keyIs "interval" key = true \/ keyIs "duration" key = true \/
  keyIs "maxBlocks" key = true ->
  notAnInt v -> configField key v c = None.
Proof.
  intros H Hv. unfold configField, keyIs.
  destruct H as [H | [H | H]]; apply keyIs_name in H; rewrite H;
    names; rewrite (decodeInt_old _ _ Hv); reflexivity.
Qed.

Lemma configField_string (c : Config) (v : string) :
  configField "authorization" (JString v) c = Some (withAuthorization v c) /\
  configField "outputDB" (JString v) c = Some (withOutputDB v c) /\
  configField "outputExcel" (JString v) c = Some (withOutputExcel v c).
Proof. unfold configField, keyIs. names. repeat split. Qed.

Lemma configField_int (c : Config) (n : Z) :
  isInt n ->
  configField "interval" (JNumber (Itoa n)) c = Some (withInterval n c) /\
  configField "duration" (JNumber (Itoa n)) c = Some (withDuration n c) /\
  configField "maxBlocks" (JNumber (Itoa n)) c = Some (withMaxBlocks n c).
Proof.
  intros Hn. unfold configField, keyIs. names. cbn [decodeInt].
  rewrite (ParseInt_Itoa _ Hn). repeat split.
Qed.

Lemma configField_bool (c : Config) (b : bool) :
  configField "export" (JBool b) c = Some (withExport b c).
Proof. unfold configField, keyIs. names. reflexivity. Qed.

Lemma Unmarshal_MarshalIndent (c : Config) :
  intsOk c -> Unmarshal (Some (MarshalIndent c)) = Some (stored c).
Proof.
  intros (Hi & Hd & Hm).
  unfold Unmarshal, MarshalIndent, decodeStruct. cbn [fold_left fst snd].
  rewrite (proj1 (configField_string _ _)).
  rewrite (proj1 (configField_int _ _ Hi)).
  rewrite (proj1 (proj2 (configField_int _ _ Hd))).
  rewrite configField_bool.
  rewrite (proj2 (proj2 (configField_int _ _ Hm))).
  rewrite (proj1 (proj2 (configField_string _ _))).
  rewrite (proj2 (proj2 (configField_string _ _))).
  reflexivity.
Qed.

Lemma stored_id (c : Config) : validStrings c -> stored c = c.
Proof.
  intros (Ha & Ho & He). unfold stored, validUTF8 in *.
  rewrite Ha, Ho, He. now destruct c.
Qed.
Lemma loadConfig_Usable (file : ConfigFile) : Usable (fst (loadConfig file)).
Proof.
  destruct file as [|err|data]; cbn [loadConfig fst]; try apply defaultConfig_Usable.
  destruct (Unmarshal data) eqn:E; cbn [fst]; [|apply defaultConfig_Usable].
  apply orDefaults_Usable. eapply Unmarshal_intsOk; eauto.
Qed.

(** ** Reading the input *)

Lemma readInput_rest (input : Stdin) :
  (List.length (snd (readInput input)) <= List.length input)%nat /\
  incl (snd (readInput input)) input.
Proof.
  induction input as [|l rest [IH1 IH2]]; cbn [readInput].
  - split; [apply le_n | apply incl_refl].
  - destruct (String.eqb l ""); cbn [snd List.length].
    + split; [lia | now apply incl_tl].
    + split; [lia | apply incl_tl, incl_refl].
Qed.

Lemma readInput_shorter (input : Stdin) :
  input <> [] -> (List.length (snd (readInput input)) < List.length input)%nat.
Proof.
  destruct input as [|l rest]; [congruence|]. intros _. cbn [readInput].
  destruct (String.eqb l ""); cbn [snd List.length];
    [pose proof (proj1 (readInput_rest rest)) | ]; lia.
Qed.

(** The line read is one of the input, or empty at the end of the input. *)
Lemma readInput_line (input : Stdin) :
  (fst (readInput input) = "" /\ snd (readInput input) = []) \/
  (fst (readInput input) <> "" /\ In (fst (readInput input)) input).
Proof.
  induction input as [|l rest IH]; cbn [readInput].
  - left. split; reflexivity.
  - destruct (String.eqb l "") eqn:E; cbn [fst snd].
    + destruct IH as [IH | [IH1 IH2]]; [left; exact IH | right].
      split; [exact IH1 | now right].
    + right. apply String.eqb_neq in E. split; [exact E | now left].
Qed.

Lemma readInput_cons (l : string) (rest : Stdin) :
  l <> "" -> readInput (l :: rest) = (l, rest).
Proof. intros H. cbn [readInput]. apply String.eqb_neq in H. now rewrite H. Qed.

(** ** The configuration menu *)

Ltac session_simpl :=
  cbn [say setConfig showCurrentConfig globalConfig stdin configFile saves collections
       printed fst snd] in *.

Lemma input_eq (s : Session) :
  input s =
  (fst (readInput (stdin s)),
   mkSession (globalConfig s) (snd (readInput (stdin s))) (configFile s) (saves s)
             (collections s) (printed s)).
Proof. unfold input. now destruct (readInput (stdin s)). Qed.

Section Menu.

Variable ParseDuration : string -> option Z.
Variable os : Os.

Local Abbreviation saveConfig' := (saveConfig os).
Local Abbreviation update' := (update os).
Local Abbreviation configChoice' := (configChoice ParseDuration os).
Local Abbreviation modifyConfig' := (modifyConfig ParseDuration os).

Lemma update_fields (what : Setting) (c : Config) (s : Session) :
  globalConfig (update' what c s) = c /\
  stdin (update' what c s) = stdin s /\
  collections (update' what c s) = collections s /\
  saves (update' what c s) = S (saves s) /\
  (writeFile os (saves s) = None ->
   configFile (update' what c s) = FileWith (Some (MarshalIndent c)) /\
   printed (update' what c s) = printed s ++ [Updated what]).
Proof.
  unfold update, saveConfig. session_simpl.
  destruct (writeFile os (saves s)) as [[err remains]|]; session_simpl;
    repeat split; try reflexivity; discriminate.
Qed.

Lemma pause_fields (s : Session) :
  globalConfig (pause s) = globalConfig s /\
  configFile (pause s) = configFile s /\
  saves (pause s) = saves s /\
  collections (pause s) = collections s /\
  stdin (pause s) = snd (readInput (stdin s)) /\
  printed (pause s) = printed s ++ [PressEnter].
Proof. unfold pause. rewrite input_eq. session_simpl. repeat split. Qed.

Ltac asked A what :=
  specialize (A what);
  let line := fresh "line" in
  let s1 := fresh "s1" in
  destruct (input (say (Ask what) _)) as [line s1] eqn:Ein;
  cbn [snd] in A; destruct A as (I & L & C & Un).

Ltac kept :=
  session_simpl; repeat split; try assumption;
  left; match goal with H : untouched _ _ |- _ => exact H end.

Ltac updated U c :=
  match goal with
  | |- incl (stdin (update ?os ?what _ ?s1)) _ /\ _ =>
      destruct (U what c s1) as (I' & L' & C'); try assumption;
      split; [exact I'|]; split; [exact L'|]; split; [exact C'|];
      right; exists what, c;
      split; [match goal with H : input _ = _ |- _ => rewrite H end; reflexivity|]
  end.

(** What one choice of the menu makes of the configuration, by cases. *)
Lemma configChoice_cases (choice : string) (s s2 : Session) :
  configChoice' choice s = Some s2 ->
  incl (stdin s2) (stdin s) /\
  (List.length (stdin s2) <= List.length (stdin s))%nat /\
  collections s2 = collections s /\
  (untouched s s2 \/
   exists what c, s2 = update' what c (snd (input (say (Ask what) s))) /\
     match what with
     | TheAuthorization => exists v, v <> "" /\ c = withAuthorization v (globalConfig s)
     | TheInterval => exists v, c = withInterval v (globalConfig s)
     | TheDuration => exists v, c = withDuration v (globalConfig s)
     | TheMaxBlocks => exists v, 0 < v <= maxInt /\ c = withMaxBlocks v (globalConfig s)
     | TheOutputDB => exists v, v <> "" /\ c = withOutputDB v (globalConfig s)
     | TheOutputExcel => exists v, v <> "" /\ c = withOutputExcel v (globalConfig s)
     end).
Proof.
  assert (A : forall what,
             incl (stdin (snd (input (say (Ask what) s)))) (stdin s) /\
             (List.length (stdin (snd (input (say (Ask what) s))))
              <= List.length (stdin s))%nat /\
             collections (snd (input (say (Ask what) s))) = collections s /\
             untouched s (snd (input (say (Ask what) s)))).
  { intros what. rewrite input_eq. session_simpl.
    destruct (readInput_rest (stdin s)) as [L I].
    repeat split; assumption. }
  assert (U : forall what c s1,
             incl (stdin s1) (stdin s) ->
             (List.length (stdin s1) <= List.length (stdin s))%nat ->
             collections s1 = collections s ->
             incl (stdin (update' what c s1)) (stdin s) /\
             (List.length (stdin (update' what c s1)) <= List.length (stdin s))%nat /\
             collections (update' what c s1) = collections s).
  { intros what c s1 I L C.
    destruct (update_fields what c s1) as (_ & E & Ec & _). rewrite E, Ec.
    repeat split; assumption. }
  unfold configChoice.
  destruct (String.eqb choice "1").
  { asked A TheAuthorization.
    destruct (String.eqb line "") eqn:E; cbn [negb]; intros [= <-].
    - kept.
    - apply String.eqb_neq in E. updated U (withAuthorization line (globalConfig s1)).
      exists line. destruct Un as (-> & _). split; [exact E | reflexivity]. }
  destruct (String.eqb choice "2").
  { asked A TheInterval.
    destruct (ParseDuration line) as [d|]; intros [= <-].
    - updated U (withInterval d (globalConfig s1)).
      exists d. destruct Un as (-> & _). reflexivity.
    - kept. }
  destruct (String.eqb choice "3").
  { asked A TheDuration.
    destruct (ParseDuration line) as [d|]; intros [= <-].
    - updated U (withDuration d (globalConfig s1)).
      exists d. destruct Un as (-> & _). reflexivity.
    - kept. }
  destruct (String.eqb choice "4").
  { asked A TheMaxBlocks.
    destruct (Atoi line) as [b|] eqn:Eb; [destruct (0 <? b) eqn:Epos|]; intros [= <-].
    - updated U (withMaxBlocks b (globalConfig s1)).
      exists b. destruct Un as (-> & _). split; [|reflexivity].
      apply Z.ltb_lt in Epos. apply ParseInt_isInt in Eb. destruct Eb. lia.
    - kept.
    - kept. }
  destruct (String.eqb choice "5").
  { asked A TheOutputDB.
    destruct (String.eqb line "") eqn:E; cbn [negb]; intros [= <-].
    - kept.
    - apply String.eqb_neq in E. updated U (withOutputDB line (globalConfig s1)).
      exists line. destruct Un as (-> & _). split; [exact E | reflexivity]. }
  destruct (String.eqb choice "6").
  { asked A TheOutputExcel.
    destruct (String.eqb line "") eqn:E; cbn [negb]; intros [= <-].
    - kept.
    - apply String.eqb_neq in E. updated U (withOutputExcel line (globalConfig s1)).
      exists line. destruct Un as (-> & _). split; [exact E | reflexivity]. }
  destruct (String.eqb choice "0"); [discriminate|].
  intros [= <-]. session_simpl.
  repeat split; try apply incl_refl; try apply le_n. left. repeat split.
Qed.

End Menu.

Lemma keeps_refl (c : Config) : keeps c c.
Proof. split; auto. Qed.

Lemma keeps_trans (a b c : Config) : keeps a b -> keeps b c -> keeps a c.
Proof. intros [A1 A2] [B1 B2]. split; auto. Qed.

Section Modify.

Variable ParseDuration : string -> option Z.
Variable os : Os.

Local Abbreviation update' := (update os).
Local Abbreviation configChoice' := (configChoice ParseDuration os).
Local Abbreviation modifyConfig' := (modifyConfig ParseDuration os).

(** The session when the menu has been shown and the choice read. *)
Lemma choice_fields (m : Msg) (s : Session) :
  fst (input (say m s)) = fst (readInput (stdin s)) /\
  untouched s (snd (input (say m s))) /\
  collections (snd (input (say m s))) = collections s /\
  stdin (snd (input (say m s))) = snd (readInput (stdin s)) /\
  printed (snd (input (say m s))) = printed s ++ [m].
Proof. rewrite input_eq. session_simpl. repeat split. Qed.

Lemma modifyConfig_S (fuel : nat) (s : Session) :
  modifyConfig' (S fuel) s =
  match configChoice' (fst (readInput (stdin s))) (snd (input (say ConfigMenu s))) with
  | None => (true, snd (input (say ConfigMenu s)))
  | Some s2 => modifyConfig' fuel (pause s2)
  end.
Proof.
  cbn [modifyConfig]. rewrite <- (proj1 (choice_fields ConfigMenu s)).
  now destruct (input (say ConfigMenu s)).
Qed.

Lemma configChoice_keeps (choice : string) (s s2 : Session) :
  configChoice' choice s = Some s2 -> keeps (globalConfig s) (globalConfig s2).
Proof.
  intros H. destruct (configChoice_cases _ _ _ _ _ H) as (_ & _ & _ & [U | U]).
  - destruct U as (-> & _). apply keeps_refl.
  - destruct U as (what & c & -> & Hc).
    rewrite (proj1 (update_fields os what c _)).
    unfold keeps, Sane.
    destruct what; destruct Hc as (v & Hc);
      try destruct Hc as (Hv & Hc); subst c; config_simpl; tauto.
Qed.

Lemma modifyConfig_keeps_config (fuel : nat) : forall s,
  keeps (globalConfig s) (globalConfig (snd (modifyConfig' fuel s))).
Proof.
  induction fuel as [|fuel IH]; intros s; [apply keeps_refl|].
  rewrite modifyConfig_S.
  destruct (choice_fields ConfigMenu s) as (_ & (Ec & _) & _).
  destruct (configChoice' _ _) as [s2|] eqn:E.
  - eapply keeps_trans; [|apply IH].
    rewrite (proj1 (pause_fields s2)). rewrite <- Ec.
    eapply configChoice_keeps. exact E.
  - cbn [snd]. rewrite Ec. apply keeps_refl.
Qed.

(** At the end of the input a pass of the menu changes nothing and the next
    pass starts at the end of the input again. *)
Lemma modifyConfig_idle (fuel : nat) : forall s,
  stdin s = [] ->
  modifyConfig' fuel s =
  (false,
   mkSession (globalConfig s) [] (configFile s) (saves s) (collections s)
             (printed s ++ List.concat (repeat idlePass fuel))).
Proof.
  induction fuel as [|fuel IH]; intros s Hs.
  - cbn [modifyConfig repeat List.concat]. rewrite app_nil_r, <- Hs. now destruct s.
  - cbn [modifyConfig]. rewrite input_eq. session_simpl. rewrite Hs.
    cbn [readInput fst snd]. unfold configChoice.
    change (String.eqb "" "1") with false. change (String.eqb "" "2") with false.
    change (String.eqb "" "3") with false. change (String.eqb "" "4") with false.
    change (String.eqb "" "5") with false. change (String.eqb "" "6") with false.
    change (String.eqb "" "0") with false. cbv iota.
    rewrite IH.
    + destruct (pause_fields
                  (say InvalidChoice
                       (mkSession (globalConfig s) [] (configFile s) (saves s)
                                  (collections s) (printed s ++ [ConfigMenu]))))
        as (-> & -> & -> & -> & _ & ->).
      session_simpl. cbn [repeat List.concat]. unfold idlePass at 2.
      rewrite <- !app_assoc. reflexivity.
    + now rewrite (proj1 (proj2 (proj2 (proj2 (proj2 (pause_fields _)))))).
Qed.

Lemma modifyConfig_more (fuel : nat) : forall s s',
  modifyConfig' fuel s = (true, s') -> modifyConfig' (S fuel) s = (true, s').
Proof.
  induction fuel as [|fuel IH]; intros s s'; [discriminate|].
  rewrite (modifyConfig_S (S fuel)), (modifyConfig_S fuel).
  destruct (configChoice' _ _) as [s2|]; [apply IH | auto].
Qed.

Lemma modifyConfig_le (fuel fuel' : nat) (s s' : Session) :
  (fuel <= fuel')%nat ->
  modifyConfig' fuel s = (true, s') -> modifyConfig' fuel' s = (true, s').
Proof.
  induction 1 as [|m L IH]; intros H; [exact H|]. now apply modifyConfig_more, IH.
Qed.

Lemma modifyConfig_within (fuel : nat) : forall s s',
  modifyConfig' fuel s = (true, s') ->
  modifyConfig' (List.length (stdin s)) s = (true, s').
Proof.
  induction fuel as [|fuel IH]; intros s s' H; [discriminate|].
  destruct (stdin s) as [|l rest] eqn:Es.
  - rewrite modifyConfig_idle in H by exact Es. discriminate.
  - rewrite <- Es.
    assert (Hne : stdin s <> []) by (rewrite Es; discriminate).
    pose proof (readInput_shorter _ Hne) as Hlt.
    destruct (List.length (stdin s)) as [|n] eqn:El; [lia|].
    rewrite modifyConfig_S in H |- *.
    destruct (choice_fields ConfigMenu s) as (_ & _ & _ & E1 & _).
    destruct (configChoice' _ _) as [s2|] eqn:E; [|exact H].
    apply IH in H. revert H. apply modifyConfig_le.
    rewrite (proj1 (proj2 (proj2 (proj2 (proj2 (pause_fields s2)))))).
    destruct (configChoice_cases _ _ _ _ _ E) as (_ & L2 & _).
    pose proof (proj1 (readInput_rest (stdin s2))). rewrite E1 in L2. lia.
Qed.

(** When every save succeeds, a choice leaves the configuration and its
    file alone, or leaves the file with the configuration. *)
Lemma configChoice_sync (choice : string) (s s2 : Session) :
  (forall k, writeFile os k = None) ->
  configChoice' choice s = Some s2 -> untouched s s2 \/ inSync s2.
Proof.
  intros Hw H. destruct (configChoice_cases _ _ _ _ _ H) as (_ & _ & _ & [U | U]).
  - now left.
  - right. destruct U as (what & c & -> & _).
    destruct (update_fields os what c (snd (input (say (Ask what) s))))
      as (Ec & _ & _ & _ & Ef).
    destruct (Ef (Hw _)) as (Ef' & _). unfold inSync. now rewrite Ec, Ef'.
Qed.

Lemma modifyConfig_sync (fuel : nat) : forall s,
  (forall k, writeFile os k = None) ->
  untouched s (snd (modifyConfig' fuel s)) \/ inSync (snd (modifyConfig' fuel s)).
Proof.
  assert (T : forall a b, untouched a b ->
              forall c, untouched b c \/ inSync c -> untouched a c \/ inSync c).
  { intros a b (A1 & A2 & A3) c [(B1 & B2 & B3) | B]; [left | now right].
    repeat split; congruence. }
  assert (Y : forall a b, inSync a -> untouched a b -> inSync b).
  { intros a b A (B1 & B2 & B3). unfold inSync in *. congruence. }
  induction fuel as [|fuel IH]; intros s Hw; [left; repeat split|].
  rewrite modifyConfig_S.
  destruct (choice_fields ConfigMenu s) as (_ & U1 & _).
  destruct (configChoice' _ _) as [s2|] eqn:E; [|now left].
  assert (U3 : untouched s2 (pause s2)).
  { destruct (pause_fields s2) as (A & B & C & _). repeat split; assumption. }
  apply (T _ _ U1).
  destruct (configChoice_sync _ _ _ Hw E) as [U2 | S2].
  - apply (T _ _ U2). apply (T _ _ U3). now apply IH.
  - right. destruct (IH (pause s2) Hw) as [U4 | S4]; [|exact S4].
    eapply Y; [|exact U4]. eapply Y; [exact S2 | exact U3].
Qed.

End Modify.

(** ** The main menu *)

Lemma startDataCollection_rest (cfg : Config) (ok : bool) (input : Stdin) :
  incl (snd (startDataCollection cfg ok input)) input.
Proof.
  unfold startDataCollection.
  destruct (String.eqb (Authorization cfg) ""); [apply incl_refl|].
  pose proof (proj2 (readInput_rest input)) as I1.
  destruct (readInput input) as [confirm input1]. cbn [snd] in I1.
  destruct (negb (saysYes confirm)); [exact I1|].
  destruct (negb ok); [exact I1|].
  pose proof (proj2 (readInput_rest input1)) as I2.
  destruct (readInput input1) as [exportChoice input2]. cbn [snd] in *.
  eapply incl_tran; eassumption.
Qed.

Lemma startDataCollection_no_credential (cfg : Config) (ok : bool) (input : Stdin) :
  Authorization cfg = "" ->
  startDataCollection cfg ok input = ([Say MissingAuthorization], input).
Proof. intros H. unfold startDataCollection. now rewrite H. Qed.

Lemma launchedIn_snoc (out : list Msg) (m : Msg) :
  launchedIn (out ++ [m]) =
  launchedIn out ++ match m with Collection acts => launched acts | _ => [] end.
Proof. unfold launchedIn. rewrite flat_map_app. cbn [flat_map]. now rewrite app_nil_r. Qed.

Lemma launchedIn_say (m : Msg) (s : Session) :
  (forall acts, m <> Collection acts) ->
  launchedIn (printed (say m s)) = launchedIn (printed s).
Proof.
  intros H. session_simpl. rewrite launchedIn_snoc.
  destruct m; try apply app_nil_r. now destruct (H acts).
Qed.

Section Main.

Variable ParseDuration : string -> option Z.
Variable os : Os.

Local Abbreviation modifyConfig' := (modifyConfig ParseDuration os).
Local Abbreviation mainLoop' := (mainLoop ParseDuration os).
Local Abbreviation collect' := (collect os).

Lemma collect_fields (s : Session) :
  globalConfig (collect' s) = globalConfig s /\
  configFile (collect' s) = configFile s /\
  incl (stdin (collect' s)) (stdin s) /\
  exists acts,
    printed (collect' s) = printed s ++ [Collection acts] /\
    (Authorization (globalConfig s) = "" -> launched acts = [] /\ stdin (collect' s) = stdin s).
Proof.
  unfold collect.
  pose proof (startDataCollection_rest (globalConfig s) (openOk os (collections s)) (stdin s)) as I.
  pose proof (startDataCollection_no_credential (globalConfig s)
                (openOk os (collections s)) (stdin s)) as N.
  destruct (startDataCollection _ _ _) as [acts rest]. session_simpl.
  repeat split; try assumption. exists acts. split; [reflexivity|].
  intros H. specialize (N H). injection N as -> ->. split; reflexivity.
Qed.

(** One pass of the main loop, by what was chosen. *)
Lemma mainLoop_cases (fuel : nat) (s : Session) :
  let choice := fst (readInput (stdin s)) in
  let s1 := snd (input (say MainMenu s)) in
  (choice = "0" /\ mainLoop' (S fuel) s = (true, say Goodbye s1)) \/
  (choice = "4" /\
   mainLoop' (S fuel) s =
   if fst (modifyConfig' fuel s1) then mainLoop' fuel (snd (modifyConfig' fuel s1))
   else (false, snd (modifyConfig' fuel s1))) \/
  (choice = "1" /\ mainLoop' (S fuel) s = mainLoop' fuel (pause (collect' s1))) \/
  (choice <> "0" /\ choice <> "4" /\
   exists m, (forall acts, m <> Collection acts) /\
             mainLoop' (S fuel) s = mainLoop' fuel (pause (say m s1))).
Proof.
  cbv zeta. cbn [mainLoop].
  rewrite <- (proj1 (choice_fields MainMenu s)).
  destruct (input (say MainMenu s)) as [choice s1]. cbn [fst snd].
  destruct (String.eqb choice "1") eqn:E1.
  { apply String.eqb_eq in E1. right; right; left. now split. }
  destruct (String.eqb choice "2") eqn:E2.
  { apply String.eqb_eq in E2. subst choice. right; right; right.
    split; [discriminate|]. split; [discriminate|].
    eexists. split; [|reflexivity]. discriminate. }
  destruct (String.eqb choice "3") eqn:E3.
  { apply String.eqb_eq in E3. subst choice. right; right; right.
    split; [discriminate|]. split; [discriminate|].
    eexists. split; [|reflexivity]. discriminate. }
  destruct (String.eqb choice "4") eqn:E4.
  { apply String.eqb_eq in E4. right; left. split; [exact E4|].
    now destruct (modifyConfig' fuel s1) as [[|] s2]. }
  destruct (String.eqb choice "5") eqn:E5.
  { apply String.eqb_eq in E5. subst choice. right; right; right.
    split; [discriminate|]. split; [discriminate|].
    eexists. split; [|reflexivity]. discriminate. }
  destruct (String.eqb choice "6") eqn:E6.
  { apply String.eqb_eq in E6. subst choice. right; right; right.
    split; [discriminate|]. split; [discriminate|].
    eexists. split; [|reflexivity]. discriminate. }
  destruct (String.eqb choice "0") eqn:E0.
  { apply String.eqb_eq in E0. left. now split. }
  right; right; right. apply String.eqb_neq in E0, E4.
  split; [exact E0|]. split; [exact E4|].
  eexists. split; [|reflexivity]. discriminate.
Qed.

(** Without a credential and without the choice of the configuration menu
    in the input, no worker is launched. *)
Lemma mainLoop_no_worker (fuel : nat) : forall s,
  Authorization (globalConfig s) = "" -> ~ In "4" (stdin s) ->
  launchedIn (printed s) = [] ->
  launchedIn (printed (snd (mainLoop' fuel s))) = [].
Proof.
  induction fuel as [|fuel IH]; intros s Ha H4 Hl; [exact Hl|].
  destruct (choice_fields MainMenu s) as (_ & (Ec & _) & _ & Es & Ep).
  set (s1 := snd (input (say MainMenu s))) in *.
  assert (Hl1 : launchedIn (printed s1) = []).
  { rewrite Ep, launchedIn_snoc, Hl. reflexivity. }
  assert (H41 : ~ In "4" (stdin s1)).
  { rewrite Es. intros C. apply H4. now apply (proj2 (readInput_rest (stdin s))). }
  assert (P : forall s2, Authorization (globalConfig s2) = "" ->
              ~ In "4" (stdin s2) -> launchedIn (printed s2) = [] ->
              launchedIn (printed (snd (mainLoop' fuel (pause s2)))) = []).
  { intros s2 A2 B2 C2.
    destruct (pause_fields s2) as (Pc & _ & _ & _ & Ps & Pp).
    apply IH.
    - now rewrite Pc.
    - rewrite Ps. intros C. apply B2. now apply (proj2 (readInput_rest (stdin s2))).
    - rewrite Pp, launchedIn_snoc, C2. reflexivity. }
  pose proof (mainLoop_cases fuel s) as M. cbv zeta in M. fold s1 in M.
  destruct M as [[_ E] | [[E4 _] | [[_ E] | (_ & _ & m & Hm & E)]]].
  - rewrite E. cbn [snd]. rewrite launchedIn_say by discriminate. exact Hl1.
  - exfalso. destruct (readInput_line (stdin s)) as [[E0 _] | [_ I]].
    + rewrite E0 in E4. discriminate.
    + rewrite E4 in I. now apply H4.
  - rewrite E.
    destruct (collect_fields s1) as (Cc & _ & Ci & acts & Cp & Cn).
    rewrite Ec in Cn. destruct (Cn Ha) as [Cl Cs].
    apply P.
    + now rewrite Cc, Ec.
    + now rewrite Cs.
    + rewrite Cp, launchedIn_snoc, Hl1, Cl. reflexivity.
  - rewrite E. apply P.
    + session_simpl. now rewrite Ec.
    + exact H41.
    + now rewrite launchedIn_say.
Qed.

Lemma modifyConfig_stays (fuel : nat) : forall s,
  ~ In "0" (stdin s) ->
  fst (modifyConfig' fuel s) = false /\ ~ In "0" (stdin (snd (modifyConfig' fuel s))).
Proof.
  induction fuel as [|fuel IH]; intros s H0; [now split|].
  rewrite modifyConfig_S.
  destruct (choice_fields ConfigMenu s) as (_ & _ & _ & Es & _).
  assert (H1 : ~ In "0" (stdin (snd (input (say ConfigMenu s))))).
  { rewrite Es. intros C. apply H0. now apply (proj2 (readInput_rest (stdin s))). }
  destruct (configChoice ParseDuration os _ _) as [s2|] eqn:E.
  - apply IH. destruct (configChoice_cases _ _ _ _ _ E) as (I & _).
    rewrite (proj1 (proj2 (proj2 (proj2 (proj2 (pause_fields s2)))))).
    intros C. apply H1, I. now apply (proj2 (readInput_rest (stdin s2))).
  - exfalso. unfold configChoice in E.
    destruct (readInput_line (stdin s)) as [[E0 _] | [_ I]].
    + rewrite E0 in E. cbn in E. discriminate.
    + repeat match type of E with
             | (if String.eqb ?a ?b then _ else _) = None =>
                 destruct (String.eqb a b) eqn:?
             | (let (_, _) := ?p in _) = None => destruct p
             | (if ?b then _ else _) = None => destruct b
             | match ?o with Some _ => _ | None => _ end = None => destruct o
             end; try discriminate.
      match goal with H : String.eqb _ "0" = true |- _ => apply String.eqb_eq in H; rewrite H in I end.
      now apply H0.
Qed.

(** Without the choice to quit in the input, the loop does not end. *)
Lemma mainLoop_stays (fuel : nat) : forall s,
  ~ In "0" (stdin s) -> fst (mainLoop' fuel s) = false.
Proof.
  induction fuel as [|fuel IH]; intros s H0; [reflexivity|].
  destruct (choice_fields MainMenu s) as (_ & _ & _ & Es & _).
  set (s1 := snd (input (say MainMenu s))) in *.
  assert (H1 : ~ In "0" (stdin s1)).
  { rewrite Es. intros C. apply H0. now apply (proj2 (readInput_rest (stdin s))). }
  assert (P : forall s2, ~ In "0" (stdin s2) -> fst (mainLoop' fuel (pause s2)) = false).
  { intros s2 B2. apply IH.
    rewrite (proj1 (proj2 (proj2 (proj2 (proj2 (pause_fields s2)))))).
    intros C. apply B2. now apply (proj2 (readInput_rest (stdin s2))). }
  pose proof (mainLoop_cases fuel s) as M. cbv zeta in M. fold s1 in M.
  destruct M as [[E0 _] | [[_ E] | [[_ E] | (_ & _ & m & Hm & E)]]].
  - exfalso. destruct (readInput_line (stdin s)) as [[E' _] | [_ I]].
    + rewrite E' in E0. discriminate.
    + rewrite E0 in I. now apply H0.
  - rewrite E. destruct (modifyConfig_stays fuel s1 H1) as [-> _]. reflexivity.
  - rewrite E. apply P.
    destruct (collect_fields s1) as (_ & _ & Ci & _).
    intros C. now apply H1, Ci.
  - rewrite E. now apply P.
Qed.

(** The loop keeps the settings a scan cannot do without. *)
Lemma mainLoop_Sane (fuel : nat) : forall s,
  Sane (globalConfig s) -> Sane (globalConfig (snd (mainLoop' fuel s))).
Proof.
  induction fuel as [|fuel IH]; intros s Hs; [exact Hs|].
  destruct (choice_fields MainMenu s) as (_ & (Ec & _) & _).
  set (s1 := snd (input (say MainMenu s))) in *.
  assert (P : forall s2, globalConfig s2 = globalConfig s1 ->
              Sane (globalConfig (snd (mainLoop' fuel (pause s2))))).
  { intros s2 E2. apply IH. now rewrite (proj1 (pause_fields s2)), E2, Ec. }
  pose proof (mainLoop_cases fuel s) as M. cbv zeta in M. fold s1 in M.
  destruct M as [[_ E] | [[_ E] | [[_ E] | (_ & _ & m & Hm & E)]]];
    rewrite E.
  - cbn [snd]. session_simpl. now rewrite Ec.
  - assert (S2 : Sane (globalConfig (snd (modifyConfig' fuel s1)))).
    { apply (modifyConfig_keeps_config ParseDuration os fuel s1). now rewrite Ec. }
    destruct (fst (modifyConfig' fuel s1)); [now apply IH | exact S2].
  - apply P. apply collect_fields.
  - apply P. reflexivity.
Qed.

End Main.

(** ** The export *)

Lemma string_app_nil_r (s : string) : (s ++ "")%string = s.
Proof. induction s as [|c s IH]; cbn; [reflexivity | now rewrite IH]. Qed.

Lemma string_app_assoc (a b c : string) : ((a ++ b) ++ c = a ++ (b ++ c))%string.
Proof. induction a as [|ch a IH]; cbn; [reflexivity | now rewrite IH]. Qed.

Section Exporting.

Variable fmt_f : float -> string.
Variable x : Exports.

Local Abbreviation csvLine' := (csvLine fmt_f).
Local Abbreviation exportRows' := (exportRows fmt_f x).
Local Abbreviation exportToExcel' := (exportToExcel fmt_f x).

Lemma goodScans_S (k n : nat) :
  filter (scanOk x) (seq k (S n)) =
  (if scanOk x k then [k] else []) ++ filter (scanOk x) (seq (S k) n).
Proof. cbn [seq filter]. now destruct (scanOk x k). Qed.

(** The rows gone through: every row is counted or logged, whatever the
    writes do. *)
Lemma exportRows_tally (rows : list Row) : forall k sh,
  0 <= count sh ->
  count sh + Z.of_nat (List.length rows) <= maxInt ->
  let good := List.length (filter (scanOk x) (seq k (List.length rows))) in
  count (exportRows' rows k sh) = count sh + Z.of_nat good /\
  said (exportRows' rows k sh) =
  said sh ++ repeat ScanFailed (List.length rows - good).
Proof.
  induction rows as [|r rows IH]; intros k sh H0 Hmax; cbv zeta.
  - cbn. rewrite app_nil_r. split; [lia | reflexivity].
  - cbn [exportRows List.length]. rewrite goodScans_S.
    cbn [List.length] in Hmax.
    pose proof (filter_length_le (scanOk x) (seq (S k) (List.length rows))) as Hle.
    rewrite length_seq in Hle.
    destruct (scanOk x k).
    + unfold writeString. cbn [count said content writes_made].
      rewrite wrap_small by (unfold isInt, minInt, maxInt in *; lia).
      specialize (IH (S k)
        (mkSheet (content sh ++ written x (writes_made sh) (csvLine' r))%string
                 (S (writes_made sh)) (count sh + 1) (said sh))).
      cbn [count said] in IH. cbv zeta in IH.
      destruct IH as [IH1 IH2]; [lia | lia |].
      rewrite IH1, IH2. cbn [app List.length].
      split; [lia|]. f_equal.
    + specialize (IH (S k)
        (mkSheet (content sh) (writes_made sh) (count sh) (said sh ++ [ScanFailed]))).
      cbn [count said] in IH. cbv zeta in IH.
      destruct IH as [IH1 IH2]; [lia | lia |].
      rewrite IH1, IH2. cbn [app List.length].
      split; [lia|]. rewrite <- app_assoc. f_equal.
      replace (S (List.length rows) - _)%nat
        with (S (List.length rows - List.length (filter (scanOk x) (seq (S k) (List.length rows)))))
        by lia.
      reflexivity.
Qed.

(** The rows gone through when every scan succeeds and every write is whole. *)
Lemma exportRows_content (rows : list Row) : forall k sh,
  (forall k, scanOk x k = true) -> (forall k s, written x k s = s) ->
  content (exportRows' rows k sh) =
  (content sh ++ String.concat "" (map csvLine' rows))%string.
Proof.
  induction rows as [|r rows IH]; intros k sh Hs Hw.
  - cbn [exportRows map String.concat]. now rewrite string_app_nil_r.
  - cbn [exportRows]. rewrite Hs. rewrite IH by assumption.
    unfold writeString. cbn [content]. rewrite Hw.
    rewrite string_app_assoc. f_equal.
    destruct rows as [|r2 rows]; cbn [map String.concat].
    + now rewrite string_app_nil_r.
    + reflexivity.
Qed.

End Exporting.

(** ** The worker and the table *)

Section Growing.

Variable ParseFloat : string -> option float.
Variable fmt_f : float -> string.
Variable env : Env.
Variable center : Center.
Variable config : Config.

Local Abbreviation visit' := (visit ParseFloat fmt_f env center config).
Local Abbreviation spiralScan' := (spiralScan ParseFloat fmt_f env center config).
Local Abbreviation grown' := (grown ParseFloat env).

Lemma grown_refl (t : Table) : grown' t t.
Proof. exists []. rewrite app_nil_r. repeat split; auto. Qed.

Lemma grown_trans (a b c : Table) : grown' a b -> grown' b c -> grown' a c.
Proof.
  intros (e1 & -> & K1 & F1) (e2 & -> & K2 & F2).
  exists (e1 ++ e2). rewrite app_assoc. repeat split; [auto|].
  apply Forall_app. now split.
Qed.

(** The writes of one step add rows of the records they were given. *)
Lemma execAll_grown (areas : list Area) : forall w,
  exists extra,
    db (fold_left (execInsert env) areas w) = db w ++ extra /\
    (keyed (db w) -> keyed (db (fold_left (execInsert env) areas w))) /\
    Forall (fun r => exists a, In a areas /\ r = rowOf a) extra.
Proof.
  induction areas as [|a areas IH]; intros w; cbn [fold_left].
  - exists []. rewrite app_nil_r. repeat split; auto.
  - destruct (IH (execInsert env w a)) as (extra & E & K & F).
    assert (S1 : exists e1, db (execInsert env w a) = db w ++ e1 /\
                   (keyed (db w) -> keyed (db (execInsert env w a))) /\
                   Forall (fun r => r = rowOf a) e1).
    { unfold execInsert. cbn [db]. destruct (execOk env (execs w)).
      - unfold insertOrIgnore. destruct (hasId (area_id (rowOf a)) (db w)) eqn:Eh.
        + exists []. rewrite app_nil_r. repeat split; auto.
        + exists [rowOf a]. split; [reflexivity|]. split; [|now constructor].
          intros Hk. pose proof (insertOrIgnore_keyed (rowOf a) (db w) Hk) as Hk'.
          unfold insertOrIgnore in Hk'. now rewrite Eh in Hk'.
      - exists []. rewrite app_nil_r. repeat split; auto. }
    destruct S1 as (e1 & E1 & K1 & F1).
    exists (e1 ++ extra). split; [now rewrite E, E1, app_assoc|].
    split; [intros Hk; apply K, K1, Hk|].
    apply Forall_app. split.
    + eapply Forall_impl; [|exact F1]. intros r ->. exists a. split; [now left | reflexivity].
    + eapply Forall_impl; [|exact F]. intros r (a' & Ha & ->). exists a'. split; [now right | reflexivity].
Qed.

Lemma visit_grown (x y k : Z) (w : World) : grown' (db w) (db (visit' x y k w)).
Proof.
  set (req := newRequest fmt_f (latAt center y) (lngAt center x) config).
  destruct (readResponse ParseFloat (roundTrip env (calls w) req)) as [areas | err] eqn:E.
  - rewrite (visit_Ok _ _ _ _ _ _ _ _ _ _ E). unfold emit. cbn [db].
    destruct (execAll_grown areas
                (mkWorld (reads w) (S (calls w)) (execs w) (db w)
                         (trace w ++ [EvDo req]))) as (extra & Ed & K & F).
    cbn [db] in Ed, K. exists extra. split; [exact Ed|]. split; [exact K|].
    eapply Forall_impl; [|exact F]. intros r (a & Ha & ->).
    exists (calls w), req, areas, a. repeat split; assumption.
  - rewrite (visit_Err _ _ _ _ _ _ _ _ _ _ E). cbn [db]. apply grown_refl.
Qed.

Lemma spiralScan_grown (w w' : World) :
  spiralScan' w = Finished w' -> grown' (db w) (db w').
Proof.
  unfold spiralScan. destruct (prepareOk env).
  - apply (scanLoop_rule ParseFloat fmt_f env center config
             (fun st => grown' (db w) (db (world st)))
             (fun st => grown' (db w) (db (world st)))
             (fun w' => grown' (db w) (db w'))); try (intros; assumption).
    + intros st st' H. unfold loopBody.
      destruct (dirsAt (s_dirIdx st)); [|discriminate]. intros [= <-]. cbn [world].
      eapply grown_trans; [exact H | apply visit_grown].
    + apply grown_refl.
  - intros [= <-]. apply grown_refl.
Qed.

End Growing.

(** ** Requests and pauses *)

Lemma throttled_quiet (d : Z) (a : list Event) : forall owed b,
  Forall quiet a -> throttled d owed (a ++ b) = throttled d owed b.
Proof.
  induction a as [|e a IH]; intros owed b H; [reflexivity|].
  inversion H as [|? ? He Ha]; subst. cbn [app].
  destruct e; cbn [throttled]; try (now apply IH); destruct He.
Qed.

Section Throttle.

Variable ParseFloat : string -> option float.
Variable fmt_f : float -> string.
Variable env : Env.
Variable center : Center.
Variable config : Config.

Lemma writes_quiet (areas : list Area) : forall e, Forall quiet (writes env e areas).
Proof.
  induction areas as [|a l IH]; intros e; cbn [writes]; constructor; [exact I | apply IH].
Qed.

Lemma step_throttled (x y k : Z) (c e : nat) (rest : list Event) :
  throttled (Interval config) false
    (stepEvents ParseFloat fmt_f env center config x y k c e ++ rest) =
  throttled (Interval config) false rest.
Proof.
  unfold stepEvents. cbn [app throttled negb andb].
  rewrite <- app_assoc.
  rewrite throttled_quiet.
  - cbn [app throttled andb]. now rewrite Z.eqb_refl.
  - destruct (readResponse _ _).
    + apply Forall_app. split; [apply writes_quiet | now constructor].
    + now constructor.
Qed.

Lemma closing_quiet (tail : list Event) : Forall isClosing tail -> Forall quiet tail.
Proof.
  apply Forall_impl. intros e. destruct e as [| | |l|]; cbn; auto.
Qed.

Lemma Paced_throttled (evs : list Event) :
  Paced ParseFloat fmt_f env center config evs ->
  throttled (Interval config) false evs = true.
Proof.
  intros (blocks & tail & -> & Hb & Ht).
  induction Hb as [|b blocks Hblock _ IH]; cbn [List.concat app].
  - rewrite <- (app_nil_r tail). rewrite throttled_quiet; [reflexivity|].
    now apply closing_quiet.
  - destruct Hblock as (checks & t & st & -> & Hc & _ & (x & y & k & c & e & _ & ->)).
    rewrite <- !app_assoc. rewrite throttled_quiet.
    + cbn [app throttled]. rewrite step_throttled. exact IH.
    + eapply Forall_impl; [|exact Hc]. intros ev (t' & -> & _). exact I.
Qed.

End Throttle.

(** ** The closing line *)

Lemma closings_app (a b : list Event) : closings (a ++ b) = closings a ++ closings b.
Proof. unfold closings, logLines. now rewrite flat_map_app, filter_app. Qed.

Lemma closings_effects (tr : list Event) : closings (effects tr) = closings tr.
Proof.
  unfold closings, logLines, effects.
  induction tr as [|e tr IH]; [reflexivity|].
  destruct e; cbn [filter isSince negb flat_map app]; rewrite ?filter_app, IH; reflexivity.
Qed.

Lemma sameEffects_closings (w1 w2 : World) :
  sameEffects w1 w2 -> closings (trace w1) = closings (trace w2).
Proof.
  intros [_ _ _ H]. rewrite <- (closings_effects (trace w1)), H. apply closings_effects.
Qed.

Lemma pronic_between (d M : Z) :
  1 <= d -> d * (d - 1) < M < d * (d - 1) + 2 * d -> ~ pronic M.
Proof.
  intros Hd HM (k & Hk & E).
  destruct (Z_le_gt_dec k (d - 1)); nia.
Qed.

Section Closing.

Variable ParseFloat : string -> option float.
Variable fmt_f : float -> string.
Variable env : Env.
Variable center : Center.
Variable config : Config.

Hypothesis never : neverExpires env config.
Hypothesis MaxBlocks_int : isInt (MaxBlocks config).

Local Abbreviation visit' := (visit ParseFloat fmt_f env center config).
Local Abbreviation legLoop' := (legLoop ParseFloat fmt_f env center config).
Local Abbreviation dirLoop' := (dirLoop ParseFloat fmt_f env center config).
Local Abbreviation scanLoop' := (scanLoop ParseFloat fmt_f env center config).
Local Abbreviation spiralScan' := (spiralScan ParseFloat fmt_f env center config).

Lemma writes_closings (areas : list Area) : forall e, closings (writes env e areas) = [].
Proof. induction areas as [|a l IH]; intros e; [reflexivity | apply IH]. Qed.

Lemma visit_closings (x y k : Z) (w : World) :
  closings (trace (visit' x y k w)) = closings (trace w).
Proof.
  rewrite visit_trace, closings_app. unfold stepEvents.
  destruct (readResponse _ _); cbn [app];
    change (?e :: ?l) with ([e] ++ l); rewrite ?closings_app, ?writes_closings;
    cbn; apply app_nil_r.
Qed.

Lemma ticked_closings (st : Scan) :
  closings (trace (world (ticked env st))) = closings (trace (world st)).
Proof. rewrite ticked_trace, closings_app. apply app_nil_r. Qed.

(** With a clock that never expires only the count decides. *)
Lemma budgetSpent_never (st : Scan) :
  budgetSpent env config st =
  if s_scanned st >=? MaxBlocks config then (true, st) else (false, ticked env st).
Proof.
  unfold budgetSpent. destruct (s_scanned st >=? MaxBlocks config); [reflexivity|].
  unfold timeSince, ticked. cbn [snd].
  pose proof (never (reads (world st))) as N.
  rewrite Z.geb_leb. apply Z.leb_gt in N. now rewrite N.
Qed.

Lemma withinBudget_never (st : Scan) :
  withinBudget env config st =
  if s_scanned st <? MaxBlocks config then (true, ticked env st) else (false, st).
Proof.
  unfold withinBudget. destruct (s_scanned st <? MaxBlocks config); [|reflexivity].
  unfold timeSince, ticked. cbn [snd].
  pose proof (never (reads (world st))) as N.
  apply Z.ltb_lt in N. now rewrite N.
Qed.

Lemma legLoop_count (n : nat) : forall st,
  0 <= s_dirIdx st < 4 -> 0 <= s_scanned st <= MaxBlocks config ->
  match legLoop' n st with
  | Next st' =>
      s_scanned st' = s_scanned st + Z.of_nat n /\ s_scanned st' <= MaxBlocks config /\
      s_dist st' = s_dist st /\ s_dirIdx st' = s_dirIdx st /\
      closings (trace (world st')) = closings (trace (world st))
  | Return st' =>
      MaxBlocks config < s_scanned st + Z.of_nat n /\
      closings (trace (world st')) = closings (trace (world st))
  | Panic => False
  end.
Proof.
  induction n as [|n IH]; intros st Hi Hs.
  - cbn [legLoop]. repeat split; lia.
  - cbn [legLoop]. rewrite budgetSpent_never.
    destruct (s_scanned st >=? MaxBlocks config) eqn:E; rewrite Z.geb_leb in E.
    + apply Z.leb_le in E. split; [lia | reflexivity].
    + apply Z.leb_gt in E. unfold loopBody.
      cbn [ticked withWorld s_x s_y s_dirIdx s_dist s_scanned world].
      rewrite (dirsAt_dirOf _ Hi).
      pose proof MaxBlocks_int as [_ HM]. unfold maxInt in HM.
      rewrite (wrap_small (s_scanned st + 1))
        by (unfold isInt, minInt, maxInt; lia).
      set (st2 := mkScan _ _ _ _ _ _).
      specialize (IH st2). cbn [st2 s_dirIdx s_scanned s_dist world] in IH.
      specialize (IH Hi ltac:(lia)).
      destruct (legLoop' n st2) as [st' | st' |]; [| |exact IH].
      * destruct IH as (A & B & C & D & F).
        rewrite visit_closings in F. 
        change (trace (snd (timeSince env (world st))))
          with (trace (world (ticked env st))) in F.
        rewrite ticked_closings in F.
        repeat split; try assumption. lia.
      * destruct IH as (A & F).
        rewrite visit_closings in F.
        change (trace (snd (timeSince env (world st))))
          with (trace (world (ticked env st))) in F.
        rewrite ticked_closings in F.
        split; [lia | exact F].
Qed.

Lemma turn_dirIdx (st : Scan) :
  0 <= s_dirIdx st < 4 -> 0 <= s_dirIdx (turn st) < 4.
Proof.
  intros H. unfold turn. cbn [s_dirIdx].
  rewrite wrap_small by (unfold isInt, minInt, maxInt; lia).
  pose proof (Z.rem_bound_pos (s_dirIdx st + 1) 4 ltac:(lia) ltac:(lia)). lia.
Qed.

Lemma dirLoop_count (st : Scan) :
  0 <= s_dirIdx st < 4 -> 0 <= s_scanned st <= MaxBlocks config -> 1 <= s_dist st ->
  match dirLoop' 2 st with
  | Next st' =>
      s_scanned st' = s_scanned st + 2 * s_dist st /\ s_scanned st' <= MaxBlocks config /\
      s_dist st' = s_dist st /\ 0 <= s_dirIdx st' < 4 /\
      closings (trace (world st')) = closings (trace (world st))
  | Return st' =>
      MaxBlocks config < s_scanned st + 2 * s_dist st /\
      closings (trace (world st')) = closings (trace (world st))
  | Panic => False
  end.
Proof.
  intros Hi Hs Hd. cbn [dirLoop].
  pose proof (legLoop_count (Z.to_nat (s_dist st)) st Hi Hs) as L1.
  rewrite Z2Nat.id in L1 by lia.
  destruct (legLoop' (Z.to_nat (s_dist st)) st) as [st1 | st1 |]; [| |exact L1].
  - destruct L1 as (A1 & B1 & C1 & D1 & F1).
    pose proof (legLoop_count (Z.to_nat (s_dist (turn st1))) (turn st1)) as L2.
    change (s_dist (turn st1)) with (s_dist st1) in *.
    change (s_scanned (turn st1)) with (s_scanned st1) in L2.
    change (world (turn st1)) with (world st1) in L2.
    rewrite C1 in *. rewrite Z2Nat.id in L2 by lia.
    assert (Hi1 : 0 <= s_dirIdx (turn st1) < 4) by (apply turn_dirIdx; lia).
    specialize (L2 Hi1 ltac:(lia)).
    destruct (legLoop' (Z.to_nat (s_dist st)) (turn st1)) as [st2 | st2 |]; [| |exact L2].
    + destruct L2 as (A2 & B2 & C2 & D2 & F2).
      change (s_scanned (turn st2)) with (s_scanned st2).
      change (s_dist (turn st2)) with (s_dist st2).
      change (world (turn st2)) with (world st2).
      split; [lia|]. split; [lia|]. split; [lia|].
      split; [apply turn_dirIdx; lia | congruence].
    + destruct L2 as (A2 & F2). split; [lia | congruence].
  - destruct L1 as (A1 & F1). split; [lia | exact F1].
Qed.

Lemma scanLoop_count (fuel : nat) : forall st w',
  s_scanned st = s_dist st * (s_dist st - 1) -> 1 <= s_dist st ->
  0 <= s_dirIdx st < 4 -> s_scanned st <= MaxBlocks config ->
  scanLoop' fuel st = Finished w' ->
  (pronic (MaxBlocks config) /\
   exists t, closings (trace w') =
             closings (trace (world st)) ++ [LogDone (Name center) (MaxBlocks config) t]) \/
  (~ pronic (MaxBlocks config) /\ closings (trace w') = closings (trace (world st))).
Proof.
  induction fuel as [|fuel IH]; intros st w' Hs Hd Hi HM; [discriminate|].
  cbn [scanLoop]. rewrite withinBudget_never.
  destruct (s_scanned st <? MaxBlocks config) eqn:E.
  - apply Z.ltb_lt in E.
    pose proof (dirLoop_count (ticked env st)) as D.
    cbn [ticked withWorld s_dirIdx s_scanned s_dist] in D.
    specialize (D Hi ltac:(nia) Hd).
    change (withWorld st (snd (timeSince env (world st)))) with (ticked env st) in D.
    destruct (dirLoop' 2 (ticked env st)) as [st2 | st2 |]; [| |destruct D].
    + destruct D as (A & B & C & D & F). rewrite ticked_closings in F.
      pose proof MaxBlocks_int as [_ Hmax]. unfold maxInt in Hmax.
      intros H. apply IH in H.
      * cbn [widen world] in H. rewrite F in H. exact H.
      * cbn [widen s_scanned s_dist].
        rewrite wrap_small by (unfold isInt, minInt, maxInt; nia). nia.
      * cbn [widen s_dist].
        rewrite wrap_small by (unfold isInt, minInt, maxInt; nia). lia.
      * exact D.
      * exact B.
    + destruct D as (A & F). rewrite ticked_closings in F.
      intros [= <-]. right. split; [|exact F].
      apply (pronic_between (s_dist st)); [exact Hd | lia].
  - apply Z.ltb_ge in E. intros [= <-]. left.
    assert (EM : MaxBlocks config = s_scanned st) by lia.
    split.
    + exists (s_dist st - 1). split; [lia|]. rewrite EM, Hs. ring.
    + exists (reading env st). rewrite logDone_trace, closings_app, EM. reflexivity.
Qed.

Lemma spiralScan_count (w w' : World) :
  0 <= MaxBlocks config -> prepareOk env = true ->
  spiralScan' w = Finished w' ->
  (pronic (MaxBlocks config) /\
   exists t, closings (trace w') =
             closings (trace w) ++ [LogDone (Name center) (MaxBlocks config) t]) \/
  (~ pronic (MaxBlocks config) /\ closings (trace w') = closings (trace w)).
Proof.
  intros H0 Hp. unfold spiralScan. rewrite Hp. intros H.
  apply scanLoop_count in H; cbn [s_scanned s_dist s_dirIdx world] in *; try lia.
  exact H.
Qed.

End Closing.

(** * Further theorems *)

(** ** The configuration and its menu *)

(** X1.  Whatever [config.json] is (absent, unreadable, not JSON, or JSON of
    any shape), the configuration [loadConfig] returns has a positive pacing
    delay, a positive time budget and a positive count budget, each within
    an [int], and two paths that are not empty. *)
Theorem X1_loadConfig_usable (file : ConfigFile) : Usable (fst (loadConfig file)).
Proof. apply loadConfig_Usable. Qed.

(** X2.  One member of the wrong type loses the whole file: when the object
    in [config.json] has, under a key that selects [interval], [duration] or
    [maxBlocks], a value that is neither [null] nor the literal of an
    integer in range (a quoted number, say), [loadConfig] returns the
    default configuration, credential included, and an error. *)
Theorem X2_loadConfig_mistyped (ms : list (string * json)) (key : string) (v : json) :
  In (key, v) ms ->
  keyIs "interval" key = true \/ keyIs "duration" key = true \/
  keyIs "maxBlocks" key = true ->
  notAnInt v ->
  loadConfig (FileWith (Some (JObject ms))) = (defaultConfig, Some ParseFailed).
Proof.
  intros Hin Hk Hv. cbn [loadConfig Unmarshal].
  rewrite (decodeStruct_member configField ms key v Hin); [reflexivity|].
  intros c. now apply configField_notAnInt.
Qed.

Lemma X2_witness :
  loadConfig (FileWith (Some (JObject quotedBudget))) = (defaultConfig, Some ParseFailed).
Proof.
  apply (X2_loadConfig_mistyped quotedBudget "maxBlocks" (JString "5000")).
  - right. left. reflexivity.
  - right. right. reflexivity.
  - reflexivity.
Defined.

(** X3.  What [saveConfig] writes, [loadConfig] reads back: after a save
    that succeeds, loading gives the saved configuration with every byte
    that is not valid UTF-8 replaced and every unusable setting at its
    default, and no error; a usable configuration with valid strings comes
    back as it was. *)
Theorem X3_saveConfig_loadConfig (os : Os) (config : Config) (s : Session) :
  writeFile os (saves s) = None -> intsOk config ->
  fst (saveConfig os config s) = None /\
  loadConfig (configFile (snd (saveConfig os config s)))
  = (orDefaults (stored config), None) /\
  (Usable config -> validStrings config ->
   loadConfig (configFile (snd (saveConfig os config s))) = (config, None)).
Proof.
  intros Hw Hi. unfold saveConfig. rewrite Hw. cbn [fst snd configFile loadConfig].
  rewrite (Unmarshal_MarshalIndent _ Hi).
  split; [reflexivity|]. split; [reflexivity|].
  intros Hu Hv. now rewrite (stored_id _ Hv), (orDefaults_id _ Hu).
Qed.

Lemma X3_witness :
  loadConfig (configFile (snd (saveConfig goodOs (sampleConfig 12)
                                          (sessionOf (sampleConfig 12) []))))
  = (sampleConfig 12, None).
Proof.
  apply (X3_saveConfig_loadConfig goodOs (sampleConfig 12) (sessionOf (sampleConfig 12) [])).
  - reflexivity.
  - unfold intsOk, isInt, minInt, maxInt. cbn. lia.
  - unfold Usable, Sane, maxInt. cbn. repeat split; try lia; discriminate.
  - repeat split.
Defined.

(** X4.  [modifyConfig] cannot take away what a scan needs: however far it
    has got and whatever is typed, the count budget stays positive and
    within an [int], the two paths stay non-empty, and a credential that
    was set stays set. *)
Theorem X4_modifyConfig_keeps (ParseDuration : string -> option Z) (os : Os)
    (fuel : nat) (s : Session) :
  Sane (globalConfig s) ->
  Sane (globalConfig (snd (modifyConfig ParseDuration os fuel s))) /\
  (Authorization (globalConfig s) <> "" ->
   Authorization (globalConfig (snd (modifyConfig ParseDuration os fuel s))) <> "").
Proof.
  intros Hs.
  destruct (modifyConfig_keeps_config ParseDuration os fuel s) as [A B].
  split; [now apply B | exact A].
Qed.

Lemma X4_witness :
  Sane (globalConfig
          (snd (modifyConfig sampleDuration goodOs 3
                  (sessionOf (sampleConfig 12) ["4"; "100"; "ok"; "4"; "-3"; "ok"; "0"])))).
Proof.
  apply (X4_modifyConfig_keeps sampleDuration goodOs 3).
  unfold Sane, maxInt. cbn. repeat split; try lia; discriminate.
Defined.

(** X5.  At the end of the input [modifyConfig] never returns: every pass
    shows the menu, answers that the choice is invalid and asks to press
    enter, and changes nothing else. *)
Theorem X5_modifyConfig_end_of_input (ParseDuration : string -> option Z) (os : Os)
    (fuel : nat) (s : Session) :
  stdin s = [] ->
  modifyConfig ParseDuration os fuel s =
  (false,
   mkSession (globalConfig s) [] (configFile s) (saves s) (collections s)
             (printed s ++ List.concat (repeat idlePass fuel))).
Proof. apply modifyConfig_idle. Qed.

Lemma X5_witness :
  modifyConfig sampleDuration goodOs 2 (sessionOf (sampleConfig 12) []) =
  (false,
   mkSession (sampleConfig 12) [] NoFile 0 0
             [ConfigMenu; InvalidChoice; PressEnter; ConfigMenu; InvalidChoice; PressEnter]).
Proof.
  apply (X5_modifyConfig_end_of_input sampleDuration goodOs 2 (sessionOf (sampleConfig 12) [])).
  reflexivity.
Defined.

(** X6.  Whether [modifyConfig] returns is settled by the input: if it
    returns at all, it does so within as many passes as there are lines
    left to read, with the same session. *)
Theorem X6_modifyConfig_decided (ParseDuration : string -> option Z) (os : Os)
    (s s' : Session) :
  (exists fuel, modifyConfig ParseDuration os fuel s = (true, s')) <->
  modifyConfig ParseDuration os (List.length (stdin s)) s = (true, s').
Proof.
  split.
  - intros [fuel H]. eapply modifyConfig_within; eauto.
  - intros H. eauto.
Qed.

(** X7.  When every write of the file succeeds, [modifyConfig] keeps the
    file with the configuration: at any point either nothing was changed
    (the configuration and the file are those it started with) or the file
    holds what [saveConfig] writes for the configuration in memory. *)
Theorem X7_modifyConfig_in_sync (ParseDuration : string -> option Z) (os : Os)
    (fuel : nat) (s : Session) :
  (forall k, writeFile os k = None) ->
  untouched s (snd (modifyConfig ParseDuration os fuel s)) \/
  inSync (snd (modifyConfig ParseDuration os fuel s)).
Proof. intros Hw. now apply modifyConfig_sync. Qed.

Lemma X7_witness :
  inSync (snd (modifyConfig sampleDuration goodOs 2
                 (sessionOf (sampleConfig 12) ["4"; "100"; "ok"; "0"]))).
Proof.
  destruct (X7_modifyConfig_in_sync sampleDuration goodOs 2
              (sessionOf (sampleConfig 12) ["4"; "100"; "ok"; "0"])
              (fun _ => eq_refl)) as [(U & _) | S].
  - discriminate U.
  - exact S.
Defined.

Section Passes.

Variable ParseDuration : string -> option Z.
Variable os : Os.

Local Abbreviation modifyConfig' := (modifyConfig ParseDuration os).

(** The pass that sets the pacing delay. *)
Lemma modifyConfig_interval (fuel : nat) (s : Session) (line enter : string)
    (rest : Stdin) (d : Z) :
  stdin s = "2" :: line :: enter :: rest -> line <> "" -> enter <> "" ->
  ParseDuration line = Some d -> writeFile os (saves s) = None ->
  modifyConfig' (S fuel) s =
  modifyConfig' fuel
    (mkSession (withInterval d (globalConfig s)) rest
               (FileWith (Some (MarshalIndent (withInterval d (globalConfig s)))))
               (S (saves s)) (collections s)
               (printed s ++ [ConfigMenu; Ask TheInterval; Updated TheInterval; PressEnter])).
Proof.
  intros Hs Hl He Hp Hw.
  rewrite modifyConfig_S, Hs, readInput_cons by discriminate. cbn [fst].
  unfold configChoice.
  change (String.eqb "2" "1") with false. change (String.eqb "2" "2") with true. cbv iota.
  rewrite !input_eq. session_simpl. rewrite Hs.
  rewrite (readInput_cons "2") by discriminate. cbn [snd].
  rewrite (readInput_cons line) by assumption. cbn [fst snd]. rewrite Hp.
  unfold update, saveConfig. session_simpl. rewrite Hw. session_simpl.
  unfold pause. rewrite input_eq. session_simpl.
  rewrite (readInput_cons enter) by assumption. cbn [snd].
  rewrite <- !app_assoc. reflexivity.
Qed.

(** The pass that returns. *)
Lemma modifyConfig_return (fuel : nat) (s : Session) (rest : Stdin) :
  stdin s = "0" :: rest ->
  modifyConfig' (S fuel) s =
  (true, mkSession (globalConfig s) rest (configFile s) (saves s) (collections s)
                   (printed s ++ [ConfigMenu])).
Proof.
  intros Hs.
  rewrite modifyConfig_S, Hs, readInput_cons by discriminate. cbn [fst].
  unfold configChoice.
  change (String.eqb "0" "1") with false. change (String.eqb "0" "2") with false.
  change (String.eqb "0" "3") with false. change (String.eqb "0" "4") with false.
  change (String.eqb "0" "5") with false. change (String.eqb "0" "6") with false.
  change (String.eqb "0" "0") with true. cbv iota.
  rewrite input_eq. session_simpl. rewrite Hs, readInput_cons by discriminate.
  reflexivity.
Qed.

End Passes.

(** X8.  [modifyConfig] takes a pacing delay that is zero or negative, and
    the next start does not: typed at choice 2, a duration [d <= 0] becomes
    the delay in memory and in the file, and [loadConfig] then reads the
    file with the delay back at its default of 200 ms, without an error. *)
Theorem X8_modifyConfig_nonpositive (ParseDuration : string -> option Z) (os : Os)
    (s : Session) (line enter : string) (rest : Stdin) (d : Z) :
  stdin s = "2" :: line :: enter :: "0" :: rest ->
  line <> "" -> enter <> "" ->
  ParseDuration line = Some d -> d <= 0 -> isInt d ->
  intsOk (globalConfig s) -> writeFile os (saves s) = None ->
  exists s',
    modifyConfig ParseDuration os 2 s = (true, s') /\
    stdin s' = rest /\
    Interval (globalConfig s') = d /\
    loadConfig (configFile s') = (orDefaults (stored (globalConfig s')), None) /\
    Interval (fst (loadConfig (configFile s'))) = 200000000.
Proof.
  intros Hs Hl He Hp Hd Hi (Ii & Id & Im) Hw.
  rewrite (modifyConfig_interval ParseDuration os 1 s line enter ("0" :: rest) d)
    by assumption.
  rewrite (modifyConfig_return ParseDuration os 0 _ rest) by reflexivity.
  eexists. split; [reflexivity|]. session_simpl.
  split; [reflexivity|]. split; [reflexivity|].
  assert (Hc : intsOk (withInterval d (globalConfig s)))
    by (unfold intsOk; config_simpl; auto).
  cbn [loadConfig]. rewrite (Unmarshal_MarshalIndent _ Hc).
  split; [reflexivity|]. cbn [fst].
  unfold orDefaults, stored. config_simpl.
  apply Z.leb_le in Hd. rewrite Hd. config_simpl.
  repeat match goal with
         | |- context [if ?b then _ else _] => destruct b; config_simpl
         end; reflexivity.
Qed.

Lemma X8_witness :
  exists s',
    modifyConfig sampleDuration goodOs 2
      (sessionOf (sampleConfig 12) ["2"; "-1s"; "ok"; "0"]) = (true, s') /\
    stdin s' = [] /\
    Interval (globalConfig s') = -1000000000 /\
    loadConfig (configFile s') = (orDefaults (stored (globalConfig s')), None) /\
    Interval (fst (loadConfig (configFile s'))) = 200000000.
Proof.
  apply (X8_modifyConfig_nonpositive sampleDuration goodOs
           (sessionOf (sampleConfig 12) ["2"; "-1s"; "ok"; "0"]) "-1s" "ok" []).
  - reflexivity.
  - discriminate.
  - discriminate.
  - reflexivity.
  - lia.
  - unfold isInt, minInt, maxInt. lia.
  - unfold intsOk, isInt, minInt, maxInt. cbn. lia.
  - reflexivity.
Defined.

(** ** The export *)

(** X9.  [exportToExcel] returns no error exactly when it has created the
    output file, and it creates the file only when the table exists and
    holds a row: a missing or empty table, or any earlier failure, leaves
    the file at [config.OutputExcel] as it was. *)
Theorem X9_exportToExcel_guard (fmt_f : float -> string) (x : Exports)
    (config : Config) (db : Database) :
  (exportErr (exportToExcel fmt_f x config db) = None <->
   exportFile (exportToExcel fmt_f x config db) <> None) /\
  (exportFile (exportToExcel fmt_f x config db) <> None ->
   exists t, db = Some t /\ t <> []).
Proof.
  unfold exportToExcel, exportFailed.
  destruct (openErr x), (checkErr x), db as [t|]; cbn [exportErr exportFile];
    try (split; [split; intros H; [discriminate H | now destruct H] | intros H; now destruct H]).
  destruct (countErr x); cbn [exportErr exportFile];
    try (split; [split; intros H; [discriminate H | now destruct H] | intros H; now destruct H]).
  destruct (Z.of_nat (List.length t) =? 0) eqn:E; cbn [exportErr exportFile];
    try (split; [split; intros H; [discriminate H | now destruct H] | intros H; now destruct H]).
  destruct (queryErr x), (createErr x); cbn [exportErr exportFile];
    try (split; [split; intros H; [discriminate H | now destruct H] | intros H; now destruct H]).
  split; [split; [discriminate | reflexivity]|].
  intros _. exists t. split; [reflexivity|]. intros ->. discriminate E.
Qed.

(** X10.  When nothing fails and the query goes through the rows of the
    table, each once, [exportToExcel] leaves a file made of the header line
    and then one line per row, in the order the query gave them, and the
    number it reports as exported is the number of rows of the table. *)
Theorem X10_exportToExcel_complete (fmt_f : float -> string) (x : Exports)
    (config : Config) (t : Table) :
  t <> [] -> opensWell x ->
  (forall k, scanOk x k = true) -> (forall k s, written x k s = s) ->
  Permutation (cursor x t) t -> Z.of_nat (List.length t) <= maxInt ->
  exportErr (exportToExcel fmt_f x config (Some t)) = None /\
  exportFile (exportToExcel fmt_f x config (Some t))
  = Some (csvHeaders ++ String.concat "" (map (csvLine fmt_f) (cursor x t)))%string /\
  In (ExportCount (Z.of_nat (List.length t)))
     (exportSaid (exportToExcel fmt_f x config (Some t))).
Proof.
  intros Ht (Ho & Hc & Hn & Hq & Hf) Hs Hw Hp Hmax.
  unfold exportToExcel. rewrite Ho, Hc, Hn, Hq, Hf.
  destruct (Z.of_nat (List.length t) =? 0) eqn:E.
  { apply Z.eqb_eq in E. destruct t; [congruence | cbn in E; lia]. }
  cbn [exportErr exportFile exportSaid].
  split; [reflexivity|]. split.
  - rewrite exportRows_content by assumption.
    unfold writeString. cbn [content]. now rewrite Hw.
  - set (sh0 := writeString x csvHeaders _).
    destruct (exportRows_tally fmt_f x (cursor x t) 0 sh0) as [Ec _].
    + cbn. lia.
    + cbn [sh0 writeString count]. rewrite (Permutation_length Hp). lia.
    + rewrite Ec. cbn [sh0 writeString count].
      assert (G : filter (scanOk x) (seq 0 (List.length (cursor x t)))
                  = seq 0 (List.length (cursor x t))).
      { apply forallb_filter_id. apply forallb_forall. intros k _. apply Hs. }
      rewrite G, length_seq, (Permutation_length Hp).
      apply in_or_app. right. right. left. f_equal.
Qed.

Lemma X10_witness :
  exportFile (exportToExcel sampleFmt goodExports (sampleConfig 12) (Some sampleTable))
  = Some (csvHeaders ++ String.concat "" (map (csvLine sampleFmt) sampleTable))%string.
Proof.
  apply (X10_exportToExcel_complete sampleFmt goodExports (sampleConfig 12) sampleTable).
  - discriminate.
  - repeat split.
  - reflexivity.
  - reflexivity.
  - apply Permutation_refl.
  - unfold maxInt. cbn. lia.
Defined.

(** X11.  Once the file is created [exportToExcel] returns no error,
    whatever becomes of the rows and of the writes: a row whose scan fails
    is logged and skipped, every other row is counted as exported whether
    its line reached the file or not, and the messages are the three of the
    start, one per failed scan, and the two of the end with that count. *)
Theorem X11_exportToExcel_counts (fmt_f : float -> string) (x : Exports)
    (config : Config) (t : Table) :
  t <> [] -> opensWell x -> Z.of_nat (List.length (cursor x t)) <= maxInt ->
  let n := List.length (cursor x t) in
  let good := List.length (goodScans x n) in
  let path := match absPath x with Some p => p | None => OutputExcel config end in
  exportErr (exportToExcel fmt_f x config (Some t)) = None /\
  exportSaid (exportToExcel fmt_f x config (Some t))
  = [Opening (OutputDB config); Found (Z.of_nat (List.length t)); Creating path]
    ++ repeat ScanFailed (n - good)
    ++ [ExportDone path; ExportCount (Z.of_nat good)].
Proof.
  intros Ht (Ho & Hc & Hn & Hq & Hf) Hmax. cbv zeta.
  unfold exportToExcel. rewrite Ho, Hc, Hn, Hq, Hf.
  destruct (Z.of_nat (List.length t) =? 0) eqn:E.
  { apply Z.eqb_eq in E. destruct t; [congruence | cbn in E; lia]. }
  cbn [exportErr exportSaid]. split; [reflexivity|].
  set (sh0 := writeString x csvHeaders _).
  destruct (exportRows_tally fmt_f x (cursor x t) 0 sh0) as [Ec Es].
  - cbn. lia.
  - cbn [sh0 writeString count]. lia.
  - rewrite Ec, Es. cbn [sh0 writeString count said]. unfold goodScans.
    rewrite <- !app_assoc. reflexivity.
Qed.

Lemma X11_witness :
  exportErr (exportToExcel sampleFmt badExports (sampleConfig 12) (Some sampleTable)) = None /\
  exportSaid (exportToExcel sampleFmt badExports (sampleConfig 12) (Some sampleTable))
  = [Opening "lemobar_scan.db"; Found 2; Creating "lemobar_export.csv"; ScanFailed;
     ExportDone "lemobar_export.csv"; ExportCount 1].
Proof.
  apply (X11_exportToExcel_counts sampleFmt badExports (sampleConfig 12) sampleTable).
  - discriminate.
  - repeat split.
  - unfold maxInt. cbn. lia.
Defined.

(** X12.  A line of the export does not tell its row: [csvLine] puts the
    name and the address between quotes as they are, so a row whose name
    holds a quote, a comma and a quote gives the same line as the row that
    has them in its address. *)
Theorem X12_csvLine_ambiguous (fmt_f : float -> string) (id total free wait : Z)
    (lat lng : float) (a b c : string) :
  let sep := (quote ++ "," ++ quote)%string in
  let r1 := mkRow id (a ++ sep ++ b)%string c lat lng total free wait in
  let r2 := mkRow id a (b ++ sep ++ c)%string lat lng total free wait in
  r1 <> r2 /\ csvLine fmt_f r1 = csvLine fmt_f r2.
Proof.
  cbv zeta. split.
  - intros H. injection H as H _.
    assert (L : forall u v, String.length (u ++ v)%string
                            = (String.length u + String.length v)%nat).
    { intros u v. induction u as [|ch u IH]; cbn; [reflexivity | now rewrite IH]. }
    apply (f_equal String.length) in H. rewrite !L in H. cbn in H. lia.
  - unfold csvLine. cbn [area_id area_name detail_address latitude longitude
                         total_device_num free_device_num wait_duration].
    rewrite !string_app_assoc. reflexivity.
Qed.

(** ** The worker *)



(** X14.  A worker never sends two requests without the pacing delay in
    between: in what it appends to the trace, every request is followed by
    a pause of [config.Interval] before the next request and before the
    worker returns, and there is no other pause. *)
Theorem X14_spiralScan_throttled (ParseFloat : string -> option float)
    (fmt_f : float -> string) (env : Env) (center : Center) (config : Config)
    (w : World) :
  isInt (MaxBlocks config) ->
  exists w' evs,
    spiralScan ParseFloat fmt_f env center config w = Finished w' /\
    trace w' = trace w ++ evs /\
    throttled (Interval config) false evs = true.
Proof.
  intros HM.
  destruct (spiralScan_finishes ParseFloat fmt_f env center config w HM) as (w' & E).
  destruct (spiralScan_paced ParseFloat fmt_f env center config w w' E) as (evs & Et & P).
  exists w', evs. split; [exact E|]. split; [exact Et|].
  eapply Paced_throttled. exact P.
Qed.

Lemma X14_witness :
  exists w' evs,
    spiralScan sampleParse sampleFmt (sampleEnv (DoError "offline") true)
      origin (sampleConfig 2) emptyWorld = Finished w' /\
    trace w' = trace emptyWorld ++ evs /\
    throttled 200000000 false evs = true.
Proof.
  apply (X14_spiralScan_throttled sampleParse sampleFmt (sampleEnv (DoError "offline") true)
           origin (sampleConfig 2) emptyWorld).
  unfold isInt, minInt, maxInt. cbn. lia.
Defined.



(** ** The program *)

(** X16.  A first run cannot scan before the configuration menu is used:
    when the configuration loaded has no credential (as when there is no
    [config.json]) and the line "4" is never typed, no worker is launched,
    however far the session has got and whatever else is typed. *)
Theorem X16_main_first_run (ParseDuration : string -> option Z) (os : Os)
    (fuel : nat) (input : Stdin) (file : ConfigFile) :
  Authorization (fst (loadConfig file)) = "" -> ~ In "4" input ->
  launchedIn (printed (snd (main ParseDuration os fuel input file))) = [].
Proof.
  intros Ha H4. unfold main.
  destruct (loadConfig file) as [config err]. cbn [fst] in Ha.
  apply mainLoop_no_worker; session_simpl; try assumption.
  now destruct err.
Qed.

Lemma X16_witness :
  launchedIn (printed (snd (main sampleDuration goodOs 4 ["1"; "y"; "1"; "yes"] NoFile))) = [].
Proof.
  apply (X16_main_first_run sampleDuration goodOs 4 ["1"; "y"; "1"; "yes"] NoFile).
  - reflexivity.
  - intros [H | [H | [H | [H | []]]]]; discriminate H.
Defined.

(** X17.  The only way out of the program is the line "0": on an input
    that does not hold it, the end of the input included, [main] never
    reaches [os.Exit], however many passes of its loops are allowed. *)
Theorem X17_main_exit (ParseDuration : string -> option Z) (os : Os)
    (fuel : nat) (input : Stdin) (file : ConfigFile) :
  ~ In "0" input -> fst (main ParseDuration os fuel input file) = false.
Proof.
  intros H0. unfold main. destruct (loadConfig file) as [config err].
  now apply mainLoop_stays.
Qed.

Lemma X17_witness : fst (main sampleDuration goodOs 5 [] NoFile) = false.
Proof.
  apply (X17_main_exit sampleDuration goodOs 5 [] NoFile). intros [].
Defined.

(** X18.  Throughout a session the configuration in memory keeps what a
    scan needs: whatever [config.json] is and whatever is typed, the count
    budget is positive and within an [int] and the two paths are not
    empty. *)
Theorem X18_main_sane (ParseDuration : string -> option Z) (os : Os)
    (fuel : nat) (input : Stdin) (file : ConfigFile) :
  Sane (globalConfig (snd (main ParseDuration os fuel input file))).
Proof.
  unfold main.
  pose proof (loadConfig_Usable file) as U.
  destruct (loadConfig file) as [config err]. cbn [fst] in U.
  apply mainLoop_Sane. session_simpl. apply U.
Qed.

(** X22.  Every worker a session can launch returns, and within its count
    budget: with the configuration in memory at any point of any session,
    whatever [config.json] was and whatever was typed, [spiralScan] returns
    after at most [MaxBlocks] calls of the API, for every centre, clock and
    network. *)
Theorem X22_session_workers_return (ParseFloat : string -> option float)
    (fmt_f : float -> string) (env : Env) (center : Center)
    (ParseDuration : string -> option Z) (os : Os)
    (fuel : nat) (input : Stdin) (file : ConfigFile) (w : World) :
  let config := globalConfig (snd (main ParseDuration os fuel input file)) in
  exists w',
    spiralScan ParseFloat fmt_f env center config w = Finished w' /\
    Z.of_nat (calls w') <= Z.of_nat (calls w) + MaxBlocks config.
Proof.
  cbv zeta.
  assert (S : Sane (globalConfig (snd (main ParseDuration os fuel input file)))).
  { unfold main. pose proof (loadConfig_Usable file) as U.
    destruct (loadConfig file) as [config err]. cbn [fst] in U.
    apply mainLoop_Sane. session_simpl. apply U. }
  set (config := globalConfig _) in *.
  destruct S as ([Hpos Hmax] & _).
  assert (HM : isInt (MaxBlocks config)) by (unfold isInt, minInt; lia).
  destruct (prepareOk env) eqn:Hp.
  - destruct (spiralScan_visits ParseFloat fmt_f env center config w HM Hp)
      as (n & w' & E & Hn & _ & V).
    exists w'. split; [exact E|].
    rewrite (Visited_counts _ _ _ _ _ _ _ _ V), spiralPath_length. lia.
  - exists (emit (EvLog (LogPrepareFailed (Name center))) w).
    unfold spiralScan. rewrite Hp. split; [reflexivity|]. cbn [emit calls]. lia.
Qed.

(** ** What is shown and what is read *)

Lemma string_length_app (u v : string) :
  String.length (u ++ v)%string = (String.length u + String.length v)%nat.
Proof. induction u as [|ch u IH]; cbn; [reflexivity | now rewrite IH]. Qed.

Lemma substring_app (n : nat) : forall a b,
  (n <= String.length a)%nat -> substring 0 n (a ++ b)%string = substring 0 n a.
Proof.
  induction n as [|n IH]; intros a b H.
  - destruct a, b; reflexivity.
  - destruct a as [|c a]; cbn in H; [lia|]. cbn. f_equal. apply IH. lia.
Qed.

Lemma substring_length (n : nat) : forall a,
  (n <= String.length a)%nat -> String.length (substring 0 n a) = n.
Proof.
  induction n as [|n IH]; intros a H.
  - now destruct a.
  - destruct a as [|c a]; cbn in H; [lia|]. cbn. f_equal. apply IH. lia.
Qed.

Lemma authDisplay_long (a : string) :
  (20 < String.length a)%nat -> authDisplay a = (substring 0 20 a ++ "...")%string.
Proof.
  intros H. unfold authDisplay.
  destruct (String.eqb a "") eqn:E.
  - apply String.eqb_eq in E. subst a. cbn in H. lia.
  - apply Nat.ltb_lt in H. now rewrite H.
Qed.




(** ** The answers of the API *)

Lemma decodeElems_each (ParseFloat : string -> option float) (vs : list json)
    (areas : list Area) :
  Forall2 (fun v a => decodeArea ParseFloat v zeroArea = Some a) vs areas ->
  decodeElems ParseFloat vs [] = Some areas.
Proof.
  induction 1 as [|v a vs areas Hv _ IH]; [reflexivity|].
  cbn [decodeElems hd tl]. now rewrite Hv, IH.
Qed.


